(** * Protocol test harness of the trading-server scripts

    Shallow embedding of the client code in [scripts/improved_test.py],
    [scripts/corrected_test.py], [scripts/demo_simulation_5min.py] and
    [scripts/trading_simulation.py]: the response correlator
    ([wait_for_response]), the order and production senders, the statistics
    each client keeps, the report computations and [disconnect].

    Conventions of the embedding.
    - A protocol message is the Python [dict] that [json.loads] produced: a
      finite map from field names to JSON values.
    - A Python [int] is an integer of [Z] and a Python [float] a binary64
      value of [float], with the rounding of the machine: the profit of a
      fill, the sums of the strategy table and the percentages of the
      simulation report are computed as the code computes them.  The ratios of
      two counters that the other reports print or compare with a threshold,
      and the draws of [random], are kept as exact rationals.
    - Time is counted in milliseconds.  The inbox of a wait is the list of the
      outcomes of its successive [message_queue.get()] calls.
    - Random choices ([uuid4]) and the behaviour of the network are inputs of
      the operations. *)

From Stdlib Require Import ZArith QArith String List Lia Floats.
From stdpp Require Import base gmap strings list sorting.

Set Warnings "-register-all".
Open Scope string_scope.
Open Scope list_scope.

(** ** Python values and exceptions *)

Module Py.

Inductive value :=
  | VNone
  | VBool (b : bool)
  | VInt (z : Z)
  | VFloat (f : float)
  | VStr (s : string)
  | VList (l : list value)
  | VDict (d : gmap string value).

(** [d.get(key)]: the field, or [None] when it is absent. *)
Definition get (d : gmap string value) (key : string) : value :=
  default VNone (d !! key).

(** [d.get(key, dflt)]. *)
Definition get_default (d : gmap string value) (key : string) (dflt : value) : value :=
  default dflt (d !! key).

(** [v == s] for a [str] literal [s]. *)
Definition is_str (v : value) (s : string) : bool :=
  match v with
  | VStr s' => bool_decide (s' = s)
  | _ => false
  end.

(** [v in l] for a list [l] of [str]. *)
Definition str_in (v : value) (l : list string) : bool :=
  match v with
  | VStr s => bool_decide (s ∈ l)
  | _ => false
  end.

(** Truth value of an argument of type [str | None]. *)
Definition truthy (o : option string) : bool :=
  match o with
  | Some s => bool_decide (s ≠ "")
  | None => false
  end.

(** [v == o] for [o : str | None]. *)
Definition eq_opt_str (v : value) (o : option string) : bool :=
  match o with
  | Some s => is_str v s
  | None => match v with VNone => true | _ => false end
  end.

(** [bool(v)]. *)
Definition truth (v : value) : bool :=
  match v with
  | VNone => false
  | VBool b => b
  | VInt z => negb (z =? 0)%Z
  | VFloat f => negb (f =? 0)%float
  | VStr s => bool_decide (s ≠ EmptyString)
  | VList l => bool_decide (l ≠ [])
  | VDict d => bool_decide (d ≠ ∅)
  end.

Inductive exn :=
  | ZeroDivisionError
  | TypeError
  | AttributeError
  | OverflowError
  | ConnectionClosed.

Inductive outcome (A : Type) :=
  | Returned (a : A)
  | Raised (e : exn).
Arguments Returned {A} a.
Arguments Raised {A} e.

#[global] Instance outcome_ret : MRet outcome := @Returned.
#[global] Instance outcome_bind : MBind outcome := fun A B k x =>
  match x with
  | Returned a => k a
  | Raised e => Raised e
  end.

(** [a / b] on the ratios kept as rationals. *)
Definition div (a b : Q) : outcome Q :=
  if Qeq_bool b 0 then Raised ZeroDivisionError else Returned (a / b)%Q.

(** *** Arithmetic on [int] and [float] *)

(** The integer an [int] stands for in arithmetic; a [bool] is an [int]. *)
Definition as_int (v : value) : option Z :=
  match v with
  | VInt z => Some z
  | VBool b => Some (if b then 1 else 0)%Z
  | _ => None
  end.

(** [float(z)] for an [int]: the nearest binary64 value, ties to even, and
    [OverflowError] when [z] is too large for a finite one. *)
Definition float_of_int (z : Z) : outcome float :=
  let f := SF2Prim (binary_normalize prec emax z 0 false) in
  if is_infinity f then Raised OverflowError else Returned f.

(** The conversion of the other operand of an operation on a [float]:
    [TypeError] for what is not a number. *)
Definition as_float (v : value) : outcome float :=
  match v with
  | VFloat f => Returned f
  | _ =>
      match as_int v with
      | Some z => float_of_int z
      | None => Raised TypeError
      end
  end.

(** [seq * n] for a [str] or a [list]: [n] copies, none for [n <= 0] (a
    repetition too long for the memory of the machine is not modelled). *)
Definition repeated (seq : value) (n : Z) : outcome value :=
  match seq with
  | VStr s => Returned (VStr (String.concat EmptyString (replicate (Z.to_nat n) s)))
  | VList l => Returned (VList (concat (replicate (Z.to_nat n) l)))
  | _ => Raised TypeError
  end.

(** [a * b]. *)
Definition mul (a b : value) : outcome value :=
  match a, b with
  | VFloat x, _ => y ← as_float b; mret (VFloat (x * y)%float)
  | _, VFloat y => x ← as_float a; mret (VFloat (x * y)%float)
  | _, _ =>
      match as_int a, as_int b with
      | Some x, Some y => mret (VInt (x * y)%Z)
      | Some n, None => repeated b n
      | None, Some n => repeated a n
      | None, None => Raised TypeError
      end
  end.

(** [a - b]. *)
Definition sub (a b : value) : outcome value :=
  match a, b with
  | VFloat x, _ => y ← as_float b; mret (VFloat (x - y)%float)
  | _, VFloat y => x ← as_float a; mret (VFloat (x - y)%float)
  | _, _ =>
      match as_int a, as_int b with
      | Some x, Some y => mret (VInt (x - y)%Z)
      | _, _ => Raised TypeError
      end
  end.

(** [x + v] and [x - v] for a [float] [x], as [x += v] and [x -= v]
    compute them. *)
Definition float_add (x : float) (v : value) : outcome float :=
  y ← as_float v; mret (x + y)%float.

Definition float_sub (x : float) (v : value) : outcome float :=
  y ← as_float v; mret (x - y)%float.

(** [a / b] for two [int]: the quotient rounded once to the nearest binary64
    value. *)
Definition int_spec (z : Z) : spec_float :=
  match z with
  | Z0 => S754_zero false
  | Zpos m => S754_finite false m 0
  | Zneg m => S754_finite true m 0
  end.

Definition truediv (a b : Z) : outcome float :=
  if (b =? 0)%Z then Raised ZeroDivisionError
  else
    let q := SF2Prim (SFdiv prec emax (int_spec a) (int_spec b)) in
    if is_infinity q then Raised OverflowError else Returned q.

(** [x / b] for a [float] [x] and an [int] [b]: [b] is converted, and the
    converted divisor is zero exactly when [b] is. *)
Definition float_truediv (x : float) (b : Z) : outcome float :=
  if (b =? 0)%Z then Raised ZeroDivisionError
  else y ← float_of_int b; mret (x / y)%float.

(** [sum(f(c) for c in l)] over integer counters. *)
Definition sum {A : Type} (f : A -> nat) (l : list A) : nat :=
  foldr (fun c acc => f c + acc) 0 l.

Definition of_nat (n : nat) : Q := inject_Z (Z.of_nat n).

End Py.
Import Py.

Abbreviation message := (gmap string value).

(** ** The inbox seen by one wait *)

(** One [await asyncio.wait_for(self.message_queue.get(), timeout=1.0)]:
    either what the listener queued arrives after [dt] ms, or
    [asyncio.TimeoutError] is raised after 1000 ms.  The listener of the
    improved client queues a frame after reading its type, so that its queue
    holds objects only; the listener of the corrected client queues the
    decoded frame as it is, whatever JSON value it is. *)
Inductive polled (A : Type) :=
  | Got (m : A) (dt : Z)
  | Empty.
Arguments Got {A} m dt.
Arguments Empty {A}.

Abbreviation poll := (polled message).

(** The messages a wait with deadline [timeout] pops from [inbox], whatever
    it then does with them.  After the last entry of [inbox] the queue stays
    empty. *)
Fixpoint popped {A : Type} (timeout elapsed : Z) (inbox : list (polled A))
    : list A :=
  if bool_decide (elapsed < timeout)%Z then
    match inbox with
    | [] => []
    | Empty :: inbox' => popped timeout (elapsed + 1000) inbox'
    | Got m dt :: inbox' => m :: popped timeout (elapsed + dt) inbox'
    end
  else [].

(** The time one [get()] takes, and the time a run of them takes. *)
Definition poll_time {A : Type} (p : polled A) : Z :=
  match p with
  | Got _ dt => dt
  | Empty => 1000
  end.

Definition waited {A : Type} (polls : list (polled A)) : Z :=
  foldr (fun p t => (poll_time p + t)%Z) 0%Z polls.

(** ** [improved_test.py]: ImprovedTradingClient *)

Module Improved.

(** The attributes the senders and the wait use.  [websocket] tells whether
    [self.websocket] holds a connection or is [None]; an entry of [errors]
    is the prefix of the text and the response formatted into it. *)
Record client := {
  websocket : bool;
  running : bool;
  orders_sent : nat;
  orders_success : nat;
  productions_sent : nat;
  productions_success : nat;
  errors : list (string * message)
}.

(** In-place updates of the statistics attributes. *)
Definition incr_orders_sent (c : client) : client :=
  {| websocket := websocket c; running := running c;
     orders_sent := orders_sent c + 1; orders_success := orders_success c;
     productions_sent := productions_sent c;
     productions_success := productions_success c; errors := errors c |}.

Definition incr_orders_success (c : client) : client :=
  {| websocket := websocket c; running := running c;
     orders_sent := orders_sent c; orders_success := orders_success c + 1;
     productions_sent := productions_sent c;
     productions_success := productions_success c; errors := errors c |}.

Definition incr_productions_sent (c : client) : client :=
  {| websocket := websocket c; running := running c;
     orders_sent := orders_sent c; orders_success := orders_success c;
     productions_sent := productions_sent c + 1;
     productions_success := productions_success c; errors := errors c |}.

Definition incr_productions_success (c : client) : client :=
  {| websocket := websocket c; running := running c;
     orders_sent := orders_sent c; orders_success := orders_success c;
     productions_sent := productions_sent c;
     productions_success := productions_success c + 1; errors := errors c |}.

(** [self.errors.append(f"{what}: {response}")], kept as the pair of the
    prefix and the response. *)
Definition errors_append (what : string) (response : message) (c : client) : client :=
  {| websocket := websocket c; running := running c;
     orders_sent := orders_sent c; orders_success := orders_success c;
     productions_sent := productions_sent c;
     productions_success := productions_success c;
     errors := errors c ++ [(what, response)] |}.

Definition timeout_result (received_messages : list message) : message :=
  {[ "type" := VStr "TIMEOUT";
     "message" := VStr "No response received";
     "received" := VList (VDict <$> received_messages) ]}.

(** The loop of [wait_for_response]; [elapsed] is [time.time() - start_time]
    at the loop test.  With an empty inbox every further [get] times out
    until the deadline, so the result is the timeout value. *)
Fixpoint wait_loop (expected_types : list string) (order_id : option string)
    (timeout elapsed : Z) (inbox : list poll)
    (received_messages : list message) : message :=
  if bool_decide (elapsed < timeout)%Z then
    match inbox with
    | [] => timeout_result received_messages
    | Empty :: inbox' =>
        wait_loop expected_types order_id timeout (elapsed + 1000)
          inbox' received_messages
    | Got message dt :: inbox' =>
        let received_messages := received_messages ++ [message] in
        let continue :=
          wait_loop expected_types order_id timeout (elapsed + dt)
            inbox' received_messages in
        let msg_type := get message "type" in
        if str_in msg_type expected_types then
          if truthy order_id then
            let msg_order_id := get message "clOrdID" in
            if eq_opt_str msg_order_id order_id then message
            else continue
          else message
        else if is_str msg_type "ERROR" then message
        else if str_in msg_type ["TICKER"; "INVENTORY_UPDATE"] then continue
        else if bool_decide (expected_types = []) then message
        else continue
    end
  else timeout_result received_messages.

Definition wait_for_response (expected_types : list string)
    (order_id : option string) (timeout : Z) (inbox : list poll) : message :=
  wait_loop expected_types order_id timeout 0 inbox [].

(** [send_order]: [order_id] is the generated id, [sent] what
    [websocket.send] did, [inbox] what the wait then sees. *)
Definition send_order (c : client) (order_id : string) (sent : outcome unit)
    (inbox : list poll) : client * outcome bool :=
  if websocket c then
    match sent with
    | Raised e => (c, Raised e)
    | Returned _ =>
        let c := incr_orders_sent c in
        let response :=
          wait_for_response ["ORDER_ACK"; "FILL"; "ERROR"] (Some order_id)
            5000 inbox in
        if str_in (get response "type") ["ORDER_ACK"; "FILL"] then
          (incr_orders_success c, Returned true)
        else if is_str (get response "type") "ERROR" then
          (errors_append "Order failed" response c, Returned false)
        else (c, Returned false)
    end
  else (c, Returned false).

Definition send_production (c : client) (sent : outcome unit)
    (inbox : list poll) : client * outcome bool :=
  if websocket c then
    match sent with
    | Raised e => (c, Raised e)
    | Returned _ =>
        let c := incr_productions_sent c in
        let response :=
          wait_for_response ["INVENTORY_UPDATE"; "ERROR"] None 3000 inbox in
        if is_str (get response "type") "INVENTORY_UPDATE" then
          (incr_productions_success c, Returned true)
        else if is_str (get response "type") "ERROR" then
          (errors_append "Production failed" response c, Returned false)
        else (incr_productions_success c, Returned true)
    end
  else (c, Returned false).

(** Whether the loop returns a message it pops: the decision of the
    [if]/[elif] chain, without the loop around it. *)
Definition qualifies (expected_types : list string) (order_id : option string)
    (message : gmap string value) : bool :=
  let msg_type := get message "type" in
  if str_in msg_type expected_types then
    if truthy order_id then eq_opt_str (get message "clOrdID") order_id
    else true
  else if is_str msg_type "ERROR" then true
  else if str_in msg_type ["TICKER"; "INVENTORY_UPDATE"] then false
  else bool_decide (expected_types = []).

(** [ImprovedTradingClient(token, server_url)]; [websocket] tells whether
    [connect] has stored a connection. *)
Definition new_client (websocket : bool) : client :=
  {| websocket := websocket; running := false; orders_sent := 0;
     orders_success := 0; productions_sent := 0; productions_success := 0;
     errors := [] |}.

(** Two waits pending on the one [message_queue] of a session:
    [asyncio.Queue] hands each message to exactly one pending [get()].
    A delivery names the wait whose [get()] returned ([true] for the first
    wait, [false] for the second) and what it returned. *)
Definition deliveries_of (w : bool) (ds : list (bool * poll)) : list poll :=
  snd <$> filter (fun d => fst d = w) ds.

Definition concurrent_waits (expected_types : list string)
    (id1 id2 : string) (timeout : Z) (ds : list (bool * poll))
    : message * message :=
  (wait_for_response expected_types (Some id1) timeout (deliveries_of true ds),
   wait_for_response expected_types (Some id2) timeout (deliveries_of false ds)).

(** *** The rest of the client *)

Definition set_running (b : bool) (c : client) : client :=
  {| websocket := websocket c; running := b;
     orders_sent := orders_sent c; orders_success := orders_success c;
     productions_sent := productions_sent c;
     productions_success := productions_success c; errors := errors c |}.

(** [disconnect]: [closed] is what [websocket.close()] did; an exception of
    it is caught and logged. *)
Definition disconnect (c : client) (closed : outcome unit)
    : client * outcome unit :=
  let c := set_running false c in
  if websocket c then
    match closed with
    | Returned _ => (c, Returned tt)
    | Raised _ => (c, Returned tt)
    end
  else (c, Returned tt).

(** The entries of [errors] that a given branch appended. *)
Definition count_errors (what : string) (c : client) : nat :=
  length (filter (fun e => fst e = what) (errors c)).

(** The operations a test applies to a client. *)
Inductive op :=
  | SendOrder (order_id : string) (sent : outcome unit) (inbox : list poll)
  | SendProduction (sent : outcome unit) (inbox : list poll)
  | Disconnect (closed : outcome unit).

Definition step (c : client) (o : op) : client :=
  match o with
  | SendOrder order_id sent inbox => fst (send_order c order_id sent inbox)
  | SendProduction sent inbox => fst (send_production c sent inbox)
  | Disconnect closed => fst (disconnect c closed)
  end.

Definition run (c : client) (ops : list op) : client := foldl step c ops.

(** The [results] dictionary of [quick_functionality_test]; its six keys are
    those of the literal that creates it. *)
Record results := {
  connection : bool;
  production : bool;
  market_order : bool;
  limit_order : bool;
  ticker_received : bool;
  keepalive : bool
}.

(** The network as [quick_functionality_test] meets it: what each send did
    and what each wait saw, the ids generated for the two orders, and the
    value of [ticker_count], which the listener keeps, when the test reads
    it. *)
Record test_io := {
  production_sent : outcome unit;
  production_inbox : list poll;
  market_id : string;
  market_sent : outcome unit;
  market_inbox : list poll;
  limit_id : string;
  limit_sent : outcome unit;
  limit_inbox : list poll;
  ticker_count : nat;
  ping_inbox : list poll
}.

(** [quick_functionality_test]: the body of the [try] stops at the first
    exception, which is caught and logged; [finally] clears [running].
    [send_ping] catches the exceptions of its own send. *)
Definition quick_functionality_test (c : client) (io : test_io)
    : client * results :=
  let c := set_running true c in
  let none :=
    {| connection := false; production := false; market_order := false;
       limit_order := false; ticker_received := false; keepalive := false |} in
  let '(c, r) :=
    match send_production c (production_sent io) (production_inbox io) with
    | (c, Raised _) => (c, none)
    | (c, Returned produced) =>
        match send_order c (market_id io) (market_sent io) (market_inbox io) with
        | (c, Raised _) =>
            (c, {| connection := false; production := produced;
                   market_order := false; limit_order := false;
                   ticker_received := false; keepalive := false |})
        | (c, Returned market) =>
            match send_order c (limit_id io) (limit_sent io) (limit_inbox io) with
            | (c, Raised _) =>
                (c, {| connection := false; production := produced;
                       market_order := market; limit_order := false;
                       ticker_received := false; keepalive := false |})
            | (c, Returned limit) =>
                let ping_response :=
                  wait_for_response ["PONG"] None 2000 (ping_inbox io) in
                (c, {| connection := true; production := produced;
                       market_order := market; limit_order := limit;
                       ticker_received := bool_decide (0 < ticker_count io);
                       keepalive := is_str (get ping_response "type") "PONG" |})
            end
        end
    end in
  (set_running false c, r).

(** The analysis of [run_quick_validation_test]: a test passes when every
    client passed it, and the validation passes at a success rate of 0.8. *)
Definition test_names : list (string * (results → bool)) :=
  [("connection", connection); ("production", production);
   ("market_order", market_order); ("limit_order", limit_order);
   ("ticker_received", ticker_received); ("keepalive", keepalive)].

Definition passed_tests (all_results : list results) : nat :=
  length
    (filter
       (fun test =>
          let test_results := snd test <$> all_results in
          let passed := length (filter (fun b => b = true) test_results) in
          let total := length test_results in
          passed = total)
       (match all_results with [] => [] | _ :: _ => test_names end)).

Definition validation_passed (all_results : list results) : bool :=
  let total_tests :=
    match all_results with [] => 0 | _ :: _ => length test_names end in
  let success_rate :=
    if bool_decide (0 < total_tests)
    then (of_nat (passed_tests all_results) / of_nat total_tests)%Q
    else 0%Q in
  Qle_bool (8 # 10) success_rate.

End Improved.

(** ** [corrected_test.py]: CorrectedTestClient *)

Module Corrected.

(** The attributes of the client, as in the improved client. *)
Record client := {
  websocket : bool;
  running : bool;
  orders_sent : nat;
  orders_success : nat;
  productions_sent : nat;
  productions_success : nat;
  errors : list (string * message)
}.

Definition incr_orders_sent (c : client) : client :=
  {| websocket := websocket c; running := running c;
     orders_sent := orders_sent c + 1; orders_success := orders_success c;
     productions_sent := productions_sent c;
     productions_success := productions_success c; errors := errors c |}.

Definition incr_orders_success (c : client) : client :=
  {| websocket := websocket c; running := running c;
     orders_sent := orders_sent c; orders_success := orders_success c + 1;
     productions_sent := productions_sent c;
     productions_success := productions_success c; errors := errors c |}.

Definition incr_productions_sent (c : client) : client :=
  {| websocket := websocket c; running := running c;
     orders_sent := orders_sent c; orders_success := orders_success c;
     productions_sent := productions_sent c + 1;
     productions_success := productions_success c; errors := errors c |}.

Definition incr_productions_success (c : client) : client :=
  {| websocket := websocket c; running := running c;
     orders_sent := orders_sent c; orders_success := orders_success c;
     productions_sent := productions_sent c;
     productions_success := productions_success c + 1; errors := errors c |}.

(** [self.errors.append(f"{what}: {response}")], kept as the pair of the
    prefix and the response. *)
Definition errors_append (what : string) (response : message) (c : client) : client :=
  {| websocket := websocket c; running := running c;
     orders_sent := orders_sent c; orders_success := orders_success c;
     productions_sent := productions_sent c;
     productions_success := productions_success c;
     errors := errors c ++ [(what, response)] |}.

Definition set_running (b : bool) (c : client) : client :=
  {| websocket := websocket c; running := b;
     orders_sent := orders_sent c; orders_success := orders_success c;
     productions_sent := productions_sent c;
     productions_success := productions_success c; errors := errors c |}.

Definition timeout_result : message :=
  {[ "type" := VStr "TIMEOUT"; "message" := VStr "No response received" ]}.

(** The loop of [wait_for_response].  The queue holds the decoded frames as
    [message_listener] put them, before it looked at them: a frame that is
    not an object has no [get], and the [AttributeError] of [message.get]
    leaves the loop, whose [except] catches [asyncio.TimeoutError] only. *)
Fixpoint wait_loop (expected_types : list string) (timeout elapsed : Z)
    (inbox : list (polled value)) : outcome message :=
  if bool_decide (elapsed < timeout)%Z then
    match inbox with
    | [] => Returned timeout_result
    | Empty :: inbox' =>
        wait_loop expected_types timeout (elapsed + 1000) inbox'
    | Got (VDict message) dt :: inbox' =>
        let msg_type := get message "type" in
        if str_in msg_type expected_types then Returned message
        else if is_str msg_type "ERROR" then Returned message
        else if str_in msg_type ["TICKER"; "INVENTORY_UPDATE"] then
          wait_loop expected_types timeout (elapsed + dt) inbox'
        else Returned message
    | Got _ dt :: inbox' => Raised AttributeError
    end
  else Returned timeout_result.

Definition wait_for_response (expected_types : list string) (timeout : Z)
    (inbox : list (polled value)) : outcome message :=
  wait_loop expected_types timeout 0 inbox.

(** Whether the loop returns a message it pops. *)
Definition qualifies (expected_types : list string)
    (message : gmap string value) : bool :=
  let msg_type := get message "type" in
  if str_in msg_type expected_types then true
  else if is_str msg_type "ERROR" then true
  else if str_in msg_type ["TICKER"; "INVENTORY_UPDATE"] then false
  else true.

(** Whether the loop pops a frame and goes on: an object that does not
    qualify. *)
Definition passed_over (expected_types : list string) (frame : value) : bool :=
  match frame with
  | VDict message => negb (qualifies expected_types message)
  | _ => false
  end.

(** [send_order]: [sent] is what [websocket.send] did when there is a
    websocket, [inbox] what the wait then sees.  An exception of the wait
    leaves [send_order] after the order was counted as sent. *)
Definition send_order (c : client) (sent : outcome unit)
    (inbox : list (polled value)) : client * outcome bool :=
  match (if websocket c then sent else Returned tt) with
  | Raised e => (c, Raised e)
  | Returned _ =>
      let c := incr_orders_sent c in
      match wait_for_response ["ORDER_ACK"; "FILL"; "ERROR"] 5000 inbox with
      | Raised e => (c, Raised e)
      | Returned response =>
          if str_in (get response "type") ["ORDER_ACK"; "FILL"] then
            (incr_orders_success c, Returned true)
          else if is_str (get response "type") "ERROR" then
            (errors_append "Order failed" response c, Returned false)
          else
            (errors_append "Order timeout" response c, Returned false)
      end
  end.

Definition send_production (c : client) (sent : outcome unit)
    (inbox : list (polled value)) : client * outcome bool :=
  match (if websocket c then sent else Returned tt) with
  | Raised e => (c, Raised e)
  | Returned _ =>
      let c := incr_productions_sent c in
      match
        wait_for_response ["PRODUCTION_OK"; "INVENTORY_UPDATE"; "ERROR"]
          3000 inbox
      with
      | Raised e => (c, Raised e)
      | Returned response =>
          if str_in (get response "type") ["PRODUCTION_OK"; "INVENTORY_UPDATE"] then
            (incr_productions_success c, Returned true)
          else if is_str (get response "type") "ERROR" then
            (errors_append "Production failed" response c, Returned false)
          else if is_str (get response "type") "TIMEOUT" then
            (c, Returned true)
          else (c, Returned true)
      end
  end.

(** [disconnect]: [closed] is what [websocket.close()] did; an exception of
    it is caught and logged. *)
Definition disconnect (c : client) (closed : outcome unit)
    : client * outcome unit :=
  let c := set_running false c in
  if websocket c then
    match closed with
    | Returned _ => (c, Returned tt)
    | Raised _ => (c, Returned tt)
    end
  else (c, Returned tt).

(** The operations a test applies to a client. *)
Inductive op :=
  | SendOrder (sent : outcome unit) (inbox : list (polled value))
  | SendProduction (sent : outcome unit) (inbox : list (polled value))
  | Disconnect (closed : outcome unit).

Definition step (c : client) (o : op) : client :=
  match o with
  | SendOrder sent inbox => fst (send_order c sent inbox)
  | SendProduction sent inbox => fst (send_production c sent inbox)
  | Disconnect closed => fst (disconnect c closed)
  end.

Definition run (c : client) (ops : list op) : client := foldl step c ops.

(** An order whose wait returns: it reads no frame that is not an object. *)
Definition order_answered (o : op) : Prop :=
  match o with
  | SendOrder _ inbox =>
      ∃ response,
        wait_for_response ["ORDER_ACK"; "FILL"; "ERROR"] 5000 inbox
        = Returned response
  | _ => True
  end.

(** An operation whose wait returns. *)
Definition answered (o : op) : Prop :=
  match o with
  | SendOrder _ inbox =>
      ∃ response,
        wait_for_response ["ORDER_ACK"; "FILL"; "ERROR"] 5000 inbox
        = Returned response
  | SendProduction _ inbox =>
      ∃ response,
        wait_for_response ["PRODUCTION_OK"; "INVENTORY_UPDATE"; "ERROR"]
          3000 inbox
        = Returned response
  | Disconnect _ => True
  end.

(** [CorrectedTestClient(token, server_url)]; [websocket] tells whether
    [connect] has stored a connection. *)
Definition new_client (websocket : bool) : client :=
  {| websocket := websocket; running := false; orders_sent := 0;
     orders_success := 0; productions_sent := 0; productions_success := 0;
     errors := [] |}.

(** The entries of [errors] that a given branch appended. *)
Definition count_errors (what : string) (c : client) : nat :=
  length (filter (fun e => fst e = what) (errors c)).

(** The rate lines of the report of [run_corrected_test]. *)
Inductive rate_line :=
  | Percent (q : Q)
  | NotApplicable.

Definition rate_line_of (success sent : nat) : outcome rate_line :=
  if bool_decide (0 < sent) then
    q ← div (of_nat success) (of_nat sent); mret (Percent (q * 100)%Q)
  else mret NotApplicable.

Record report := {
  total_orders_sent : nat;
  total_orders_success : nat;
  total_productions_sent : nat;
  total_productions_success : nat;
  order_success_rate : rate_line;
  production_success_rate : rate_line;
  total_errors : nat
}.

Definition run_corrected_test_report (clients : list client) : outcome report :=
  let total_orders_sent := sum orders_sent clients in
  let total_orders_success := sum orders_success clients in
  let total_productions_sent := sum productions_sent clients in
  let total_productions_success := sum productions_success clients in
  let all_errors := concat (errors <$> clients) in
  order_rate ← rate_line_of total_orders_success total_orders_sent;
  production_rate ←
    rate_line_of total_productions_success total_productions_sent;
  mret {| total_orders_sent := total_orders_sent;
          total_orders_success := total_orders_success;
          total_productions_sent := total_productions_sent;
          total_productions_success := total_productions_success;
          order_success_rate := order_rate;
          production_success_rate := production_rate;
          total_errors := length all_errors |}.

(** *** The scripted test *)

(** What one step of the script did: the statement that raised ends the
    body of the [try]. *)
Definition perform (c : client) (o : op) : client * outcome unit :=
  match o with
  | SendOrder sent inbox =>
      let '(c, r) := send_order c sent inbox in (c, _ ← r; mret tt)
  | SendProduction sent inbox =>
      let '(c, r) := send_production c sent inbox in (c, _ ← r; mret tt)
  | Disconnect closed => disconnect c closed
  end.

Fixpoint attempt (c : client) (ops : list op) : client :=
  match ops with
  | [] => c
  | o :: ops' =>
      match perform c o with
      | (c, Returned _) => attempt c ops'
      | (c, Raised _) => c
      end
  end.

(** [test_basic_functionality]: two productions and four orders, in the
    order of the script; each argument gives what the send did and what the
    wait saw.  An exception is caught and logged, [finally] clears
    [running]. *)
Definition script (p1 o2 o3 p4 o5 o6 : outcome unit * list (polled value))
    : list op :=
  [SendProduction (fst p1) (snd p1); SendOrder (fst o2) (snd o2);
   SendOrder (fst o3) (snd o3); SendProduction (fst p4) (snd p4);
   SendOrder (fst o5) (snd o5); SendOrder (fst o6) (snd o6)].

Definition test_basic_functionality (c : client)
    (p1 o2 o3 p4 o5 o6 : outcome unit * list (polled value)) : client :=
  set_running false (attempt (set_running true c) (script p1 o2 o3 p4 o5 o6)).

End Corrected.

(** ** [demo_simulation_5min.py]: AdvancedTradingClient *)

Module Demo.

(** The [stats] dictionary; its keys are fixed at construction. *)
Record statistics := {
  orders_sent : nat;
  orders_successful : nat;
  orders_filled : nat;
  productions_sent : nat;
  productions_successful : nat;
  total_profit : float;
  tickers_received : nat;
  fills_received : nat;
  offers_received : nat;
  errors : list message
}.

(** An entry of [pending_orders] (its timestamp is left out). *)
Record order_info := {
  side : string;
  product : string;
  qty : nat;
  price : option Q;
  mode : string;
  status : value
}.

(** The client.  [balance] and [initial_balance] hold what [connect] read
    from the answer to the login, any JSON value.  [market_data] and
    [inventory], which the listener writes and nothing reads, are left
    out. *)
Record client := {
  websocket : bool;
  running : bool;
  stats : statistics;
  balance : value;
  initial_balance : value;
  pending_orders : gmap string order_info;
  message_queue : list message
}.

Definition set_stats (s : statistics) (c : client) : client :=
  {| websocket := websocket c; running := running c; stats := s;
     balance := balance c; initial_balance := initial_balance c;
     pending_orders := pending_orders c; message_queue := message_queue c |}.

Definition set_pending_orders (p : gmap string order_info) (c : client) : client :=
  {| websocket := websocket c; running := running c; stats := stats c;
     balance := balance c; initial_balance := initial_balance c;
     pending_orders := p; message_queue := message_queue c |}.

Definition queue_put (data : message) (c : client) : client :=
  {| websocket := websocket c; running := running c; stats := stats c;
     balance := balance c; initial_balance := initial_balance c;
     pending_orders := pending_orders c;
     message_queue := message_queue c ++ [data] |}.

Definition set_websocket (b : bool) (c : client) : client :=
  {| websocket := b; running := running c; stats := stats c;
     balance := balance c; initial_balance := initial_balance c;
     pending_orders := pending_orders c; message_queue := message_queue c |}.

Definition set_balances (current initial : value) (c : client) : client :=
  {| websocket := websocket c; running := running c; stats := stats c;
     balance := current; initial_balance := initial;
     pending_orders := pending_orders c; message_queue := message_queue c |}.

Definition incr_orders_sent (s : statistics) : statistics :=
  {| orders_sent := orders_sent s + 1;
     orders_successful := orders_successful s;
     orders_filled := orders_filled s;
     productions_sent := productions_sent s;
     productions_successful := productions_successful s;
     total_profit := total_profit s;
     tickers_received := tickers_received s;
     fills_received := fills_received s;
     offers_received := offers_received s; errors := errors s |}.

Definition incr_orders_successful (s : statistics) : statistics :=
  {| orders_sent := orders_sent s;
     orders_successful := orders_successful s + 1;
     orders_filled := orders_filled s;
     productions_sent := productions_sent s;
     productions_successful := productions_successful s;
     total_profit := total_profit s;
     tickers_received := tickers_received s;
     fills_received := fills_received s;
     offers_received := offers_received s; errors := errors s |}.

Definition incr_orders_filled (s : statistics) : statistics :=
  {| orders_sent := orders_sent s;
     orders_successful := orders_successful s;
     orders_filled := orders_filled s + 1;
     productions_sent := productions_sent s;
     productions_successful := productions_successful s;
     total_profit := total_profit s;
     tickers_received := tickers_received s;
     fills_received := fills_received s;
     offers_received := offers_received s; errors := errors s |}.

Definition incr_productions_sent (s : statistics) : statistics :=
  {| orders_sent := orders_sent s;
     orders_successful := orders_successful s;
     orders_filled := orders_filled s;
     productions_sent := productions_sent s + 1;
     productions_successful := productions_successful s;
     total_profit := total_profit s;
     tickers_received := tickers_received s;
     fills_received := fills_received s;
     offers_received := offers_received s; errors := errors s |}.

Definition incr_productions_successful (s : statistics) : statistics :=
  {| orders_sent := orders_sent s;
     orders_successful := orders_successful s;
     orders_filled := orders_filled s;
     productions_sent := productions_sent s;
     productions_successful := productions_successful s + 1;
     total_profit := total_profit s;
     tickers_received := tickers_received s;
     fills_received := fills_received s;
     offers_received := offers_received s; errors := errors s |}.

Definition set_total_profit (p : float) (s : statistics) : statistics :=
  {| orders_sent := orders_sent s;
     orders_successful := orders_successful s;
     orders_filled := orders_filled s;
     productions_sent := productions_sent s;
     productions_successful := productions_successful s;
     total_profit := p;
     tickers_received := tickers_received s;
     fills_received := fills_received s;
     offers_received := offers_received s; errors := errors s |}.

Definition incr_tickers_received (s : statistics) : statistics :=
  {| orders_sent := orders_sent s;
     orders_successful := orders_successful s;
     orders_filled := orders_filled s;
     productions_sent := productions_sent s;
     productions_successful := productions_successful s;
     total_profit := total_profit s;
     tickers_received := tickers_received s + 1;
     fills_received := fills_received s;
     offers_received := offers_received s; errors := errors s |}.

Definition incr_fills_received (s : statistics) : statistics :=
  {| orders_sent := orders_sent s;
     orders_successful := orders_successful s;
     orders_filled := orders_filled s;
     productions_sent := productions_sent s;
     productions_successful := productions_successful s;
     total_profit := total_profit s;
     tickers_received := tickers_received s;
     fills_received := fills_received s + 1;
     offers_received := offers_received s; errors := errors s |}.

Definition incr_offers_received (s : statistics) : statistics :=
  {| orders_sent := orders_sent s;
     orders_successful := orders_successful s;
     orders_filled := orders_filled s;
     productions_sent := productions_sent s;
     productions_successful := productions_successful s;
     total_profit := total_profit s;
     tickers_received := tickers_received s;
     fills_received := fills_received s;
     offers_received := offers_received s + 1; errors := errors s |}.

Definition errors_append (data : message) (s : statistics) : statistics :=
  {| orders_sent := orders_sent s;
     orders_successful := orders_successful s;
     orders_filled := orders_filled s;
     productions_sent := productions_sent s;
     productions_successful := productions_successful s;
     total_profit := total_profit s;
     tickers_received := tickers_received s;
     fills_received := fills_received s;
     offers_received := offers_received s; errors := errors s ++ [data] |}.

Definition set_status (v : value) (o : order_info) : order_info :=
  {| side := side o; product := product o; qty := qty o; price := price o;
     mode := mode o; status := v |}.

(** [_process_ticker]: a product that is true is used as a key of
    [market_data]; a list or a dict is unhashable. *)
Definition _process_ticker (c : client) (data : message)
    : client * outcome unit :=
  let product := get data "product" in
  if truth product then
    match product with
    | VList _ | VDict _ => (c, Raised TypeError)
    | _ => (c, Returned tt)
    end
  else (c, Returned tt).

(** [_process_fill]: [total_profit], a [float], is incremented or
    decremented by [price * qty]; an exception of the product or of the
    addition leaves it as it was. *)
Definition _process_fill (s : statistics) (data : message)
    : statistics * outcome unit :=
  let s := incr_orders_filled s in
  let side := get data "side" in
  let price := get_default data "fillPrice" (VInt 0) in
  let qty := get_default data "fillQty" (VInt 0) in
  if is_str side "SELL" then
    match x ← mul price qty; float_add (total_profit s) x with
    | Returned profit => (set_total_profit profit s, Returned tt)
    | Raised e => (s, Raised e)
    end
  else if is_str side "BUY" then
    match x ← mul price qty; float_sub (total_profit s) x with
    | Returned profit => (set_total_profit profit s, Returned tt)
    | Raised e => (s, Raised e)
    end
  else (s, Returned tt).

(** [order_id in self.pending_orders]: the keys are the generated ids, all
    [str]; a list or a dict is unhashable. *)
Definition _process_order_ack (c : client) (data : message)
    : client * outcome unit :=
  let order_id := get data "clOrdID" in
  let status := get data "status" in
  match order_id with
  | VStr id =>
      match pending_orders c !! id with
      | Some info =>
          let c :=
            set_pending_orders (<[id := set_status status info]> (pending_orders c)) c in
          if is_str status "PENDING" then
            (set_stats (incr_orders_successful (stats c)) c, Returned tt)
          else (c, Returned tt)
      | None => (c, Returned tt)
      end
  | VList _ | VDict _ => (c, Raised TypeError)
  | _ => (c, Returned tt)
  end.

(** One turn of the loop of [message_listener] on the decoded frame [data];
    an exception ends the listener before the frame is queued. *)
Definition message_listener_body (c : client) (data : message) : client * outcome unit :=
  let msg_type := get_default data "type" (VStr "UNKNOWN") in
  let '(c, r) :=
    if is_str msg_type "TICKER" then
      _process_ticker (set_stats (incr_tickers_received (stats c)) c) data
    else if is_str msg_type "FILL" then
      let c := set_stats (incr_fills_received (stats c)) c in
      let '(s, r) := _process_fill (stats c) data in
      (set_stats s c, r)
    else if is_str msg_type "OFFER" then
      (set_stats (incr_offers_received (stats c)) c, Returned tt)
    else if is_str msg_type "ORDER_ACK" then _process_order_ack c data
    else if is_str msg_type "INVENTORY_UPDATE" then (c, Returned tt)
    else if is_str msg_type "ERROR" then
      (set_stats (errors_append data (stats c)) c, Returned tt)
    else (c, Returned tt) in
  match r with
  | Returned _ => (queue_put data c, Returned tt)
  | Raised e => (c, Raised e)
  end.

(** [message_listener] on the frames the connection delivers: the loop runs
    while [running] and [websocket] hold and ends at the first exception. *)
Fixpoint message_listener (c : client) (frames : list message) : client :=
  match frames with
  | [] => c
  | data :: frames' =>
      if running c && websocket c then
        match message_listener_body c data with
        | (c', Returned _) => message_listener c' frames'
        | (c', Raised _) => c'
        end
      else c
  end.

(** [send_order]: [order_id] is the generated id and [sent] what
    [websocket.send] did. *)
Definition send_order (c : client) (order_id : string) (side product : string)
    (quantity : nat) (limit_price : option Q) (mode : string)
    (sent : outcome unit) : client * outcome bool :=
  let c :=
    set_pending_orders
      (<[order_id := {| side := side; product := product; qty := quantity;
                        price := limit_price; mode := mode;
                        status := VStr "SENT" |}]> (pending_orders c)) c in
  if websocket c then
    match sent with
    | Raised e => (c, Raised e)
    | Returned _ => (set_stats (incr_orders_sent (stats c)) c, Returned true)
    end
  else (c, Returned false).

Definition send_production (c : client) (product : string) (quantity : nat)
    (sent : outcome unit) : client * outcome bool :=
  if websocket c then
    match sent with
    | Raised e => (c, Raised e)
    | Returned _ =>
        let c := set_stats (incr_productions_sent (stats c)) c in
        let c := set_stats (incr_productions_successful (stats c)) c in
        (c, Returned true)
    end
  else (c, Returned false).

(** The entries of [get_performance_summary] that are computed: the three
    rates and the change of the balance, in the order of the dictionary. *)
Record summary := {
  order_success_rate : Q;
  fill_rate : Q;
  production_success_rate : Q;
  balance_change : value
}.

Definition get_performance_summary (c : client) : outcome summary :=
  let s := stats c in
  order_rate ←
    div (of_nat (orders_successful s)) (of_nat (Nat.max 1 (orders_sent s)));
  fills ←
    div (of_nat (orders_filled s)) (of_nat (Nat.max 1 (orders_successful s)));
  production_rate ←
    div (of_nat (productions_successful s))
        (of_nat (Nat.max 1 (productions_sent s)));
  change ← sub (balance c) (initial_balance c);
  mret {| order_success_rate := order_rate; fill_rate := fills;
          production_success_rate := production_rate;
          balance_change := change |}.

(** What happens to a client during [execute_strategy]. *)
Inductive op :=
  | SendOrder (order_id side product : string) (quantity : nat)
      (limit_price : option Q) (mode : string) (sent : outcome unit)
  | SendProduction (product : string) (quantity : nat) (sent : outcome unit)
  | Receive (data : message).

Definition step (c : client) (o : op) : client :=
  match o with
  | SendOrder order_id side product quantity limit_price mode sent =>
      fst (send_order c order_id side product quantity limit_price mode sent)
  | SendProduction product quantity sent =>
      fst (send_production c product quantity sent)
  | Receive data => fst (message_listener_body c data)
  end.

Definition run (c : client) (ops : list op) : client := foldl step c ops.

(** [AdvancedTradingClient(team_config, server_url)]; [websocket] tells
    whether [connect] has stored a connection. *)
Definition new_client (websocket : bool) : client :=
  {| websocket := websocket; running := false;
     stats := {| orders_sent := 0; orders_successful := 0; orders_filled := 0;
                 productions_sent := 0; productions_successful := 0;
                 total_profit := 0%float; tickers_received := 0;
                 fills_received := 0; offers_received := 0; errors := [] |};
     balance := VFloat 0%float; initial_balance := VFloat 0%float;
     pending_orders := ∅; message_queue := [] |}.

(** [connect], once the connection is open and the answer to the login is
    the object [auth_response]. *)
Definition connect (c : client) (auth_response : message) : client * bool :=
  let c := set_websocket true c in
  if is_str (get auth_response "type") "LOGIN_OK" then
    let balance :=
      get_default auth_response "currentBalance" (VFloat 0%float) in
    (set_balances balance balance c, true)
  else (c, false).

(** *** The strategy *)

Record TeamConfig := {
  token : string;
  name : string;
  species : string;
  strategy : string;
  risk_level : string;
  preferred_products : list string;
  production_frequency : nat;
  trading_frequency : nat
}.

(** The draws of the [random] module in one activity: [coin] is
    [random.random()], [unit_draw] the [random()] behind [random.uniform], the
    picks are the integers behind [random.choice] and [random.randint]. *)
Record dice := {
  coin : Q;
  pick_product : nat;
  pick_side : nat;
  pick_quantity : nat;
  unit_draw : Q
}.

(** [random.choice(seq)]: an element of [seq], [None] for the [IndexError]
    of an empty [seq]. *)
Definition choice {A : Type} (seq : list A) (pick : nat) : option A :=
  seq !! (pick mod length seq).

(** [random.randint(a, b)] for [a <= b]. *)
Definition randint (a b : nat) (pick : nat) : nat := a + pick mod (b - a + 1).

(** [random.uniform(a, b)]: [a + (b - a) * random()]. *)
Definition uniform (a b : Q) (u : Q) : Q := (a + (b - a) * u)%Q.

(** What an activity of the strategy comes to: nothing, an action, or the
    [IndexError] of a choice among no products. *)
Inductive plan (A : Type) :=
  | Idle
  | Act (a : A)
  | IndexError.
Arguments Idle {A}.
Arguments Act {A} a.
Arguments IndexError {A}.

(** The product and the quantity that [_execute_production] sends. *)
Definition production_choice (config : TeamConfig) (d : dice)
    : plan (string * nat) :=
  if bool_decide (preferred_products config = []) then Idle
  else
    let products :=
      if bool_decide (strategy config = "Producer") then
        Some ["FOSFO"; "PITA"; "SEBO"]
      else if bool_decide (strategy config = "Refiner") then
        Some ["PALTA-OIL"; "NUCREM"; "CASCAR-ALLOY"]
      else if bool_decide (strategy config = "Trader") then
        if Qlt_le_dec (coin d) (3 # 10)
        then Some (take 2 (preferred_products config))
        else None
      else Some (preferred_products config) in
    match products with
    | None => Idle
    | Some products =>
        match choice products (pick_product d) with
        | None => IndexError
        | Some product => Act (product, randint 1 5 (pick_quantity d))
        end
    end.

Definition _execute_production (config : TeamConfig) (c : client) (d : dice)
    (sent : outcome unit) : client * plan (outcome bool) :=
  match production_choice config d with
  | Idle => (c, Idle)
  | IndexError => (c, IndexError)
  | Act (product, quantity) =>
      let '(c, r) := send_production c product quantity sent in (c, Act r)
  end.

(** [_execute_trading]: [order_id] is the id that [send_order] generates. *)
Definition _execute_trading (config : TeamConfig) (c : client) (d : dice)
    (order_id : string) (sent : outcome unit) : client * plan (outcome bool) :=
  if bool_decide (preferred_products config = []) then (c, Idle)
  else
    match choice (preferred_products config) (pick_product d),
          choice ["BUY"; "SELL"] (pick_side d) with
    | Some product, Some side =>
        let quantity := randint 1 3 (pick_quantity d) in
        if bool_decide (strategy config = "Aggressive") then
          let '(c, r) :=
            send_order c order_id side product quantity None "MARKET" sent in
          (c, Act r)
        else
          let base_price := uniform 5 50 (unit_draw d) in
          let '(c, r) :=
            send_order c order_id side product quantity (Some base_price)
              "LIMIT" sent in
          (c, Act r)
    | _, _ => (c, IndexError)
    end.

(** *** The final report *)

(** A performance summary as [_generate_final_report] reads it. *)
Record performance := {
  perf_team_name : string;
  perf_strategy : string;
  perf_orders_sent : nat;
  perf_orders_filled : nat;
  perf_total_profit : float
}.

(** An entry of [strategy_stats].  Its profit starts as the [int] 0 and is a
    [float] from the first team on; an entry is created for a team and that
    team is added at once, and [0 + x] is the float sum [0.0 + x]. *)
Record strategy_entry := {
  teams : nat;
  total_orders : nat;
  total_fills : nat;
  entry_total_profit : float
}.

(** One team more in the entry of its strategy. *)
Definition add_performance (entry : strategy_entry) (perf : performance)
    : strategy_entry :=
  {| teams := teams entry + 1;
     total_orders := total_orders entry + perf_orders_sent perf;
     total_fills := total_fills entry + perf_orders_filled perf;
     entry_total_profit :=
       (entry_total_profit entry + perf_total_profit perf)%float |}.

Definition no_team : strategy_entry :=
  {| teams := 0; total_orders := 0; total_fills := 0;
     entry_total_profit := 0%float |}.

Definition strategy_stats (performances : list performance)
    : gmap string strategy_entry :=
  foldl
    (fun stats perf =>
       let entry := default no_team (stats !! perf_strategy perf) in
       <[perf_strategy perf := add_performance entry perf]> stats)
    ∅ performances.

(** The averages printed for one strategy. *)
Definition strategy_averages (e : strategy_entry)
    : outcome (float * float * float) :=
  avg_orders ← truediv (Z.of_nat (total_orders e)) (Z.of_nat (teams e));
  avg_fills ← truediv (Z.of_nat (total_fills e)) (Z.of_nat (teams e));
  avg_profit ← float_truediv (entry_total_profit e) (Z.of_nat (teams e));
  mret (avg_orders, avg_fills, avg_profit).

(** [sorted(performances, key=..., reverse=True)]: the stable sort into
    descending order of the key; [lt x y] tells that the key of [x] is
    less than the key of [y]. *)
Fixpoint insert_descending {A : Type} (lt : A → A → bool) (x : A) (l : list A)
    : list A :=
  match l with
  | [] => [x]
  | y :: l' => if lt x y then y :: insert_descending lt x l' else x :: l
  end.

Definition sorted_descending {A : Type} (lt : A → A → bool) (l : list A)
    : list A :=
  foldr (insert_descending lt) [] l.

Definition top_orders (performances : list performance) : list performance :=
  take 3
    (sorted_descending
       (fun x y => bool_decide (perf_orders_sent x < perf_orders_sent y))
       performances).

Definition top_fills (performances : list performance) : list performance :=
  take 3
    (sorted_descending
       (fun x y => bool_decide (perf_orders_filled x < perf_orders_filled y))
       performances).

Definition top_profit (performances : list performance) : list performance :=
  take 3
    (sorted_descending
       (fun x y => (perf_total_profit x <? perf_total_profit y)%float)
       performances).

End Demo.

(** ** [trading_simulation.py]: TradingClient and TradingSimulation *)

Module Simulation.

Record OrderStats := {
  total_orders : nat;
  successful_orders : nat;
  failed_orders : nat;
  first_fills : nat;
  order_times : list float
}.

Record ClientState := {
  orders_placed : nat;
  orders_filled : nat;
  production_count : nat;
  is_connected : bool;
  stats : OrderStats
}.

Record client := {
  websocket : bool;
  running : bool;
  state : ClientState
}.

Definition set_state (s : ClientState) (c : client) : client :=
  {| websocket := websocket c; running := running c; state := s |}.

Definition set_running (b : bool) (c : client) : client :=
  {| websocket := websocket c; running := b; state := state c |}.

Definition set_is_connected (b : bool) (s : ClientState) : ClientState :=
  {| orders_placed := orders_placed s; orders_filled := orders_filled s;
     production_count := production_count s; is_connected := b;
     stats := stats s |}.

Definition set_stats (o : OrderStats) (s : ClientState) : ClientState :=
  {| orders_placed := orders_placed s; orders_filled := orders_filled s;
     production_count := production_count s;
     is_connected := is_connected s; stats := o |}.

Definition incr_orders_placed (s : ClientState) : ClientState :=
  {| orders_placed := orders_placed s + 1; orders_filled := orders_filled s;
     production_count := production_count s;
     is_connected := is_connected s; stats := stats s |}.

Definition incr_total_orders (o : OrderStats) : OrderStats :=
  {| total_orders := total_orders o + 1;
     successful_orders := successful_orders o;
     failed_orders := failed_orders o; first_fills := first_fills o;
     order_times := order_times o |}.

Definition incr_successful_orders (o : OrderStats) : OrderStats :=
  {| total_orders := total_orders o;
     successful_orders := successful_orders o + 1;
     failed_orders := failed_orders o; first_fills := first_fills o;
     order_times := order_times o |}.

Definition incr_failed_orders (o : OrderStats) : OrderStats :=
  {| total_orders := total_orders o;
     successful_orders := successful_orders o;
     failed_orders := failed_orders o + 1; first_fills := first_fills o;
     order_times := order_times o |}.

Definition order_times_append (t : float) (o : OrderStats) : OrderStats :=
  {| total_orders := total_orders o;
     successful_orders := successful_orders o;
     failed_orders := failed_orders o; first_fills := first_fills o;
     order_times := order_times o ++ [t] |}.

(** [disconnect]: [closed] is what [websocket.close()] did. *)
Definition disconnect (c : client) (closed : outcome unit)
    : client * outcome unit :=
  let c := set_running false c in
  if websocket c then
    match closed with
    | Raised e => (c, Raised e)
    | Returned _ =>
        (set_state (set_is_connected false (state c)) c, Returned tt)
    end
  else (c, Returned tt).

(** [send_message]: [io] is the decoded frame that came back within 10 s,
    any JSON value, and the time it took; [None] when the exchange timed out
    or failed.  The result is the response, [VNone] for Python's [None]. *)
Definition send_message (c : client) (io : option (value * float))
    : client * value :=
  if websocket c then
    match io with
    | Some (response, response_time) =>
        (set_state
           (set_stats (order_times_append response_time (stats (state c)))
              (state c)) c,
         response)
    | None => (c, VNone)
    end
  else (c, VNone).

(** [response and response.get("type") == kind]: a response that is true and
    is not an object has no [get]. *)
Definition response_is (response : value) (kind : string) : outcome bool :=
  if truth response then
    match response with
    | VDict r => Returned (is_str (get r "type") kind)
    | _ => Raised AttributeError
    end
  else Returned false.

(** [place_order]: the order is counted before the response is read. *)
Definition place_order (c : client) (io : option (value * float))
    : client * outcome bool :=
  let '(c, response) := send_message c io in
  let c := set_state (set_stats (incr_total_orders (stats (state c))) (state c)) c in
  match response_is response "ORDER_SUCCESS" with
  | Raised e => (c, Raised e)
  | Returned true =>
      let c := set_state (set_stats (incr_successful_orders (stats (state c))) (state c)) c in
      (set_state (incr_orders_placed (state c)) c, Returned true)
  | Returned false =>
      (set_state (set_stats (incr_failed_orders (stats (state c))) (state c)) c,
       Returned false)
  end.

(** The counts and the two percentages of the report.  The average, the
    minimum and the maximum of the response times, which the report also
    logs, are computed by [statistics.mean], [min] and [max] under a test
    for the empty list, and are not part of this value. *)
Record report := {
  report_total_orders : nat;
  report_successful : nat;
  report_successful_percent : float;
  report_failed : nat;
  report_failed_percent : float;
  report_productions : nat;
  report_fills : nat
}.

Definition generate_final_report (clients : list client) : outcome report :=
  let total_orders := sum (fun c => total_orders (stats (state c))) clients in
  let total_successful :=
    sum (fun c => successful_orders (stats (state c))) clients in
  let total_failed := sum (fun c => failed_orders (stats (state c))) clients in
  let total_production := sum (fun c => production_count (state c)) clients in
  let total_fills := sum (fun c => orders_filled (state c)) clients in
  successful ← truediv (Z.of_nat total_successful) (Z.of_nat total_orders);
  failed ← truediv (Z.of_nat total_failed) (Z.of_nat total_orders);
  mret {| report_total_orders := total_orders;
          report_successful := total_successful;
          report_successful_percent := (successful * 100)%float;
          report_failed := total_failed;
          report_failed_percent := (failed * 100)%float;
          report_productions := total_production;
          report_fills := total_fills |}.

(** [TradingClient(token, server_url)]; [connected] tells whether [connect]
    has authenticated. *)
Definition new_client (connected : bool) : client :=
  {| websocket := connected; running := false;
     state := {| orders_placed := 0; orders_filled := 0;
                 production_count := 0; is_connected := connected;
                 stats := {| total_orders := 0; successful_orders := 0;
                             failed_orders := 0; first_fills := 0;
                             order_times := [] |} |} |}.

(** *** Productions, orders in sequence, and the command line *)

Definition incr_production_count (s : ClientState) : ClientState :=
  {| orders_placed := orders_placed s; orders_filled := orders_filled s;
     production_count := production_count s + 1;
     is_connected := is_connected s; stats := stats s |}.

(** [simulate_production]: [inventory] is the [inventory] attribute of the
    client state, passed beside the client. *)
Definition simulate_production (c : client) (inventory : gmap string nat)
    (product : string) (quantity : nat) (io : option (value * float))
    : client * gmap string nat * outcome bool :=
  let '(c, response) := send_message c io in
  match response_is response "PRODUCTION_SUCCESS" with
  | Raised e => (c, inventory, Raised e)
  | Returned true =>
      let c := set_state (incr_production_count (state c)) c in
      let inventory :=
        match inventory !! product with
        | Some n => <[product := n + quantity]> inventory
        | None => <[product := quantity]> inventory
        end in
      (c, inventory, Returned true)
  | Returned false => (c, inventory, Returned false)
  end.

(** Orders placed one after the other by a phase of the simulation, whose
    loops catch and log the exception of an order and go on. *)
Definition place_orders (c : client) (ios : list (option (value * float)))
    : client :=
  foldl (fun c io => fst (place_order c io)) c ios.

(** [s.split(',')]: the pieces of [s] between its commas. *)
Fixpoint split_commas (s : string) : list string :=
  match s with
  | EmptyString => [EmptyString]
  | String a s' =>
      if String.eqb (String a EmptyString) "," then
        EmptyString :: split_commas s'
      else
        match split_commas s' with
        | piece :: pieces => String a piece :: pieces
        | [] => [String a EmptyString]
        end
  end.

(** [','.join(pieces)]. *)
Fixpoint join_commas (pieces : list string) : string :=
  match pieces with
  | [] => EmptyString
  | [piece] => piece
  | piece :: pieces' => piece +:+ "," +:+ join_commas pieces'
  end.

(** The tokens of [main]: [strip] is [str.strip]. *)
Definition parse_tokens (strip : string → string) (arg : string) : list string :=
  strip <$> split_commas arg.

(** Whether [main] goes on to connect, or logs that two tokens are needed
    and returns 1. *)
Definition enough_tokens (strip : string → string) (arg : string) : bool :=
  negb (bool_decide (length (parse_tokens strip arg) < 2)).

(** *** The listener *)

Definition incr_orders_filled (s : ClientState) : ClientState :=
  {| orders_placed := orders_placed s; orders_filled := orders_filled s + 1;
     production_count := production_count s;
     is_connected := is_connected s; stats := stats s |}.

Definition incr_first_fills (o : OrderStats) : OrderStats :=
  {| total_orders := total_orders o;
     successful_orders := successful_orders o;
     failed_orders := failed_orders o; first_fills := first_fills o + 1;
     order_times := order_times o |}.

(** [listen_for_messages]: a frame is the message that [recv] returned
    within a second, or [None] for the [asyncio.TimeoutError] after which
    the loop goes on. *)
Fixpoint listen_for_messages (c : client) (frames : list (option (gmap string value)))
    : client :=
  match frames with
  | [] => c
  | frame :: frames' =>
      if running c && websocket c then
        let c :=
          match frame with
          | Some data =>
              if is_str (get data "type") "FILL" then
                let c := set_state (incr_orders_filled (state c)) c in
                set_state (set_stats (incr_first_fills (stats (state c))) (state c)) c
              else c
          | None => c
          end in
        listen_for_messages c frames'
      else c
  end.

End Simulation.

(** ** Properties stated about the correlator *)

(** Cross-talk: a result of an accepted kind that bears the non-empty id of
    another order. *)
Definition cross_talk (expected_types : list string) (order_id : string)
    (r : gmap string value) : Prop :=
  str_in (get r "type") expected_types = true ∧
  ∃ id, get r "clOrdID" = VStr id ∧ id ≠ "" ∧ id ≠ order_id.

(** A timeout value carries the observed messages when one of its fields is
    their list. *)
Definition carries (r : gmap string value) (observed : list message) : Prop :=
  ∃ key, r !! key = Some (VList (VDict <$> observed)).

(** The three-way partition of the orders of a corrected client: an order
    that was sent is a success, or left an "Order failed" entry, or left an
    "Order timeout" entry. *)
Definition failed_orders (c : Corrected.client) : nat :=
  Corrected.count_errors "Order failed" c.

Definition inconclusive_orders (c : Corrected.client) : nat :=
  Corrected.count_errors "Order timeout" c.

Definition partitioned (c : Corrected.client) : Prop :=
  Corrected.orders_sent c
  = Corrected.orders_success c + failed_orders c + inconclusive_orders c.

(** The orders of a corrected client that are in one of the three
    classes. *)
Definition classified_orders (c : Corrected.client) : nat :=
  Corrected.orders_success c + failed_orders c + inconclusive_orders c.

(** The orders and the productions among the operations of a script, and
    the operations whose send did not raise. *)
Definition is_order (o : Corrected.op) : bool :=
  match o with
  | Corrected.SendOrder _ _ => true
  | _ => false
  end.

Definition is_production (o : Corrected.op) : bool :=
  match o with
  | Corrected.SendProduction _ _ => true
  | _ => false
  end.

Definition sent_returned (o : Corrected.op) : Prop :=
  match o with
  | Corrected.SendOrder sent _ | Corrected.SendProduction sent _ =>
      sent = Returned tt
  | Corrected.Disconnect _ => True
  end.

(** The answers of the simulation server that [place_order] cannot read: a
    JSON value that is true and is not an object, received by a client with
    a websocket. *)
Definition unreadable (io : option (value * float)) : bool :=
  match io with
  | Some (VDict _, _) => false
  | Some (response, _) => truth response
  | None => false
  end.

Definition unreadable_among (ios : list (option (value * float))) : nat :=
  length (filter (fun io => unreadable io = true) ios).

(** The amount of a fill, as the addition to the profit reads it: the
    product of the price and the quantity, converted to a [float]. *)
Definition fill_amount (data : gmap string value) : outcome float :=
  x ← mul (get_default data "fillPrice" (VInt 0))
          (get_default data "fillQty" (VInt 0));
  as_float x.

(** The profit after a fill of the given [side] and amount: the binary64 sum
    or difference. *)
Definition profit_after (side : value) (profit amount : float) : float :=
  if is_str side "SELL" then (profit + amount)%float
  else if is_str side "BUY" then (profit - amount)%float
  else profit.


(** ** Further properties stated about the clients *)

(** The accounting of the improved client: a production counted as sent is a
    success or left a "Production failed" entry; the successes and "Order
    failed" entries of the orders do not exceed the orders sent. *)
Definition improved_accounted (c : Improved.client) : Prop :=
  Improved.productions_sent c
  = Improved.productions_success c + Improved.count_errors "Production failed" c ∧
  (Improved.orders_success c + Improved.count_errors "Order failed" c
   ≤ Improved.orders_sent c)%nat.

(** Successes of a corrected client do not exceed what it sent. *)
Definition corrected_consistent (c : Corrected.client) : Prop :=
  (Corrected.orders_success c ≤ Corrected.orders_sent c)%nat ∧
  (Corrected.productions_success c ≤ Corrected.productions_sent c)%nat.

(** A rate line that is "N/A" or a percentage from 0 to 100. *)
Definition rate_in_range (r : Corrected.rate_line) : Prop :=
  match r with
  | Corrected.NotApplicable => True
  | Corrected.Percent q => (0 <= q)%Q ∧ (q <= 100)%Q
  end.

(** The profit of a demo client after one more frame: a FILL whose amount is
    defined moves it by that amount, according to its side; any other frame
    leaves it. *)
Definition profit_after_frame (profit : float) (data : gmap string value)
    : float :=
  if is_str (get_default data "type" (VStr "UNKNOWN")) "FILL" then
    match fill_amount data with
    | Returned amount => profit_after (get data "side") profit amount
    | Raised _ => profit
    end
  else profit.

(** A frame that the listener of the demo client handles without an
    exception: the amount of a FILL with the side SELL or BUY is defined
    (the price and the quantity are numbers whose product is in the range of
    a [float]), the order id of an ORDER_ACK is hashable, and so is the
    product of a TICKER, which [_process_ticker] uses as a key of
    [market_data]. *)
Definition handled (data : gmap string value) : Prop :=
  let msg_type := get_default data "type" (VStr "UNKNOWN") in
  (is_str msg_type "FILL" = true →
   is_str (get data "side") "SELL" || is_str (get data "side") "BUY" = true →
   ∃ amount, fill_amount data = Returned amount) ∧
  (is_str msg_type "ORDER_ACK" = true →
   match get data "clOrdID" with VList _ | VDict _ => False | _ => True end) ∧
  (is_str msg_type "TICKER" = true →
   match get data "product" with VList _ | VDict _ => False | _ => True end).

(** A balance that [connect] leaves in both attributes and whose change the
    summary can compute: a number. *)
Definition is_number (v : value) : bool :=
  match v with
  | VInt _ | VFloat _ | VBool _ => true
  | _ => false
  end.

(** [y] counts no more profit than [x]. *)
Definition no_more_profit (y x : Demo.performance) : Prop :=
  (Demo.perf_total_profit y <=? Demo.perf_total_profit x)%float = true.

(** A float, in the form in which its order is specified, that is a
    number. *)
Definition not_nan (x : spec_float) : Prop :=
  match x with
  | S754_nan => False
  | _ => True
  end.

(** A ranking of the final report: [top] holds the first three of [l], or
    all when there are fewer, in descending order, and no entry left out
    counts more than an entry of [top]; [no_more y x] tells that [y] counts
    no more than [x]. *)
Definition ranks_first {A : Type} (no_more : A → A → Prop) (top l : list A)
    : Prop :=
  length top = Nat.min 3 (length l) ∧
  ∃ rest, top ++ rest ≡ₚ l ∧
          StronglySorted (fun x y => no_more y x) top ∧
          ∀ x y, x ∈ top → y ∈ rest → no_more y x.

(** The FILL messages among the frames of a listener. *)
Definition is_fill_frame (frame : option (gmap string value)) : bool :=
  match frame with
  | Some data => is_str (get data "type") "FILL"
  | None => false
  end.

Definition fills_among (frames : list (option (gmap string value))) : nat :=
  length (filter (fun frame => is_fill_frame frame = true) frames).

(** ** Messages and clients used in the examples *)

Module Examples.

Definition ack (order_id : string) : message :=
  {[ "type" := VStr "ORDER_ACK"; "clOrdID" := VStr order_id;
     "status" := VStr "PENDING" ]}.

Definition error : message :=
  {[ "type" := VStr "ERROR"; "message" := VStr "Invalid order" ]}.

Definition pong : message := {[ "type" := VStr "PONG" ]}.

Definition ticker : message :=
  {[ "type" := VStr "TICKER"; "product" := VStr "FOSFO" ]}.

Definition inventory_update : message :=
  {[ "type" := VStr "INVENTORY_UPDATE"; "inventory" := VDict ∅ ]}.

(** [FILL{clOrdID="A", fillPrice=10.0, fillQty=1}]. *)
Definition fill : message :=
  {[ "type" := VStr "FILL"; "clOrdID" := VStr "A";
     "fillPrice" := VFloat 10%float; "fillQty" := VInt 1 ]}.

(** The same fill with the side of the order it answers. *)
Definition fill_buy : message := <["side" := VStr "BUY"]> fill.

(** A market BUY of one FOSFO with generated id "A", sent by a demo client. *)
Definition buy_A : Demo.op :=
  Demo.SendOrder "A" "BUY" "FOSFO" 1 None "MARKET" (Returned tt).

(** The demo client after [buy_A], and after the listener then read one or
    two messages. *)
Definition demo_sent : Demo.client :=
  Demo.run (Demo.new_client true) [buy_A].

Definition demo_acked_twice : Demo.client :=
  Demo.run demo_sent [Demo.Receive (ack "A"); Demo.Receive (ack "A")].

Definition demo_filled : Demo.client :=
  Demo.step demo_sent (Demo.Receive fill).

Definition demo_filled_buy : Demo.client :=
  Demo.step demo_sent (Demo.Receive fill_buy).

(** A fill of a SELL of 3 at 0.25, and a demo client whose listener
    runs. *)
Definition fill_sell_3_at_quarter : message :=
  {[ "type" := VStr "FILL"; "side" := VStr "SELL";
     "fillPrice" := VFloat 0.25%float; "fillQty" := VInt 3 ]}.

Definition demo_listening : Demo.client :=
  {| Demo.websocket := true; Demo.running := true;
     Demo.stats := Demo.stats demo_sent;
     Demo.balance := Demo.balance demo_sent;
     Demo.initial_balance := Demo.initial_balance demo_sent;
     Demo.pending_orders := Demo.pending_orders demo_sent;
     Demo.message_queue := [] |}.

(** The answer to a login that gives the balance as a string, and the one
    that gives it as a number. *)
Definition login_ok_text : message :=
  {[ "type" := VStr "LOGIN_OK"; "currentBalance" := VStr "1000.00" ]}.

Definition login_ok : message :=
  {[ "type" := VStr "LOGIN_OK"; "currentBalance" := VInt 1000 ]}.



(** A client of the simulation during a phase. *)
Definition simulation_running : Simulation.client :=
  Simulation.set_running true (Simulation.new_client true).

Definition order_kinds : list string := ["ORDER_ACK"; "FILL"; "ERROR"].

End Examples.

(** ** The loop, one turn at a time *)

Lemma improved_wait_loop_deadline expected_types order_id timeout elapsed inbox received :
  (timeout <= elapsed)%Z →
  Improved.wait_loop expected_types order_id timeout elapsed inbox received
  = Improved.timeout_result received.
Proof.
  intros Hle. destruct inbox as [|[m dt|] inbox]; cbn [Improved.wait_loop];
    rewrite bool_decide_eq_false_2 by lia; reflexivity.
Qed.

Lemma improved_wait_loop_got expected_types order_id timeout elapsed m dt inbox received :
  (elapsed < timeout)%Z →
  Improved.wait_loop expected_types order_id timeout elapsed (Got m dt :: inbox) received
  = if Improved.qualifies expected_types order_id m then m
    else Improved.wait_loop expected_types order_id timeout (elapsed + dt)
           inbox (received ++ [m]).
Proof.
  intros Hlt. cbn [Improved.wait_loop]. rewrite bool_decide_eq_true_2 by lia.
  unfold Improved.qualifies.
  destruct (str_in (get m "type") expected_types).
  - destruct (truthy order_id); [|reflexivity].
    destruct (eq_opt_str (get m "clOrdID") order_id); reflexivity.
  - destruct (is_str (get m "type") "ERROR"); [reflexivity|].
    destruct (str_in (get m "type") ["TICKER"; "INVENTORY_UPDATE"]); [reflexivity|].
    destruct (bool_decide (expected_types = [])); reflexivity.
Qed.

Lemma improved_wait_loop_empty expected_types order_id timeout elapsed inbox received :
  (elapsed < timeout)%Z →
  Improved.wait_loop expected_types order_id timeout elapsed (Empty :: inbox) received
  = Improved.wait_loop expected_types order_id timeout (elapsed + 1000) inbox received.
Proof.
  intros Hlt. cbn [Improved.wait_loop]. rewrite bool_decide_eq_true_2 by lia.
  reflexivity.
Qed.

Lemma corrected_wait_loop_got expected_types timeout elapsed m dt inbox :
  (elapsed < timeout)%Z →
  Corrected.wait_loop expected_types timeout elapsed (Got (VDict m) dt :: inbox)
  = if Corrected.qualifies expected_types m then Returned m
    else Corrected.wait_loop expected_types timeout (elapsed + dt) inbox.
Proof.
  intros Hlt. cbn [Corrected.wait_loop]. rewrite bool_decide_eq_true_2 by lia.
  unfold Corrected.qualifies.
  destruct (str_in (get m "type") expected_types); [reflexivity|].
  destruct (is_str (get m "type") "ERROR"); [reflexivity|].
  destruct (str_in (get m "type") ["TICKER"; "INVENTORY_UPDATE"]); reflexivity.
Qed.

(** A popped frame that is not an object ends the wait of the corrected
    client in [AttributeError]. *)
Lemma corrected_wait_loop_not_object expected_types timeout elapsed frame dt inbox :
  (elapsed < timeout)%Z →
  (∀ m, frame ≠ VDict m) →
  Corrected.wait_loop expected_types timeout elapsed (Got frame dt :: inbox)
  = Raised AttributeError.
Proof.
  intros Hlt Hframe. cbn [Corrected.wait_loop].
  rewrite bool_decide_eq_true_2 by lia.
  destruct frame as [| | | | | |m]; try reflexivity. by destruct (Hframe m).
Qed.

Lemma object_or_not (frame : value) :
  (∃ m, frame = VDict m) ∨ (∀ m, frame ≠ VDict m).
Proof. destruct frame; eauto; right; discriminate. Qed.

Lemma popped_deadline {A : Type} timeout elapsed (inbox : list (polled A)) :
  (timeout <= elapsed)%Z → popped timeout elapsed inbox = [].
Proof.
  intros Hle. destruct inbox as [|[m dt|] inbox]; cbn [popped];
    rewrite bool_decide_eq_false_2 by lia; reflexivity.
Qed.

(** A result of the improved loop is a popped message that qualifies, or the
    timeout value. *)
Lemma improved_wait_loop_result expected_types order_id timeout inbox :
  ∀ elapsed received,
    let r := Improved.wait_loop expected_types order_id timeout elapsed inbox received in
    (∃ obs, r = Improved.timeout_result obs) ∨
    Improved.qualifies expected_types order_id r = true.
Proof.
  induction inbox as [|[m dt|] inbox IH]; intros elapsed received r; subst r.
  - left. cbn [Improved.wait_loop]. case_bool_decide; eauto.
  - destruct (decide (elapsed < timeout)%Z) as [Hlt|Hge].
    + rewrite improved_wait_loop_got by done.
      destruct (Improved.qualifies expected_types order_id m) eqn:Hq; [by right|].
      apply IH.
    + left. rewrite improved_wait_loop_deadline by lia. eauto.
  - destruct (decide (elapsed < timeout)%Z) as [Hlt|Hge].
    + rewrite improved_wait_loop_empty by done. apply IH.
    + left. rewrite improved_wait_loop_deadline by lia. eauto.
Qed.

Lemma qualifies_not_cross_talk expected_types (order_id : string) r :
  order_id ≠ "" →
  Improved.qualifies expected_types (Some order_id) r = true →
  ¬ cross_talk expected_types order_id r.
Proof.
  intros Hne Hq [Hin (id & Hid & _ & Hdiff)].
  unfold Improved.qualifies in Hq. rewrite Hin in Hq.
  cbn [truthy] in Hq. rewrite bool_decide_eq_true_2 in Hq by done.
  cbn [eq_opt_str] in Hq. rewrite Hid in Hq. cbn [is_str] in Hq.
  apply bool_decide_eq_true_1 in Hq. done.
Qed.

Lemma timeout_result_not_cross_talk expected_types order_id obs :
  ¬ cross_talk expected_types order_id (Improved.timeout_result obs).
Proof. intros [_ (id & Hid & _)]. discriminate Hid. Qed.

Lemma wait_for_response_not_cross_talk expected_types (order_id : string) timeout inbox :
  order_id ≠ "" →
  ¬ cross_talk expected_types order_id
      (Improved.wait_for_response expected_types (Some order_id) timeout inbox).
Proof.
  intros Hne. unfold Improved.wait_for_response.
  destruct (improved_wait_loop_result expected_types (Some order_id) timeout inbox 0 [])
    as [[obs ->]|Hq].
  - apply timeout_result_not_cross_talk.
  - by apply qualifies_not_cross_talk.
Qed.

(** A wait returns the first qualifying message it pops before its deadline:
    the polls before it, which time out or yield messages that do not
    qualify (replies to other orders among them), are passed over. *)
Lemma improved_wait_loop_reply expected_types order_id timeout skipped :
  ∀ elapsed received m dt rest,
    Forall (fun p => (0 <= poll_time p)%Z ∧
                     ∀ m' dt', p = Got m' dt' →
                       Improved.qualifies expected_types order_id m' = false)
      skipped →
    (0 <= elapsed)%Z →
    (elapsed + waited skipped < timeout)%Z →
    Improved.qualifies expected_types order_id m = true →
    Improved.wait_loop expected_types order_id timeout elapsed
      (skipped ++ Got m dt :: rest) received = m.
Proof.
  induction skipped as [|p skipped IH];
    intros elapsed received m dt rest Hskip Hpos Htime Hq.
  - cbn [waited foldr] in Htime. cbn [app].
    rewrite improved_wait_loop_got by lia. by rewrite Hq.
  - apply Forall_cons in Hskip as [[Hp Hnq] Hskip].
    change (waited (p :: skipped)) with (poll_time p + waited skipped)%Z in Htime.
    assert (0 <= waited skipped)%Z as Hw.
    { clear -Hskip. induction Hskip as [|q l [Hq _] _ IHl]; [done|].
      change (waited (q :: l)) with (poll_time q + waited l)%Z. lia. }
    destruct p as [m' dt'|]; cbn [poll_time] in *; cbn [app].
    + rewrite improved_wait_loop_got by lia.
      rewrite (Hnq m' dt' eq_refl). apply IH; [done|lia|lia|done].
    + rewrite improved_wait_loop_empty by lia.
      apply IH; [done|lia|lia|done].
Qed.

(** A reply to another order does not qualify for a wait that asked for
    its own non-empty id. *)
Lemma other_reply_does_not_qualify expected_types (order_id other : string) m :
  order_id ≠ "" →
  str_in (get m "type") expected_types = true →
  get m "clOrdID" = VStr other →
  other ≠ order_id →
  Improved.qualifies expected_types (Some order_id) m = false.
Proof.
  intros Hne Hkind Hid Hother. unfold Improved.qualifies. rewrite Hkind.
  cbn [truthy]. rewrite bool_decide_eq_true_2 by done.
  cbn [eq_opt_str]. rewrite Hid. cbn [is_str].
  by apply bool_decide_eq_false_2.
Qed.

Lemma own_reply_qualifies expected_types (order_id : string) m :
  str_in (get m "type") expected_types = true →
  get m "clOrdID" = VStr order_id →
  Improved.qualifies expected_types (Some order_id) m = true.
Proof.
  intros Hkind Hid. unfold Improved.qualifies. rewrite Hkind.
  destruct (truthy (Some order_id)); [|done].
  cbn [eq_opt_str]. rewrite Hid. cbn [is_str]. by apply bool_decide_eq_true_2.
Qed.

(** C1, as the code has it: a wait for the non-empty id [order_id] never
    returns a message of an accepted kind that bears another non-empty id,
    for every inbox, and neither of two waits that share the queue of a
    session returns a response that bears the other's id, however the
    messages are dealt between them.  A reply of an accepted kind to another
    order does not qualify and is passed over.  Each of two concurrent waits
    returns the reply that bears its own id when it is the wait that pops
    it, before its deadline and after polls that it passes over, the replies
    to the other order among them. *)
Theorem correlated_wait_scoped_to_its_order :
  ∀ (expected_types : list string) (order_id : string) (timeout : Z),
    order_id ≠ "" →
    (∀ inbox,
       ¬ cross_talk expected_types order_id
           (Improved.wait_for_response expected_types (Some order_id) timeout inbox)) ∧
    (∀ (other_id : string) (ds : list (bool * poll)),
       other_id ≠ "" →
       ¬ cross_talk expected_types order_id
           (fst (Improved.concurrent_waits expected_types order_id other_id timeout ds)) ∧
       ¬ cross_talk expected_types other_id
           (snd (Improved.concurrent_waits expected_types order_id other_id timeout ds))) ∧
    (∀ m (other : string),
       str_in (get m "type") expected_types = true →
       get m "clOrdID" = VStr other →
       other ≠ order_id →
       Improved.qualifies expected_types (Some order_id) m = false) ∧
    (∀ (other_id : string) (ds : list (bool * poll)) skipped m dt rest,
       Improved.deliveries_of true ds = skipped ++ Got m dt :: rest →
       Forall (fun p => (0 <= poll_time p)%Z ∧
                        ∀ m' dt', p = Got m' dt' →
                          Improved.qualifies expected_types (Some order_id) m' = false)
         skipped →
       (waited skipped < timeout)%Z →
       str_in (get m "type") expected_types = true →
       get m "clOrdID" = VStr order_id →
       fst (Improved.concurrent_waits expected_types order_id other_id timeout ds) = m) ∧
    (∀ (first_id : string) (ds : list (bool * poll)) skipped m dt rest,
       Improved.deliveries_of false ds = skipped ++ Got m dt :: rest →
       Forall (fun p => (0 <= poll_time p)%Z ∧
                        ∀ m' dt', p = Got m' dt' →
                          Improved.qualifies expected_types (Some order_id) m' = false)
         skipped →
       (waited skipped < timeout)%Z →
       str_in (get m "type") expected_types = true →
       get m "clOrdID" = VStr order_id →
       snd (Improved.concurrent_waits expected_types first_id order_id timeout ds) = m).
Proof.
  intros expected_types order_id timeout Hne. split; [|split; [|split; [|split]]].
  - intros inbox. by apply wait_for_response_not_cross_talk.
  - intros other_id ds Hother. unfold Improved.concurrent_waits. cbn [fst snd].
    split; by apply wait_for_response_not_cross_talk.
  - intros m other. by apply other_reply_does_not_qualify.
  - intros other_id ds skipped m dt rest Hds Hskip Htime Hkind Hid.
    unfold Improved.concurrent_waits, Improved.wait_for_response. cbn [fst].
    rewrite Hds. apply improved_wait_loop_reply; [done|lia|lia|].
    by apply own_reply_qualifies.
  - intros first_id ds skipped m dt rest Hds Hskip Htime Hkind Hid.
    unfold Improved.concurrent_waits, Improved.wait_for_response. cbn [snd].
    rewrite Hds. apply improved_wait_loop_reply; [done|lia|lia|].
    by apply own_reply_qualifies.
Qed.

Lemma correlated_wait_scoped_to_its_order_witness :
  fst (Improved.concurrent_waits Examples.order_kinds "A" "B" 5000
         [(true, Got (Examples.ack "B") 10); (false, Empty);
          (true, Got (Examples.ack "A") 10)])
  = Examples.ack "A".
Proof.
  refine (proj1 (proj2 (proj2 (proj2
            (correlated_wait_scoped_to_its_order Examples.order_kinds "A" 5000%Z _))))
            "B"
            [(true, Got (Examples.ack "B") 10%Z); (false, Empty);
             (true, Got (Examples.ack "A") 10%Z)]
            [Got (Examples.ack "B") 10%Z] (Examples.ack "A") 10%Z [] _ _ _ _ _).
  - discriminate.
  - reflexivity.
  - apply Forall_singleton. split; [cbn; lia|].
    intros m' dt' [= <- _]. reflexivity.
  - cbn. lia.
  - reflexivity.
  - reflexivity.
Defined.

(** The replies to "B" and "A" arrive in that order and one wait pops both:
    the wait for "A" passes over the reply to "B" and returns its own. *)
Lemma wait_passes_over_other_reply :
  Improved.wait_for_response Examples.order_kinds (Some "A") 5000
    [Got (Examples.ack "B") 10; Got (Examples.ack "A") 10]
  = Examples.ack "A".
Proof.
  apply (improved_wait_loop_reply Examples.order_kinds (Some "A") 5000
           [Got (Examples.ack "B") 10] 0 [] (Examples.ack "A") 10 []).
  - apply Forall_singleton. split; [cbn; lia|].
    intros m' dt' [= <- _]. reflexivity.
  - lia.
  - cbn. lia.
  - reflexivity.
Qed.

(** Two orders "A" and "B" are awaited at once.  The reply to "B" arrives
    first and is handed to the wait for "A", the reply to "A" is handed to
    the wait for "B": each wait drops the other's reply, which is not put
    back, and both end in the timeout value instead of their own reply. *)
Lemma concurrent_waits_can_lose_both_replies :
  Improved.concurrent_waits Examples.order_kinds "A" "B" 5000
    [(true, Got (Examples.ack "B") 100); (false, Got (Examples.ack "A") 100)]
  = (Improved.timeout_result [Examples.ack "B"],
     Improved.timeout_result [Examples.ack "A"]) ∧
  fst (Improved.concurrent_waits Examples.order_kinds "A" "B" 5000
         [(true, Got (Examples.ack "B") 100); (false, Got (Examples.ack "A") 100)])
  ≠ Examples.ack "A" ∧
  snd (Improved.concurrent_waits Examples.order_kinds "A" "B" 5000
         [(true, Got (Examples.ack "B") 100); (false, Got (Examples.ack "A") 100)])
  ≠ Examples.ack "B".
Proof.
  split; [reflexivity|].
  split; intros H; apply (f_equal (fun r => get r "type")) in H; discriminate H.
Qed.

(** ** Timeouts *)

Lemma improved_wait_loop_timeout expected_types order_id timeout inbox :
  ∀ elapsed received,
    (∀ m, m ∈ popped timeout elapsed inbox →
          Improved.qualifies expected_types order_id m = false) →
    Improved.wait_loop expected_types order_id timeout elapsed inbox received
    = Improved.timeout_result (received ++ popped timeout elapsed inbox).
Proof.
  induction inbox as [|[m dt|] inbox IH]; intros elapsed received Hnone.
  - cbn [Improved.wait_loop popped]. case_bool_decide; by rewrite app_nil_r.
  - destruct (decide (elapsed < timeout)%Z) as [Hlt|Hge].
    + rewrite improved_wait_loop_got by done.
      revert Hnone. cbn [popped]. rewrite bool_decide_eq_true_2 by done.
      intros Hnone. rewrite Hnone by apply list_elem_of_here.
      rewrite IH, <- app_assoc; [done|].
      intros m' Hin. apply Hnone. by apply list_elem_of_further.
    + rewrite improved_wait_loop_deadline, popped_deadline by lia.
      by rewrite app_nil_r.
  - destruct (decide (elapsed < timeout)%Z) as [Hlt|Hge].
    + rewrite improved_wait_loop_empty by done.
      revert Hnone. cbn [popped]. rewrite bool_decide_eq_true_2 by done.
      apply IH.
    + rewrite improved_wait_loop_deadline, popped_deadline by lia.
      by rewrite app_nil_r.
Qed.

Lemma passed_over_object expected_types frame :
  Corrected.passed_over expected_types frame = true ↔
  ∃ m, frame = VDict m ∧ Corrected.qualifies expected_types m = false.
Proof.
  unfold Corrected.passed_over. split.
  - destruct frame as [| | | | | |m]; try discriminate.
    intros Hq%negb_true_iff. eauto.
  - intros (m & -> & ->). reflexivity.
Qed.

Lemma corrected_wait_loop_deadline expected_types timeout elapsed inbox :
  (timeout <= elapsed)%Z →
  Corrected.wait_loop expected_types timeout elapsed inbox
  = Returned Corrected.timeout_result.
Proof.
  intros Hle. destruct inbox as [|[m dt|] inbox]; cbn [Corrected.wait_loop];
    rewrite bool_decide_eq_false_2 by lia; reflexivity.
Qed.

Lemma corrected_wait_loop_empty expected_types timeout elapsed inbox :
  (elapsed < timeout)%Z →
  Corrected.wait_loop expected_types timeout elapsed (Empty :: inbox)
  = Corrected.wait_loop expected_types timeout (elapsed + 1000) inbox.
Proof.
  intros Hlt. cbn [Corrected.wait_loop]. rewrite bool_decide_eq_true_2 by lia.
  reflexivity.
Qed.

Lemma corrected_wait_loop_timeout expected_types timeout inbox :
  ∀ elapsed,
    (∀ frame, frame ∈ popped timeout elapsed inbox →
              Corrected.passed_over expected_types frame = true) →
    Corrected.wait_loop expected_types timeout elapsed inbox
    = Returned Corrected.timeout_result.
Proof.
  induction inbox as [|[frame dt|] inbox IH]; intros elapsed Hnone.
  - cbn [Corrected.wait_loop]. by case_bool_decide.
  - destruct (decide (elapsed < timeout)%Z) as [Hlt|Hge].
    + revert Hnone. cbn [popped]. rewrite bool_decide_eq_true_2 by done.
      intros Hnone.
      destruct (proj1 (passed_over_object expected_types frame)
                  (Hnone frame (list_elem_of_here _ _))) as (m & -> & Hq).
      rewrite corrected_wait_loop_got, Hq by done.
      apply IH. intros frame' Hin. apply Hnone. by apply list_elem_of_further.
    + by apply corrected_wait_loop_deadline; lia.
  - destruct (decide (elapsed < timeout)%Z) as [Hlt|Hge].
    + rewrite corrected_wait_loop_empty by done. revert Hnone. cbn [popped].
      rewrite bool_decide_eq_true_2 by done. apply IH.
    + by apply corrected_wait_loop_deadline; lia.
Qed.

(** C2, as the code has it: when no message popped before the deadline
    qualifies, the improved client's wait returns the TIMEOUT value whose
    [received] field lists exactly the popped messages, in order (the empty
    list when none was popped); the corrected client's wait, when every frame
    popped before the deadline is an object that does not qualify, returns
    its TIMEOUT value, which has no [received] field. *)
Theorem timeout_result_of_wait :
  (∀ expected_types order_id timeout inbox,
     (∀ m, m ∈ popped timeout 0 inbox →
           Improved.qualifies expected_types order_id m = false) →
     let r := Improved.wait_for_response expected_types order_id timeout inbox in
     get r "type" = VStr "TIMEOUT" ∧
     r !! "received" = Some (VList (VDict <$> popped timeout 0 inbox)) ∧
     (popped timeout 0 inbox = [] → r !! "received" = Some (VList []))) ∧
  (∀ expected_types timeout inbox,
     (∀ frame, frame ∈ popped timeout 0 inbox →
               ∃ m, frame = VDict m ∧ Corrected.qualifies expected_types m = false) →
     ∃ r, Corrected.wait_for_response expected_types timeout inbox = Returned r ∧
          get r "type" = VStr "TIMEOUT" ∧ r !! "received" = None).
Proof.
  split.
  - intros expected_types order_id timeout inbox Hnone r. subst r.
    unfold Improved.wait_for_response.
    rewrite improved_wait_loop_timeout by done. cbn [app].
    split; [reflexivity|]. split; [reflexivity|].
    intros ->. reflexivity.
  - intros expected_types timeout inbox Hnone.
    unfold Corrected.wait_for_response.
    rewrite corrected_wait_loop_timeout.
    + eexists. split; [reflexivity|]. split; reflexivity.
    + intros frame Hin. apply passed_over_object. by apply Hnone.
Qed.

Lemma timeout_result_of_wait_witness :
  Improved.wait_for_response ["ORDER_ACK"] None 5000
    [Got Examples.ticker 10; Empty] !! "received"
  = Some (VList [VDict Examples.ticker]).
Proof.
  apply (proj1 timeout_result_of_wait ["ORDER_ACK"] None 5000%Z
           [Got Examples.ticker 10; Empty]).
  intros m Hin. vm_compute in Hin.
  apply list_elem_of_singleton in Hin. subst m. reflexivity.
Defined.

(** The corrected client's wait sees a ticker and no qualifying message; its
    TIMEOUT value does not carry the ticker. *)
Lemma corrected_timeout_drops_observed :
  Corrected.qualifies ["ORDER_ACK"] Examples.ticker = false ∧
  popped 5000 0 [Got (VDict Examples.ticker) 10] = [VDict Examples.ticker] ∧
  Corrected.wait_for_response ["ORDER_ACK"] 5000 [Got (VDict Examples.ticker) 10]
  = Returned Corrected.timeout_result ∧
  get Corrected.timeout_result "type" = VStr "TIMEOUT" ∧
  ¬ carries Corrected.timeout_result [Examples.ticker].
Proof.
  split; [reflexivity|]. split; [reflexivity|]. split; [reflexivity|].
  split; [reflexivity|].
  - intros [key Hkey].
    change (Corrected.timeout_result !! key = Some (VList [VDict Examples.ticker])) in Hkey.
    unfold Corrected.timeout_result in Hkey.
    destruct (decide (key = "type")) as [->|]; [discriminate Hkey|].
    destruct (decide (key = "message")) as [->|]; [discriminate Hkey|].
    rewrite lookup_insert_ne, lookup_singleton_ne in Hkey by done.
    discriminate Hkey.
Qed.

(** ** Errors and unexpected kinds *)

(** C3, as the code has it: a popped ERROR is returned at once by the
    corrected client's wait, and by the improved client's wait unless ERROR is
    an accepted kind, a non-empty id was requested and the message does not
    bear that id; it is then skipped as the reply to another order. *)
Theorem error_returned_unless_scoped :
  (∀ expected_types timeout elapsed m dt inbox,
     (elapsed < timeout)%Z →
     is_str (get m "type") "ERROR" = true →
     Corrected.wait_loop expected_types timeout elapsed (Got (VDict m) dt :: inbox)
     = Returned m) ∧
  (∀ expected_types order_id timeout elapsed m dt inbox received,
     (elapsed < timeout)%Z →
     is_str (get m "type") "ERROR" = true →
     Improved.wait_loop expected_types order_id timeout elapsed
       (Got m dt :: inbox) received
     = if bool_decide ("ERROR" ∈ expected_types) && truthy order_id
          && negb (eq_opt_str (get m "clOrdID") order_id)
       then Improved.wait_loop expected_types order_id timeout (elapsed + dt)
              inbox (received ++ [m])
       else m).
Proof.
  split.
  - intros expected_types timeout elapsed m dt inbox Hlt Herr.
    rewrite corrected_wait_loop_got by done. unfold Corrected.qualifies.
    rewrite Herr. by destruct (str_in _ _).
  - intros expected_types order_id timeout elapsed m dt inbox received Hlt Herr.
    rewrite improved_wait_loop_got by done. unfold Improved.qualifies.
    rewrite Herr. destruct (get m "type") as [| | | |s| |] eqn:Ht; try discriminate Herr.
    cbn [is_str] in Herr. apply bool_decide_eq_true_1 in Herr. subst s.
    cbn [str_in]. destruct (bool_decide ("ERROR" ∈ expected_types)); [|done].
    destruct (truthy order_id); [|done].
    by destruct (eq_opt_str (get m "clOrdID") order_id).
Qed.

Lemma error_returned_unless_scoped_witness :
  Improved.wait_loop ["ORDER_ACK"] (Some "A") 5000 0
    [Got Examples.error 10] [] = Examples.error.
Proof.
  apply (proj2 error_returned_unless_scoped ["ORDER_ACK"] (Some "A")
           5000%Z 0%Z Examples.error 10%Z [] []).
  - lia.
  - reflexivity.
Defined.

(** The wait of [send_order] pops an ERROR that bears no order id: it is not
    returned, the wait ends in the timeout value. *)
Lemma improved_error_skipped :
  is_str (get Examples.error "type") "ERROR" = true ∧
  Improved.wait_for_response Examples.order_kinds (Some "A") 5000
    [Got Examples.error 10] ≠ Examples.error ∧
  Improved.wait_for_response Examples.order_kinds (Some "A") 5000
    [Got Examples.error 10] = Improved.timeout_result [Examples.error].
Proof.
  split; [reflexivity|]. split; [|reflexivity].
  intros H. apply (f_equal (fun r => get r "type")) in H. discriminate H.
Qed.

(** C4, as the code has it: a popped message whose kind is neither accepted,
    nor ERROR, nor TICKER or INVENTORY_UPDATE is returned by the corrected
    client's wait; the improved client's wait returns it only when no kind
    was asked for, and otherwise records it and goes on waiting. *)
Theorem unexpected_kind_returned_or_recorded :
  (∀ expected_types timeout elapsed m dt inbox,
     (elapsed < timeout)%Z →
     str_in (get m "type") expected_types = false →
     is_str (get m "type") "ERROR" = false →
     str_in (get m "type") ["TICKER"; "INVENTORY_UPDATE"] = false →
     Corrected.wait_loop expected_types timeout elapsed (Got (VDict m) dt :: inbox)
     = Returned m) ∧
  (∀ expected_types order_id timeout elapsed m dt inbox received,
     (elapsed < timeout)%Z →
     str_in (get m "type") expected_types = false →
     is_str (get m "type") "ERROR" = false →
     str_in (get m "type") ["TICKER"; "INVENTORY_UPDATE"] = false →
     Improved.wait_loop expected_types order_id timeout elapsed
       (Got m dt :: inbox) received
     = match expected_types with
       | [] => m
       | _ :: _ =>
           Improved.wait_loop expected_types order_id timeout (elapsed + dt)
             inbox (received ++ [m])
       end).
Proof.
  split.
  - intros expected_types timeout elapsed m dt inbox Hlt Hexp Herr Hbg.
    rewrite corrected_wait_loop_got by done. unfold Corrected.qualifies.
    by rewrite Hexp, Herr, Hbg.
  - intros expected_types order_id timeout elapsed m dt inbox received
      Hlt Hexp Herr Hbg.
    rewrite improved_wait_loop_got by done. unfold Improved.qualifies.
    rewrite Hexp, Herr, Hbg. by destruct expected_types.
Qed.

Lemma unexpected_kind_returned_or_recorded_witness :
  Corrected.wait_loop ["ORDER_ACK"] 5000 0 [Got (VDict Examples.pong) 10]
  = Returned Examples.pong.
Proof.
  apply (proj1 unexpected_kind_returned_or_recorded ["ORDER_ACK"]
           5000%Z 0%Z Examples.pong 10%Z []).
  - lia.
  - reflexivity.
  - reflexivity.
  - reflexivity.
Defined.

(** The improved client's wait for an ORDER_ACK pops a PONG: it is not
    returned, the wait ends in the timeout value. *)
Lemma improved_unexpected_not_returned :
  str_in (get Examples.pong "type") ["ORDER_ACK"] = false ∧
  is_str (get Examples.pong "type") "ERROR" = false ∧
  str_in (get Examples.pong "type") ["TICKER"; "INVENTORY_UPDATE"] = false ∧
  Improved.wait_for_response ["ORDER_ACK"] None 5000 [Got Examples.pong 10]
  ≠ Examples.pong.
Proof.
  repeat (split; [reflexivity|]).
  intros H. apply (f_equal (fun r => get r "type")) in H. discriminate H.
Qed.

(** ** Order accounting *)

Lemma count_errors_append what what' response (c : Corrected.client) :
  Corrected.count_errors what (Corrected.errors_append what' response c)
  = Corrected.count_errors what c + (if decide (what' = what) then 1 else 0).
Proof.
  unfold Corrected.count_errors, Corrected.errors_append.
  cbn [Corrected.errors]. rewrite filter_app, length_app.
  rewrite filter_cons, filter_nil. cbn [fst].
  destruct (decide (what' = what)); reflexivity.
Qed.

Ltac corrected_counters :=
  cbn [fst]; rewrite ?count_errors_append;
  unfold Corrected.count_errors in *;
  cbn [Corrected.orders_sent Corrected.orders_success Corrected.productions_sent
       Corrected.productions_success Corrected.errors Corrected.incr_orders_sent
       Corrected.incr_orders_success Corrected.incr_productions_sent
       Corrected.incr_productions_success Corrected.errors_append
       Corrected.set_running] in *;
  repeat case_decide; try done; try lia.

Lemma send_order_partitioned c sent inbox :
  Corrected.order_answered (Corrected.SendOrder sent inbox) →
  partitioned c → partitioned (fst (Corrected.send_order c sent inbox)).
Proof.
  unfold partitioned, failed_orders, inconclusive_orders, Corrected.send_order.
  intros [response ->] Hc.
  destruct (if Corrected.websocket c then sent else Returned tt); [|exact Hc].
  destruct (str_in _ ["ORDER_ACK"; "FILL"]); [|destruct (is_str _ "ERROR")];
    corrected_counters.
Qed.

(** An order whose wait raises is counted as sent and is in none of the
    three classes. *)
Lemma send_order_unanswered c sent inbox e :
  (if Corrected.websocket c then sent else Returned tt) = Returned tt →
  Corrected.wait_for_response ["ORDER_ACK"; "FILL"; "ERROR"] 5000 inbox = Raised e →
  Corrected.send_order c sent inbox = (Corrected.incr_orders_sent c, Raised e).
Proof.
  intros Hsent Hwait. unfold Corrected.send_order. by rewrite Hsent, Hwait.
Qed.

Lemma send_production_partitioned c sent inbox :
  partitioned c → partitioned (fst (Corrected.send_production c sent inbox)).
Proof.
  unfold partitioned, failed_orders, inconclusive_orders, Corrected.send_production.
  intros Hc.
  destruct (if Corrected.websocket c then sent else Returned tt); [|exact Hc].
  destruct (Corrected.wait_for_response _ _ _) as [response|e]; [|exact Hc].
  destruct (str_in _ _); [|destruct (is_str _ "ERROR"); [|destruct (is_str _ "TIMEOUT")]];
    corrected_counters.
Qed.

Lemma disconnect_partitioned c closed :
  partitioned c → partitioned (fst (Corrected.disconnect c closed)).
Proof.
  unfold partitioned, failed_orders, inconclusive_orders, Corrected.disconnect.
  intros Hc. cbn [Corrected.set_running Corrected.websocket].
  destruct (Corrected.websocket c); [destruct closed|]; exact Hc.
Qed.

Lemma step_partitioned c o :
  Corrected.order_answered o → partitioned c → partitioned (Corrected.step c o).
Proof.
  destruct o; cbn [Corrected.step];
    auto using send_order_partitioned, send_production_partitioned,
      disconnect_partitioned.
Qed.

(** C5, as the code has it: in the corrected client the partition of the
    sent orders into successes, "Order failed" entries and "Order timeout"
    entries is kept by every production and disconnect and by every order
    whose wait returns, so it holds at report time of every session that
    started with it and in which the wait of each order read objects
    only. *)
Theorem orders_partition_corrected_client :
  ∀ (c : Corrected.client) (ops : list Corrected.op),
    Forall Corrected.order_answered ops →
    partitioned c → partitioned (Corrected.run c ops).
Proof.
  intros c ops Hops. revert c. unfold Corrected.run.
  induction Hops as [|o ops Ho _ IH]; intros c Hc; [exact Hc|].
  cbn [foldl]. apply IH. by apply step_partitioned.
Qed.

Lemma orders_partition_corrected_client_witness :
  partitioned
    (Corrected.run (Corrected.new_client true)
       [Corrected.SendOrder (Returned tt) [Got (VDict (Examples.ack "A")) 10];
        Corrected.SendOrder (Returned tt) [Got (VDict Examples.error) 10];
        Corrected.SendOrder (Returned tt) [];
        Corrected.SendProduction (Returned tt) [Got (VInt 7) 10]]).
Proof.
  apply (orders_partition_corrected_client (Corrected.new_client true)).
  - repeat (apply Forall_cons; split; [cbn; eauto|]). apply Forall_nil. exact I.
  - reflexivity.
Defined.

(** A demo client sends one order and the listener reads two acknowledgements
    of it: two successes for one order sent, which no count of failed and
    inconclusive orders can balance. *)
Lemma demo_orders_not_partitioned :
  Demo.orders_sent (Demo.stats Examples.demo_acked_twice) = 1 ∧
  Demo.orders_successful (Demo.stats Examples.demo_acked_twice) = 2 ∧
  ¬ ∃ failed inconclusive : nat,
      Demo.orders_sent (Demo.stats Examples.demo_acked_twice)
      = Demo.orders_successful (Demo.stats Examples.demo_acked_twice)
        + failed + inconclusive.
Proof.
  split; [reflexivity|]. split; [reflexivity|].
  intros (failed & inconclusive & H).
  change (1 = 2 + failed + inconclusive) in H. lia.
Qed.

(** ** Fills and profit *)

Lemma process_fill_amount s data amount :
  fill_amount data = Returned amount →
  Demo._process_fill s data
  = (Demo.set_total_profit
       (profit_after (get data "side") (Demo.total_profit s) amount)
       (Demo.incr_orders_filled s),
     Returned tt).
Proof.
  unfold fill_amount, Demo._process_fill, float_add, float_sub, profit_after.
  destruct (mul _ _) as [x|e]; [|discriminate]. cbn. intros ->. cbn.
  destruct (is_str (get data "side") "SELL"); [reflexivity|].
  destruct (is_str (get data "side") "BUY"); [reflexivity|].
  by destruct s.
Qed.

(** C6, as the code has it: [_process_fill] of the demo client reads the side
    from the FILL itself.  The amount of the fill is the product of its price
    and its quantity as a binary64 float: [price * float(qty)], rounded, for
    a [float] price and an [int] quantity, and the exact product of two
    [int], converted.  A SELL fill replaces the profit by the rounded sum of
    the profit and the amount, a BUY fill by the rounded difference, and a
    fill with any other or no side leaves it as it is, while [orders_filled]
    grows by one and [orders_successful] stays.  The fill of the scenario
    with side BUY replaces the profit [p] by the float [p - 10.0], which is
    [-10.0] for the new client.  In the corrected client a FILL (or
    ORDER_ACK) answering [send_order] raises [orders_success] by one. *)
Theorem fill_moves_profit_by_side :
  (∀ s data amount,
     fill_amount data = Returned amount →
     let s' := fst (Demo._process_fill s data) in
     snd (Demo._process_fill s data) = Returned tt ∧
     Demo.total_profit s'
     = profit_after (get data "side") (Demo.total_profit s) amount ∧
     Demo.orders_filled s' = Demo.orders_filled s + 1 ∧
     Demo.orders_successful s' = Demo.orders_successful s) ∧
  (∀ (data : message) (price : float) (qty : Z),
     data !! "fillPrice" = Some (VFloat price) →
     data !! "fillQty" = Some (VInt qty) →
     fill_amount data = (q ← float_of_int qty; mret (price * q)%float)) ∧
  (∀ (data : message) (price qty : Z),
     data !! "fillPrice" = Some (VInt price) →
     data !! "fillQty" = Some (VInt qty) →
     fill_amount data = float_of_int (price * qty)) ∧
  (∀ c,
     let c' := fst (Demo.message_listener_body c Examples.fill_buy) in
     Demo.total_profit (Demo.stats c')
     = (Demo.total_profit (Demo.stats c) - 10)%float ∧
     Demo.orders_filled (Demo.stats c') = Demo.orders_filled (Demo.stats c) + 1 ∧
     Demo.orders_successful (Demo.stats c')
     = Demo.orders_successful (Demo.stats c)) ∧
  Demo.total_profit (Demo.stats Examples.demo_filled_buy) = (-10)%float ∧
  (∀ c sent inbox response,
     (if Corrected.websocket c then sent else Returned tt) = Returned tt →
     Corrected.wait_for_response Examples.order_kinds 5000 inbox
     = Returned response →
     str_in (get response "type") ["ORDER_ACK"; "FILL"] = true →
     Corrected.send_order c sent inbox
     = (Corrected.incr_orders_success (Corrected.incr_orders_sent c),
        Returned true)).
Proof.
  split; [|split; [|split; [|split; [|split]]]].
  - intros s data amount Ha s'. subst s'.
    rewrite (process_fill_amount s data amount Ha). cbn [fst snd].
    repeat split; reflexivity.
  - intros data price qty Hp Hq. unfold fill_amount, get_default.
    rewrite Hp, Hq. cbn. by destruct (float_of_int qty).
  - intros data price qty Hp Hq. unfold fill_amount, get_default.
    rewrite Hp, Hq. reflexivity.
  - intros c c'. subst c'. repeat split; reflexivity.
  - reflexivity.
  - intros c sent inbox response Hsent Hwait Hkind. unfold Corrected.send_order.
    unfold Examples.order_kinds in Hwait. by rewrite Hsent, Hwait, Hkind.
Qed.

Lemma fill_moves_profit_by_side_witness :
  Demo.total_profit
    (fst (Demo._process_fill (Demo.stats (Demo.new_client true))
            Examples.fill_sell_3_at_quarter))
  = profit_after (VStr "SELL") 0 0.75.
Proof.
  refine (proj1 (proj2 (proj1 fill_moves_profit_by_side
            (Demo.stats (Demo.new_client true))
            Examples.fill_sell_3_at_quarter 0.75%float _))).
  reflexivity.
Defined.

(** The scenario as written: the demo client sends the BUY order "A" and the
    listener reads [FILL{clOrdID="A", fillPrice=10.0, fillQty=1}].  The
    profit does not move and [orders_successful] does not grow; with the side
    added to the fill the profit moves and [orders_successful] still does not
    grow. *)
Lemma demo_fill_scenario :
  Demo.total_profit (Demo.stats Examples.demo_filled)
  = Demo.total_profit (Demo.stats Examples.demo_sent) ∧
  (Demo.total_profit (Demo.stats Examples.demo_filled)
   =? Demo.total_profit (Demo.stats Examples.demo_sent) - 10)%float = false ∧
  Demo.orders_successful (Demo.stats Examples.demo_filled)
  = Demo.orders_successful (Demo.stats Examples.demo_sent) ∧
  Demo.orders_successful (Demo.stats Examples.demo_filled_buy)
  = Demo.orders_successful (Demo.stats Examples.demo_sent).
Proof. repeat split; reflexivity. Qed.

(** The sum of a fill is rounded: a SELL of 3 at 0.1 moves a profit of 0.0 to
    0.30000000000000004, and a BUY of 1 at 10.0 moves a profit of 0.1 to
    -9.9000000000000004. *)
Lemma fill_amounts_are_rounded :
  profit_after (VStr "SELL") 0 (0x1.999999999999ap-4 * 3)
  = 0x1.3333333333334p-2%float ∧
  profit_after (VStr "BUY") 0x1.999999999999ap-4 10
  = (-0x1.3cccccccccccdp+3)%float.
Proof. split; reflexivity. Qed.

(** ** Rates in the reports *)

Lemma of_nat_nonzero n : 0 < n → Qeq_bool (of_nat n) 0 = false.
Proof.
  intros Hn. destruct (Qeq_bool (of_nat n) 0) eqn:E; [|reflexivity].
  apply Qeq_bool_eq in E. unfold of_nat, Qeq in E. cbn in E. lia.
Qed.

Lemma div_of_nat a b :
  0 < b → div (of_nat a) (of_nat b) = Returned (of_nat a / of_nat b)%Q.
Proof. intros Hb. unfold div. by rewrite of_nat_nonzero. Qed.

Lemma div_by_zero a : div a (of_nat 0) = Raised ZeroDivisionError.
Proof. reflexivity. Qed.

Lemma float_of_int_raises z e : float_of_int z = Raised e → e = OverflowError.
Proof. unfold float_of_int. case_match; congruence. Qed.

Lemma as_float_raises v e :
  as_float v = Raised e → e = OverflowError ∨ e = TypeError.
Proof.
  unfold as_float.
  destruct v; cbn; try (intros [= <-]; by right);
    intros ?%float_of_int_raises; by left.
Qed.

Lemma sub_raises a b e :
  sub a b = Raised e → e = OverflowError ∨ e = TypeError.
Proof.
  unfold sub.
  destruct a, b; cbn; try (intros [= <-]; by right);
    try discriminate;
    match goal with
    | |- context [as_float ?v] =>
        destruct (as_float v) eqn:Hv; cbn; [discriminate|];
        intros [= <-]; by apply as_float_raises in Hv
    | |- context [float_of_int ?z] =>
        destruct (float_of_int z) eqn:Hz; cbn; [discriminate|];
        intros [= <-]; apply float_of_int_raises in Hz; by left
    end.
Qed.

Lemma truediv_by_zero a : truediv a 0 = Raised ZeroDivisionError.
Proof. reflexivity. Qed.

Lemma truediv_raises a b e :
  b ≠ 0%Z → truediv a b = Raised e → e = OverflowError.
Proof.
  intros Hb. unfold truediv. rewrite (proj2 (Z.eqb_neq b 0) Hb).
  case_match; congruence.
Qed.

(** [generate_final_report] raises whenever no order was placed. *)
Lemma generate_final_report_no_orders clients :
  sum (fun c => Simulation.total_orders (Simulation.stats (Simulation.state c)))
    clients = 0 →
  Simulation.generate_final_report clients = Raised ZeroDivisionError.
Proof.
  intros H0. unfold Simulation.generate_final_report. rewrite H0. reflexivity.
Qed.


(** The sibling reports do not raise: [run_corrected_test] prints "N/A" for
    a total of zero, [get_performance_summary] divides by [max(1, sent)]. *)
Lemma rate_line_of_returns success sent :
  Corrected.rate_line_of success sent
  = Returned (if bool_decide (0 < sent)
              then Corrected.Percent (of_nat success / of_nat sent * 100)%Q
              else Corrected.NotApplicable).
Proof.
  unfold Corrected.rate_line_of. case_bool_decide; [|reflexivity].
  by rewrite div_of_nat.
Qed.


(** The three rates of the summary are computed without an exception; the
    summary returns when the change of the balance does. *)
Lemma get_performance_summary_rates c :
  Demo.get_performance_summary c
  = change ← sub (Demo.balance c) (Demo.initial_balance c);
    mret
      {| Demo.order_success_rate :=
           (of_nat (Demo.orders_successful (Demo.stats c))
            / of_nat (Nat.max 1 (Demo.orders_sent (Demo.stats c))))%Q;
         Demo.fill_rate :=
           (of_nat (Demo.orders_filled (Demo.stats c))
            / of_nat (Nat.max 1 (Demo.orders_successful (Demo.stats c))))%Q;
         Demo.production_success_rate :=
           (of_nat (Demo.productions_successful (Demo.stats c))
            / of_nat (Nat.max 1 (Demo.productions_sent (Demo.stats c))))%Q;
         Demo.balance_change := change |}.
Proof.
  unfold Demo.get_performance_summary. rewrite !div_of_nat by lia. reflexivity.
Qed.

Lemma get_performance_summary_no_zero_division c :
  Demo.get_performance_summary c ≠ Raised ZeroDivisionError.
Proof.
  rewrite get_performance_summary_rates.
  destruct (sub _ _) as [change|e] eqn:Hsub; cbn; [discriminate|].
  intros [= ->]. by destruct (sub_raises _ _ _ Hsub).
Qed.






(** ** What a timeout leaves in the statistics *)

(** C8, as the code has it: when the wait ends in the timeout value,
    [send_production] of the corrected client counts the production as sent
    and as nothing else (and returns [True]); [send_order] of the corrected
    client appends an "Order timeout" entry to [errors]; [send_order] of the
    improved client counts the order as sent and as nothing else;
    [send_production] of the improved client counts the production as a
    success. *)
Theorem timeout_accounting :
  (∀ c inbox,
     Corrected.wait_for_response ["PRODUCTION_OK"; "INVENTORY_UPDATE"; "ERROR"]
       3000 inbox = Returned Corrected.timeout_result →
     Corrected.send_production c (Returned tt) inbox
     = (Corrected.incr_productions_sent c, Returned true)) ∧
  (∀ c inbox,
     Corrected.wait_for_response ["ORDER_ACK"; "FILL"; "ERROR"] 5000 inbox
     = Returned Corrected.timeout_result →
     Corrected.send_order c (Returned tt) inbox
     = (Corrected.errors_append "Order timeout" Corrected.timeout_result
          (Corrected.incr_orders_sent c),
        Returned false)) ∧
  (∀ c order_id inbox obs,
     Improved.websocket c = true →
     Improved.wait_for_response ["ORDER_ACK"; "FILL"; "ERROR"] (Some order_id)
       5000 inbox = Improved.timeout_result obs →
     Improved.send_order c order_id (Returned tt) inbox
     = (Improved.incr_orders_sent c, Returned false)) ∧
  (∀ c inbox obs,
     Improved.websocket c = true →
     Improved.wait_for_response ["INVENTORY_UPDATE"; "ERROR"] None 3000 inbox
     = Improved.timeout_result obs →
     Improved.send_production c (Returned tt) inbox
     = (Improved.incr_productions_success (Improved.incr_productions_sent c),
        Returned true)).
Proof.
  repeat split.
  - intros c inbox Hwait. unfold Corrected.send_production.
    rewrite Hwait. by destruct (Corrected.websocket c).
  - intros c inbox Hwait. unfold Corrected.send_order.
    rewrite Hwait. by destruct (Corrected.websocket c).
  - intros c order_id inbox obs Hws Hwait. unfold Improved.send_order.
    rewrite Hws, Hwait. reflexivity.
  - intros c inbox obs Hws Hwait. unfold Improved.send_production.
    rewrite Hws, Hwait. reflexivity.
Qed.

Lemma timeout_accounting_witness :
  Corrected.send_production (Corrected.new_client true) (Returned tt)
    [Got (VDict Examples.ticker) 10; Empty; Empty; Empty]
  = (Corrected.incr_productions_sent (Corrected.new_client true), Returned true).
Proof.
  apply (proj1 timeout_accounting (Corrected.new_client true)
           [Got (VDict Examples.ticker) 10%Z; Empty; Empty; Empty]).
  reflexivity.
Defined.

(** A production of the improved client whose wait sees no message at all is
    counted as a success. *)
Lemma improved_production_timeout_is_success :
  Improved.wait_for_response ["INVENTORY_UPDATE"; "ERROR"] None 3000
    [Empty; Empty; Empty]
  = Improved.timeout_result [] ∧
  Improved.productions_success
    (fst (Improved.send_production (Improved.new_client true) (Returned tt)
            [Empty; Empty; Empty]))
  = Improved.productions_success (Improved.new_client true) + 1.
Proof. split; reflexivity. Qed.

(** ** Disconnecting twice *)

(** C9, as the code has it: [disconnect] clears [running] at every call.  In
    the corrected client, which catches what [websocket.close()] raises, a
    second call after a first one returns without error and leaves the client
    as the first call left it, whatever [close()] does.  In the client of
    [trading_simulation.py] an exception of [close()] is not caught: a call
    on a client with a websocket ends as [close()] ends, and sets
    [is_connected] to false only when [close()] returned.  So a second call
    leaves the client as the first call left it when the first [close()]
    returned or the second raises, and returns without error when the
    second [close()] returns. *)
Theorem disconnect_twice :
  (∀ c closed1 closed2,
     let c1 := fst (Corrected.disconnect c closed1) in
     Corrected.disconnect c1 closed2 = (c1, Returned tt) ∧
     Corrected.running c1 = false) ∧
  (∀ c closed1 closed2,
     let c1 := fst (Simulation.disconnect c closed1) in
     let c2 := fst (Simulation.disconnect c1 closed2) in
     Simulation.running c1 = false ∧
     Simulation.running c2 = false ∧
     snd (Simulation.disconnect c1 closed2)
     = (if Simulation.websocket c then closed2 else Returned tt) ∧
     (closed1 = Returned tt → c2 = c1) ∧
     (∀ e, closed2 = Raised e → c2 = c1) ∧
     (Simulation.websocket c = false → c2 = c1) ∧
     (Simulation.websocket c = true →
      (closed1 = Returned tt →
       Simulation.is_connected (Simulation.state c1) = false) ∧
      (closed2 = Returned tt →
       Simulation.is_connected (Simulation.state c2) = false) ∧
      (∀ e, closed1 = Raised e →
            Simulation.is_connected (Simulation.state c1)
            = Simulation.is_connected (Simulation.state c)))).
Proof.
  split.
  - intros [ws run sent ok psent pok errs] closed1 closed2.
    destruct ws, closed1, closed2; split; reflexivity.
  - intros [ws run st] closed1 closed2.
    destruct ws, closed1 as [[]|e1], closed2 as [[]|e2]; cbn;
      repeat split; try done; intros; simplify_eq; done.
Qed.

Lemma disconnect_twice_witness :
  Simulation.disconnect
    (fst (Simulation.disconnect Examples.simulation_running (Returned tt)))
    (Returned tt)
  = (fst (Simulation.disconnect Examples.simulation_running (Returned tt)),
     Returned tt) ∧
  Simulation.is_connected
    (Simulation.state
       (fst (Simulation.disconnect
               (fst (Simulation.disconnect Examples.simulation_running
                       (Returned tt)))
               (Returned tt))))
  = false.
Proof.
  pose proof (proj2 disconnect_twice Examples.simulation_running
                (Returned tt) (Returned tt))
    as (_ & _ & Hsnd & Hsame & _ & _ & Hws).
  split.
  - rewrite (surjective_pairing (Simulation.disconnect _ (Returned tt))) at 1.
    rewrite (Hsame eq_refl). exact (f_equal _ Hsnd).
  - apply (proj1 (proj2 (Hws eq_refl))). reflexivity.
Defined.

(** The first [close()] raises and the second returns: the first call leaves
    [is_connected] true and the second call changes it.  And when [close()]
    raises at the second call, the second call raises. *)
Lemma simulation_disconnect_repeated :
  Simulation.is_connected
    (Simulation.state
       (fst (Simulation.disconnect Examples.simulation_running
               (Raised ConnectionClosed))))
  = true ∧
  Simulation.is_connected
    (Simulation.state
       (fst (Simulation.disconnect
               (fst (Simulation.disconnect Examples.simulation_running
                       (Raised ConnectionClosed)))
               (Returned tt))))
  = false ∧
  snd (Simulation.disconnect
         (fst (Simulation.disconnect Examples.simulation_running (Returned tt)))
         (Raised ConnectionClosed))
  = Raised ConnectionClosed.
Proof. repeat split; reflexivity. Qed.

(** ** Productions of the demo client *)

Lemma process_ticker_state c data : fst (Demo._process_ticker c data) = c.
Proof. unfold Demo._process_ticker. repeat case_match; reflexivity. Qed.

Ltac ticker_branch :=
  match goal with
  | |- context [Demo._process_ticker ?c ?data] =>
      let H := fresh in
      pose proof (process_ticker_state c data) as H;
      destruct (Demo._process_ticker c data) as [? [[]|?]];
      cbn [fst] in H; subst
  end.






Lemma message_listener_body_balances c data :
  Demo.balance (fst (Demo.message_listener_body c data)) = Demo.balance c ∧
  Demo.initial_balance (fst (Demo.message_listener_body c data))
  = Demo.initial_balance c.
Proof.
  unfold Demo.message_listener_body.
  destruct (is_str _ "TICKER"); [by ticker_branch|].
  destruct (is_str _ "FILL").
  { destruct (Demo._process_fill _ data) as [s [[]|e]]; done. }
  destruct (is_str _ "OFFER"); [done|].
  destruct (is_str _ "ORDER_ACK").
  { unfold Demo._process_order_ack. repeat case_match; simplify_eq; done. }
  destruct (is_str _ "INVENTORY_UPDATE"); [done|].
  destruct (is_str _ "ERROR"); done.
Qed.

Lemma step_balances c o :
  Demo.balance (Demo.step c o) = Demo.balance c ∧
  Demo.initial_balance (Demo.step c o) = Demo.initial_balance c.
Proof.
  destruct o; cbn [Demo.step].
  - unfold Demo.send_order. cbn [Demo.set_pending_orders Demo.websocket].
    destruct (Demo.websocket c); [destruct sent|]; done.
  - unfold Demo.send_production.
    destruct (Demo.websocket c); [destruct sent|]; done.
  - apply message_listener_body_balances.
Qed.

Lemma run_balances ops :
  ∀ c, Demo.balance (Demo.run c ops) = Demo.balance c ∧
       Demo.initial_balance (Demo.run c ops) = Demo.initial_balance c.
Proof.
  unfold Demo.run. induction ops as [|o ops IH]; intros c; [done|].
  cbn [foldl]. destruct (IH (Demo.step c o)) as [-> ->]. apply step_balances.
Qed.




(** * Further properties of the code *)

(** ** The waits: what they return *)

Lemma waited_nonneg {A : Type} (P : polled A → Prop) skipped :
  Forall (fun p => (0 <= poll_time p)%Z ∧ P p) skipped → (0 <= waited skipped)%Z.
Proof.
  induction 1 as [|q l [Hq _] _ IHl]; [done|].
  change (waited (q :: l)) with (poll_time q + waited l)%Z. lia.
Qed.

Lemma corrected_wait_loop_reply expected_types timeout skipped :
  ∀ elapsed m dt rest,
    Forall (fun p => (0 <= poll_time p)%Z ∧
                     ∀ frame dt', p = Got frame dt' →
                       ∃ m', frame = VDict m' ∧
                             Corrected.qualifies expected_types m' = false)
      skipped →
    (0 <= elapsed)%Z →
    (elapsed + waited skipped < timeout)%Z →
    Corrected.qualifies expected_types m = true →
    Corrected.wait_loop expected_types timeout elapsed
      (skipped ++ Got (VDict m) dt :: rest) = Returned m.
Proof.
  induction skipped as [|p skipped IH];
    intros elapsed m dt rest Hskip Hpos Htime Hq.
  - cbn [waited foldr] in Htime. cbn [app].
    rewrite corrected_wait_loop_got by lia. by rewrite Hq.
  - pose proof Hskip as Hall. apply Forall_cons in Hskip as [[Hp Hnq] Hskip].
    change (waited (p :: skipped)) with (poll_time p + waited skipped)%Z in Htime.
    pose proof (waited_nonneg _ _ Hskip) as Hw.
    destruct p as [frame dt'|]; cbn [poll_time] in *; cbn [app].
    + destruct (Hnq frame dt' eq_refl) as (m' & -> & Hm').
      rewrite corrected_wait_loop_got by lia.
      rewrite Hm'. apply IH; [done|lia|lia|done].
    + rewrite corrected_wait_loop_empty by lia.
      apply IH; [done|lia|lia|done].
Qed.

(** X1: a wait returns the first qualifying message that it pops before its
    deadline; the polls before it, which run out of time or yield messages
    that do not qualify (objects that do not qualify, for the corrected
    client, whose queue holds the frames as they were decoded), are passed
    over. *)
Theorem wait_returns_first_qualifying :
  (∀ expected_types order_id timeout skipped m dt rest,
     Forall (fun p => (0 <= poll_time p)%Z ∧
                      ∀ m' dt', p = Got m' dt' →
                        Improved.qualifies expected_types order_id m' = false)
       skipped →
     (waited skipped < timeout)%Z →
     Improved.qualifies expected_types order_id m = true →
     Improved.wait_for_response expected_types order_id timeout
       (skipped ++ Got m dt :: rest) = m) ∧
  (∀ expected_types timeout skipped m dt rest,
     Forall (fun p => (0 <= poll_time p)%Z ∧
                      ∀ frame dt', p = Got frame dt' →
                        ∃ m', frame = VDict m' ∧
                              Corrected.qualifies expected_types m' = false)
       skipped →
     (waited skipped < timeout)%Z →
     Corrected.qualifies expected_types m = true →
     Corrected.wait_for_response expected_types timeout
       (skipped ++ Got (VDict m) dt :: rest) = Returned m).
Proof.
  split.
  - intros expected_types order_id timeout skipped m dt rest Hskip Htime Hq.
    unfold Improved.wait_for_response.
    apply improved_wait_loop_reply; [done|lia|lia|done].
  - intros expected_types timeout skipped m dt rest Hskip Htime Hq.
    unfold Corrected.wait_for_response.
    apply corrected_wait_loop_reply; [done|lia|lia|done].
Qed.

Lemma wait_returns_first_qualifying_witness :
  Corrected.wait_for_response Examples.order_kinds 5000
    ([Got (VDict Examples.ticker) 10; Empty]
     ++ Got (VDict (Examples.ack "A")) 20 :: [])
  = Returned (Examples.ack "A").
Proof.
  apply (proj2 wait_returns_first_qualifying Examples.order_kinds 5000%Z
           [Got (VDict Examples.ticker) 10%Z; Empty] (Examples.ack "A") 20%Z []).
  - apply Forall_cons. split.
    + split; [cbn; lia|]. intros frame dt' [= <- _].
      eexists. split; reflexivity.
    + apply Forall_singleton. split; [cbn; lia|]. intros frame dt' [=].
  - cbn. lia.
  - reflexivity.
Defined.

(** The result of a wait: the timeout value, when no popped message
    qualifies, or a popped message that qualifies. *)
Lemma improved_wait_loop_cases expected_types order_id timeout inbox :
  ∀ elapsed received,
    let r := Improved.wait_loop expected_types order_id timeout elapsed inbox received in
    (r = Improved.timeout_result (received ++ popped timeout elapsed inbox) ∧
     ∀ m, m ∈ popped timeout elapsed inbox →
          Improved.qualifies expected_types order_id m = false) ∨
    (r ∈ popped timeout elapsed inbox ∧
     Improved.qualifies expected_types order_id r = true).
Proof.
  induction inbox as [|[m dt|] inbox IH]; intros elapsed received r; subst r.
  - left. split; [|cbn [popped]; case_bool_decide; intros m Hm; inversion Hm].
    apply improved_wait_loop_timeout.
    cbn [popped]. case_bool_decide; intros m Hm; inversion Hm.
  - destruct (decide (elapsed < timeout)%Z) as [Hlt|Hge].
    + rewrite improved_wait_loop_got by done. cbn [popped].
      rewrite bool_decide_eq_true_2 by done.
      destruct (Improved.qualifies expected_types order_id m) eqn:Hq.
      * right. split; [apply list_elem_of_here|done].
      * destruct (IH (elapsed + dt)%Z (received ++ [m])) as [[Hr Hnone]|[Hin Hqr]].
        -- left. split; [by rewrite Hr, <- app_assoc|].
           intros m' [->|Hm']%elem_of_cons; auto.
        -- right. split; [by apply list_elem_of_further|done].
    + left. rewrite improved_wait_loop_deadline, popped_deadline by lia.
      split; [by rewrite app_nil_r|]. intros m' Hm'. inversion Hm'.
  - destruct (decide (elapsed < timeout)%Z) as [Hlt|Hge].
    + rewrite improved_wait_loop_empty by done. cbn [popped].
      rewrite bool_decide_eq_true_2 by done. apply IH.
    + left. rewrite improved_wait_loop_deadline, popped_deadline by lia.
      split; [by rewrite app_nil_r|]. intros m' Hm'. inversion Hm'.
Qed.

Lemma corrected_wait_loop_cases expected_types timeout inbox :
  ∀ elapsed,
    let r := Corrected.wait_loop expected_types timeout elapsed inbox in
    (r = Returned Corrected.timeout_result ∧
     ∀ frame, frame ∈ popped timeout elapsed inbox →
              ∃ m, frame = VDict m ∧ Corrected.qualifies expected_types m = false) ∨
    (∃ m, r = Returned m ∧ VDict m ∈ popped timeout elapsed inbox ∧
          Corrected.qualifies expected_types m = true) ∨
    (r = Raised AttributeError ∧
     ∃ frame, frame ∈ popped timeout elapsed inbox ∧ ∀ m, frame ≠ VDict m).
Proof.
  induction inbox as [|[frame dt|] inbox IH]; intros elapsed r; subst r.
  - left. split; [|cbn [popped]; case_bool_decide; intros m Hm; inversion Hm].
    cbn [Corrected.wait_loop]. by case_bool_decide.
  - destruct (decide (elapsed < timeout)%Z) as [Hlt|Hge].
    + cbn [popped]. rewrite bool_decide_eq_true_2 by done.
      destruct (object_or_not frame) as [[m ->]|Hno].
      * rewrite corrected_wait_loop_got by done.
        destruct (Corrected.qualifies expected_types m) eqn:Hq.
        -- right. left. exists m. split; [done|].
           split; [apply list_elem_of_here|done].
        -- destruct (IH (elapsed + dt)%Z)
             as [[Hr Hnone]|[(m' & Hr & Hin & Hq')|(Hr & frame & Hin & Hno)]].
           ++ left. split; [done|].
              intros frame [->|Hm']%elem_of_cons; eauto.
           ++ right. left. exists m'. split; [done|].
              split; [by apply list_elem_of_further|done].
           ++ right. right. split; [done|]. exists frame.
              split; [by apply list_elem_of_further|done].
      * right. right. split.
        -- by apply corrected_wait_loop_not_object.
        -- exists frame. split; [apply list_elem_of_here|done].
    + left. rewrite corrected_wait_loop_deadline, popped_deadline by lia.
      split; [done|]. intros m' Hm'. inversion Hm'.
  - destruct (decide (elapsed < timeout)%Z) as [Hlt|Hge].
    + rewrite corrected_wait_loop_empty by done. cbn [popped].
      rewrite bool_decide_eq_true_2 by done. apply IH.
    + left. rewrite corrected_wait_loop_deadline, popped_deadline by lia.
      split; [done|]. intros m' Hm'. inversion Hm'.
Qed.

(** X2: a wait makes up no reply.  Its result is the timeout value, and then
    no message popped before the deadline qualifies, or it is one of the
    messages popped before the deadline, and that message qualifies.  The
    wait of the corrected client, whose queue holds the frames as they were
    decoded, has a third end: [AttributeError], and then one of the frames
    popped before the deadline is not an object. *)
Theorem wait_result_is_popped_or_timeout :
  (∀ expected_types order_id timeout inbox,
     let r := Improved.wait_for_response expected_types order_id timeout inbox in
     (r = Improved.timeout_result (popped timeout 0 inbox) ∧
      ∀ m, m ∈ popped timeout 0 inbox →
           Improved.qualifies expected_types order_id m = false) ∨
     (r ∈ popped timeout 0 inbox ∧
      Improved.qualifies expected_types order_id r = true)) ∧
  (∀ expected_types timeout inbox,
     let r := Corrected.wait_for_response expected_types timeout inbox in
     (r = Returned Corrected.timeout_result ∧
      ∀ frame, frame ∈ popped timeout 0 inbox →
               ∃ m, frame = VDict m ∧ Corrected.qualifies expected_types m = false) ∨
     (∃ m, r = Returned m ∧ VDict m ∈ popped timeout 0 inbox ∧
           Corrected.qualifies expected_types m = true) ∨
     (r = Raised AttributeError ∧
      ∃ frame, frame ∈ popped timeout 0 inbox ∧ ∀ m, frame ≠ VDict m)).
Proof.
  split.
  - intros expected_types order_id timeout inbox.
    apply (improved_wait_loop_cases expected_types order_id timeout inbox 0%Z []).
  - intros expected_types timeout inbox.
    apply (corrected_wait_loop_cases expected_types timeout inbox 0%Z).
Qed.

Lemma improved_qualifies_background expected_types order_id r :
  Improved.qualifies expected_types order_id r = true →
  str_in (get r "type") ["TICKER"; "INVENTORY_UPDATE"] = true →
  str_in (get r "type") expected_types = true.
Proof.
  unfold Improved.qualifies. intros Hq Hbg.
  destruct (str_in (get r "type") expected_types); [done|].
  destruct (get r "type") as [| | | |s| |]; try discriminate Hbg.
  cbn [is_str str_in] in *.
  destruct (bool_decide (s = "ERROR")) eqn:He.
  - apply bool_decide_eq_true_1 in He. subst s. discriminate Hbg.
  - rewrite Hbg in Hq. discriminate Hq.
Qed.

Lemma corrected_qualifies_background expected_types r :
  Corrected.qualifies expected_types r = true →
  str_in (get r "type") ["TICKER"; "INVENTORY_UPDATE"] = true →
  str_in (get r "type") expected_types = true.
Proof.
  unfold Corrected.qualifies. intros Hq Hbg.
  destruct (str_in (get r "type") expected_types); [done|].
  destruct (get r "type") as [| | | |s| |]; try discriminate Hbg.
  cbn [is_str str_in] in *.
  destruct (bool_decide (s = "ERROR")) eqn:He.
  - apply bool_decide_eq_true_1 in He. subst s. discriminate Hbg.
  - rewrite Hbg in Hq. discriminate Hq.
Qed.

(** X3: a wait never returns a TICKER or INVENTORY_UPDATE message that the
    caller did not ask for: a result of one of these kinds has a kind of
    [expected_types]. *)
Theorem wait_never_returns_background :
  (∀ expected_types order_id timeout inbox,
     let r := Improved.wait_for_response expected_types order_id timeout inbox in
     str_in (get r "type") ["TICKER"; "INVENTORY_UPDATE"] = true →
     str_in (get r "type") expected_types = true) ∧
  (∀ expected_types timeout inbox r,
     Corrected.wait_for_response expected_types timeout inbox = Returned r →
     str_in (get r "type") ["TICKER"; "INVENTORY_UPDATE"] = true →
     str_in (get r "type") expected_types = true).
Proof.
  split.
  - intros expected_types order_id timeout inbox r Hbg. subst r.
    destruct (improved_wait_loop_result expected_types order_id timeout inbox 0%Z [])
      as [[obs Hr]|Hq]; unfold Improved.wait_for_response in *.
    + rewrite Hr in Hbg. discriminate Hbg.
    + by apply (improved_qualifies_background _ order_id).
  - intros expected_types timeout inbox r Hwait Hbg.
    unfold Corrected.wait_for_response in Hwait.
    destruct (corrected_wait_loop_cases expected_types timeout inbox 0%Z)
      as [[Hr _]|[(m & Hr & _ & Hq)|[Hr _]]];
      rewrite Hwait in Hr.
    + injection Hr as ->. discriminate Hbg.
    + injection Hr as ->. by apply corrected_qualifies_background.
    + discriminate Hr.
Qed.

Lemma wait_never_returns_background_witness :
  str_in (get Examples.inventory_update "type") ["INVENTORY_UPDATE"; "ERROR"]
  = true.
Proof.
  apply (proj2 wait_never_returns_background ["INVENTORY_UPDATE"; "ERROR"]
           3000%Z
           [Got (VDict Examples.ticker) 10%Z;
            Got (VDict Examples.inventory_update) 10%Z]
           Examples.inventory_update).
  - reflexivity.
  - reflexivity.
Defined.

(** ** The waits: the deadline *)

Lemma improved_longer_deadline expected_types order_id timeout timeout' inbox :
  (timeout <= timeout')%Z →
  ∀ elapsed received,
    (∀ obs, Improved.wait_loop expected_types order_id timeout elapsed inbox received
            ≠ Improved.timeout_result obs) →
    Improved.wait_loop expected_types order_id timeout' elapsed inbox received
    = Improved.wait_loop expected_types order_id timeout elapsed inbox received.
Proof.
  intros Hle. induction inbox as [|[m dt|] inbox IH]; intros elapsed received Hreply.
  - exfalso. apply (Hreply received). cbn [Improved.wait_loop]. by case_bool_decide.
  - destruct (decide (elapsed < timeout)%Z) as [Hlt|Hge].
    + revert Hreply. rewrite !improved_wait_loop_got by lia.
      destruct (Improved.qualifies expected_types order_id m); [done|]. apply IH.
    + exfalso. apply (Hreply received). by apply improved_wait_loop_deadline; lia.
  - destruct (decide (elapsed < timeout)%Z) as [Hlt|Hge].
    + revert Hreply. rewrite !improved_wait_loop_empty by lia. apply IH.
    + exfalso. apply (Hreply received). by apply improved_wait_loop_deadline; lia.
Qed.

Lemma corrected_longer_deadline expected_types timeout timeout' inbox :
  (timeout <= timeout')%Z →
  ∀ elapsed,
    Corrected.wait_loop expected_types timeout elapsed inbox
    ≠ Returned Corrected.timeout_result →
    Corrected.wait_loop expected_types timeout' elapsed inbox
    = Corrected.wait_loop expected_types timeout elapsed inbox.
Proof.
  intros Hle. induction inbox as [|[frame dt|] inbox IH]; intros elapsed Hreply.
  - exfalso. apply Hreply. cbn [Corrected.wait_loop]. by case_bool_decide.
  - destruct (decide (elapsed < timeout)%Z) as [Hlt|Hge].
    + destruct (object_or_not frame) as [[m ->]|Hno].
      * revert Hreply. rewrite !corrected_wait_loop_got by lia.
        destruct (Corrected.qualifies expected_types m); [done|]. apply IH.
      * rewrite !corrected_wait_loop_not_object; [done|lia|done|lia|done].
    + exfalso. apply Hreply. by apply corrected_wait_loop_deadline; lia.
  - destruct (decide (elapsed < timeout)%Z) as [Hlt|Hge].
    + revert Hreply. rewrite !corrected_wait_loop_empty by lia. apply IH.
    + exfalso. apply Hreply. by apply corrected_wait_loop_deadline; lia.
Qed.

(** X4: a longer deadline never changes a reply: when a wait returns a
    message and not its timeout value, the same wait with any longer deadline
    returns the same message; and when the wait of the corrected client ends
    in an exception, so does the same wait with any longer deadline. *)
Theorem longer_deadline_keeps_reply :
  (∀ expected_types order_id timeout timeout' inbox,
     (timeout <= timeout')%Z →
     (∀ obs, Improved.wait_for_response expected_types order_id timeout inbox
             ≠ Improved.timeout_result obs) →
     Improved.wait_for_response expected_types order_id timeout' inbox
     = Improved.wait_for_response expected_types order_id timeout inbox) ∧
  (∀ expected_types timeout timeout' inbox,
     (timeout <= timeout')%Z →
     Corrected.wait_for_response expected_types timeout inbox
     ≠ Returned Corrected.timeout_result →
     Corrected.wait_for_response expected_types timeout' inbox
     = Corrected.wait_for_response expected_types timeout inbox).
Proof.
  split.
  - intros expected_types order_id timeout timeout' inbox Hle Hreply.
    by apply improved_longer_deadline.
  - intros expected_types timeout timeout' inbox Hle Hreply.
    by apply corrected_longer_deadline.
Qed.

Lemma longer_deadline_keeps_reply_witness :
  Corrected.wait_for_response Examples.order_kinds 5000
    [Empty; Got (VDict (Examples.ack "A")) 10]
  = Corrected.wait_for_response Examples.order_kinds 3000
      [Empty; Got (VDict (Examples.ack "A")) 10].
Proof.
  apply (proj2 longer_deadline_keeps_reply Examples.order_kinds 3000%Z 5000%Z
           [Empty; Got (VDict (Examples.ack "A")) 10%Z]).
  - lia.
  - intros [=].
Defined.

(** ** The accounting of the improved client *)

Lemma improved_count_errors_append what what' response (c : Improved.client) :
  Improved.count_errors what (Improved.errors_append what' response c)
  = Improved.count_errors what c + (if decide (what' = what) then 1 else 0).
Proof.
  unfold Improved.count_errors, Improved.errors_append.
  cbn [Improved.errors]. rewrite filter_app, length_app.
  rewrite filter_cons, filter_nil. cbn [fst].
  destruct (decide (what' = what)); reflexivity.
Qed.

Ltac improved_counters :=
  cbn [fst]; rewrite ?improved_count_errors_append;
  unfold Improved.count_errors in *;
  cbn [Improved.orders_sent Improved.orders_success Improved.productions_sent
       Improved.productions_success Improved.errors Improved.incr_orders_sent
       Improved.incr_orders_success Improved.incr_productions_sent
       Improved.incr_productions_success Improved.errors_append
       Improved.set_running] in *;
  repeat case_decide; try done; try lia.

Lemma improved_step_accounted c o :
  improved_accounted c → improved_accounted (Improved.step c o).
Proof.
  unfold improved_accounted. intros [Hp Ho].
  destruct o as [order_id sent inbox|sent inbox|closed]; cbn [Improved.step].
  - unfold Improved.send_order.
    destruct (Improved.websocket c); [|done]. destruct sent; [|done].
    destruct (str_in _ ["ORDER_ACK"; "FILL"]); [|destruct (is_str _ "ERROR")];
      split; improved_counters.
  - unfold Improved.send_production.
    destruct (Improved.websocket c); [|done]. destruct sent; [|done].
    destruct (is_str _ "INVENTORY_UPDATE"); [|destruct (is_str _ "ERROR")];
      split; improved_counters.
  - unfold Improved.disconnect. cbn [Improved.set_running Improved.websocket].
    destruct (Improved.websocket c); [destruct closed|]; split; improved_counters.
Qed.

(** X5: the improved client keeps its accounting through every sequence of
    orders, productions and disconnects: every production counted as sent is
    counted as a success or left a "Production failed" entry in [errors] (a
    production without answer is a success), and the successful orders and
    the "Order failed" entries together never exceed the orders sent. *)
Theorem improved_client_accounting :
  ∀ (c : Improved.client) (ops : list Improved.op),
    improved_accounted c → improved_accounted (Improved.run c ops).
Proof.
  intros c ops. revert c. unfold Improved.run.
  induction ops as [|o ops IH]; intros c Hc; [exact Hc|].
  cbn [foldl]. apply IH. by apply improved_step_accounted.
Qed.

Lemma improved_client_accounting_witness :
  improved_accounted
    (Improved.run (Improved.new_client true)
       [Improved.SendProduction (Returned tt) [];
        Improved.SendProduction (Returned tt) [Got Examples.error 10];
        Improved.SendOrder "A" (Returned tt) [Got (Examples.ack "B") 10];
        Improved.SendOrder "B" (Returned tt) [Got (Examples.ack "B") 10]]).
Proof.
  apply (improved_client_accounting (Improved.new_client true)).
  split; [reflexivity|]. cbn. lia.
Defined.

(** ** The report of the corrected test *)

Lemma corrected_step_consistent c o :
  corrected_consistent c → corrected_consistent (Corrected.step c o).
Proof.
  unfold corrected_consistent. intros [Ho Hp].
  destruct o as [sent inbox|sent inbox|closed]; cbn [Corrected.step].
  - unfold Corrected.send_order.
    destruct (if Corrected.websocket c then sent else Returned tt); [|done].
    destruct (Corrected.wait_for_response _ _ _) as [response|e]; [|cbn; lia].
    destruct (str_in _ ["ORDER_ACK"; "FILL"]); [|destruct (is_str _ "ERROR")];
      cbn; lia.
  - unfold Corrected.send_production.
    destruct (if Corrected.websocket c then sent else Returned tt); [|done].
    destruct (Corrected.wait_for_response _ _ _) as [response|e]; [|cbn; lia].
    destruct (str_in _ _); [|destruct (is_str _ "ERROR"); [|destruct (is_str _ "TIMEOUT")]];
      cbn; lia.
  - unfold Corrected.disconnect. cbn [Corrected.set_running Corrected.websocket].
    destruct (Corrected.websocket c); [destruct closed|]; cbn; lia.
Qed.

Lemma corrected_run_consistent ops :
  ∀ c, corrected_consistent c → corrected_consistent (Corrected.run c ops).
Proof.
  unfold Corrected.run. induction ops as [|o ops IH]; intros c Hc; [exact Hc|].
  cbn [foldl]. apply IH. by apply corrected_step_consistent.
Qed.

Lemma sum_le {A : Type} (f g : A → nat) (l : list A) :
  Forall (fun c => (f c ≤ g c)%nat) l → (sum f l ≤ sum g l)%nat.
Proof.
  induction 1 as [|c l Hc _ IH]; [done|]. unfold sum in *. cbn [foldr]. lia.
Qed.

Lemma of_nat_le a b : (a ≤ b)%nat → (of_nat a <= of_nat b)%Q.
Proof. intros Hab. unfold of_nat, Qle. cbn. lia. Qed.

Lemma of_nat_pos b : (0 < b)%nat → (0 < of_nat b)%Q.
Proof. intros Hb. unfold of_nat, Qlt. cbn. lia. Qed.

Lemma percent_in_range a b :
  (a ≤ b)%nat → (0 < b)%nat →
  (0 <= of_nat a / of_nat b * 100)%Q ∧ (of_nat a / of_nat b * 100 <= 100)%Q.
Proof.
  intros Hab Hb. pose proof (of_nat_pos b Hb) as Hpos.
  assert (0 <= of_nat a / of_nat b)%Q as H0.
  { apply Qle_shift_div_l; [done|]. rewrite Qmult_0_l.
    apply (of_nat_le 0 a). lia. }
  assert (of_nat a / of_nat b <= 1)%Q as H1.
  { apply Qle_shift_div_r; [done|]. rewrite Qmult_1_l. by apply of_nat_le. }
  split.
  - apply Qmult_le_0_compat; [done|discriminate].
  - apply (Qle_trans _ (1 * 100)%Q); [|discriminate].
    apply Qmult_le_compat_r; [done|discriminate].
Qed.

Lemma rate_line_in_range success sent :
  (success ≤ sent)%nat →
  ∃ line, Corrected.rate_line_of success sent = Returned line ∧ rate_in_range line.
Proof.
  intros Hle. rewrite rate_line_of_returns. eexists. split; [reflexivity|].
  case_bool_decide; [|done]. cbn [rate_in_range]. by apply percent_in_range.
Qed.

(** X6: the report of [run_corrected_test] never fails and never shows a
    rate out of range: for sessions that each ran any sequence of operations
    from a new client, it returns, and its order and production success
    rates are each "N/A" or a percentage from 0 to 100. *)
Theorem corrected_report_rates_in_range :
  ∀ (sessions : list (bool * list Corrected.op)),
    let clients :=
      (fun s => Corrected.run (Corrected.new_client (fst s)) (snd s)) <$> sessions in
    ∃ r, Corrected.run_corrected_test_report clients = Returned r ∧
         rate_in_range (Corrected.order_success_rate r) ∧
         rate_in_range (Corrected.production_success_rate r).
Proof.
  intros sessions clients.
  assert (Forall corrected_consistent clients) as Hall.
  { subst clients. apply Forall_fmap, Forall_forall. intros [ws ops] _.
    apply corrected_run_consistent. split; cbn; lia. }
  unfold Corrected.run_corrected_test_report.
  destruct (rate_line_in_range (sum Corrected.orders_success clients)
              (sum Corrected.orders_sent clients)) as (lo & -> & Hlo).
  { apply sum_le. eapply Forall_impl; [exact Hall|]. by intros c [? ?]. }
  destruct (rate_line_in_range (sum Corrected.productions_success clients)
              (sum Corrected.productions_sent clients)) as (lp & -> & Hlp).
  { apply sum_le. eapply Forall_impl; [exact Hall|]. by intros c [? ?]. }
  eexists. split; [reflexivity|]. split; assumption.
Qed.

(** ** The scripted tests *)

Lemma perform_fst c o : fst (Corrected.perform c o) = Corrected.step c o.
Proof.
  destruct o; cbn [Corrected.perform Corrected.step]; [| |done];
    by destruct (_ c sent inbox).
Qed.

Lemma attempt_partitioned ops :
  Forall Corrected.order_answered ops →
  ∀ c, partitioned c → partitioned (Corrected.attempt c ops).
Proof.
  induction 1 as [|o ops Ho _ IH]; intros c Hc; [exact Hc|].
  cbn [Corrected.attempt].
  pose proof (step_partitioned c o Ho Hc) as Hstep.
  rewrite <- perform_fst in Hstep.
  destruct (Corrected.perform c o) as [c' [[]|e]]; cbn [fst] in Hstep; auto.
Qed.

(** One step of the script keeps the partition when it returns; when it
    raises, it leaves at most the order whose wait raised out of the three
    classes. *)
Lemma perform_partitioned c o :
  partitioned c →
  match snd (Corrected.perform c o) with
  | Returned _ => partitioned (fst (Corrected.perform c o))
  | Raised _ =>
      Corrected.orders_sent (fst (Corrected.perform c o))
      = classified_orders (fst (Corrected.perform c o)) ∨
      Corrected.orders_sent (fst (Corrected.perform c o))
      = classified_orders (fst (Corrected.perform c o)) + 1
  end.
Proof.
  unfold partitioned, classified_orders, failed_orders, inconclusive_orders.
  intros Hc. destruct o as [sent inbox|sent inbox|closed]; cbn [Corrected.perform].
  - unfold Corrected.send_order.
    destruct (if Corrected.websocket c then sent else Returned tt);
      [|cbn; by left].
    destruct (Corrected.wait_for_response _ _ _) as [response|e].
    + destruct (str_in _ ["ORDER_ACK"; "FILL"]); [|destruct (is_str _ "ERROR")];
        cbn [snd mbind outcome_bind mret outcome_ret]; corrected_counters.
    + cbn [snd mbind outcome_bind mret outcome_ret]. right. corrected_counters.
  - unfold Corrected.send_production.
    destruct (if Corrected.websocket c then sent else Returned tt);
      [|cbn; by left].
    destruct (Corrected.wait_for_response _ _ _) as [response|e].
    + destruct (str_in _ _); [|destruct (is_str _ "ERROR"); [|destruct (is_str _ "TIMEOUT")]];
        cbn [snd mbind outcome_bind mret outcome_ret]; corrected_counters.
    + cbn [snd mbind outcome_bind mret outcome_ret]. left. corrected_counters.
  - unfold Corrected.disconnect. cbn [Corrected.set_running Corrected.websocket].
    destruct (Corrected.websocket c); [destruct closed|]; exact Hc.
Qed.

Lemma attempt_nearly_partitioned ops :
  ∀ c, partitioned c →
       Corrected.orders_sent (Corrected.attempt c ops)
       = classified_orders (Corrected.attempt c ops) ∨
       Corrected.orders_sent (Corrected.attempt c ops)
       = classified_orders (Corrected.attempt c ops) + 1.
Proof.
  induction ops as [|o ops IH]; intros c Hc; [by left|].
  cbn [Corrected.attempt]. pose proof (perform_partitioned c o Hc) as Hstep.
  destruct (Corrected.perform c o) as [c' [[]|e]]; cbn [fst snd] in Hstep; auto.
Qed.

(** What one step of the script does to the counters. *)
Lemma perform_counts c o :
  let c' := fst (Corrected.perform c o) in
  (Corrected.orders_sent c ≤ Corrected.orders_sent c'
   ≤ Corrected.orders_sent c + (if is_order o then 1 else 0))%nat ∧
  (Corrected.productions_sent c ≤ Corrected.productions_sent c'
   ≤ Corrected.productions_sent c + (if is_production o then 1 else 0))%nat.
Proof.
  destruct o as [sent inbox|sent inbox|closed]; cbn [Corrected.perform].
  - unfold Corrected.send_order.
    destruct (if Corrected.websocket c then sent else Returned tt);
      [|cbn; lia].
    destruct (Corrected.wait_for_response _ _ _) as [response|e]; [|cbn; lia].
    destruct (str_in _ ["ORDER_ACK"; "FILL"]); [|destruct (is_str _ "ERROR")];
      cbn; lia.
  - unfold Corrected.send_production.
    destruct (if Corrected.websocket c then sent else Returned tt);
      [|cbn; lia].
    destruct (Corrected.wait_for_response _ _ _) as [response|e]; [|cbn; lia].
    destruct (str_in _ _); [|destruct (is_str _ "ERROR"); [|destruct (is_str _ "TIMEOUT")]];
      cbn; lia.
  - unfold Corrected.disconnect. cbn [Corrected.set_running Corrected.websocket].
    destruct (Corrected.websocket c); [destruct closed|]; cbn; lia.
Qed.

Lemma perform_returns c o :
  Corrected.answered o → sent_returned o →
  let c' := fst (Corrected.perform c o) in
  snd (Corrected.perform c o) = Returned tt ∧
  Corrected.orders_sent c'
  = Corrected.orders_sent c + (if is_order o then 1 else 0) ∧
  Corrected.productions_sent c'
  = Corrected.productions_sent c + (if is_production o then 1 else 0).
Proof.
  destruct o as [sent inbox|sent inbox|closed];
    cbn [Corrected.perform Corrected.answered sent_returned].
  - intros [response Hwait] ->. unfold Corrected.send_order. rewrite Hwait.
    replace (if Corrected.websocket c then Returned tt else Returned tt)
      with (@Returned unit tt) by (by destruct (Corrected.websocket c)).
    destruct (str_in _ ["ORDER_ACK"; "FILL"]); [|destruct (is_str _ "ERROR")];
      cbn; repeat split; lia.
  - intros [response Hwait] ->. unfold Corrected.send_production. rewrite Hwait.
    replace (if Corrected.websocket c then Returned tt else Returned tt)
      with (@Returned unit tt) by (by destruct (Corrected.websocket c)).
    destruct (str_in _ _); [|destruct (is_str _ "ERROR"); [|destruct (is_str _ "TIMEOUT")]];
      cbn; repeat split; lia.
  - intros _ _. unfold Corrected.disconnect.
    cbn [Corrected.set_running Corrected.websocket].
    destruct (Corrected.websocket c); [destruct closed|]; cbn; repeat split; lia.
Qed.

Lemma attempt_counts ops :
  ∀ c,
    (Corrected.orders_sent c ≤ Corrected.orders_sent (Corrected.attempt c ops)
     ≤ Corrected.orders_sent c + length (filter (fun o => is_order o = true) ops))%nat ∧
    (Corrected.productions_sent c
     ≤ Corrected.productions_sent (Corrected.attempt c ops)
     ≤ Corrected.productions_sent c
       + length (filter (fun o => is_production o = true) ops))%nat.
Proof.
  induction ops as [|o ops IH]; intros c; [cbn; lia|].
  cbn [Corrected.attempt]. rewrite !filter_cons.
  pose proof (perform_counts c o) as [Ho Hp].
  destruct (Corrected.perform c o) as [c' [[]|e]]; cbn [fst] in Ho, Hp.
  - destruct (IH c') as [Ho' Hp'].
    destruct (is_order o), (is_production o);
      repeat case_decide; try done; cbn [length]; lia.
  - destruct (is_order o), (is_production o);
      repeat case_decide; try done; cbn [length]; lia.
Qed.

Lemma attempt_returns ops :
  Forall Corrected.answered ops → Forall sent_returned ops →
  ∀ c,
    Corrected.orders_sent (Corrected.attempt c ops)
    = Corrected.orders_sent c + length (filter (fun o => is_order o = true) ops) ∧
    Corrected.productions_sent (Corrected.attempt c ops)
    = Corrected.productions_sent c
      + length (filter (fun o => is_production o = true) ops).
Proof.
  induction ops as [|o ops IH]; intros Hans Hsent c; [cbn; lia|].
  apply Forall_cons in Hans as [Ha Hans]. apply Forall_cons in Hsent as [Hs Hsent].
  cbn [Corrected.attempt]. rewrite !filter_cons.
  pose proof (perform_returns c o Ha Hs) as (Hr & Ho & Hp).
  destruct (Corrected.perform c o) as [c' r]; cbn [fst snd] in Hr, Ho, Hp.
  subst r. destruct (IH Hans Hsent c') as [Ho' Hp'].
  destruct (is_order o), (is_production o);
    repeat case_decide; try done; cbn [length]; lia.
Qed.

Lemma answered_order_answered o : Corrected.answered o → Corrected.order_answered o.
Proof. by destruct o. Qed.

(** X7: [test_basic_functionality] of the corrected client, whatever the
    server sends and whichever send fails: it leaves [running] cleared and
    counts at most four more orders and two more productions.  Of the
    orders it counts, at most one is in none of the three classes: the one
    whose wait raised, which ends the script.  When every wait of the script
    returns, the partition of the orders is kept, and when moreover no send
    raises, exactly four orders and two productions are counted. *)
Theorem test_basic_functionality_counts :
  ∀ c p1 o2 o3 p4 o5 o6,
    let c' := Corrected.test_basic_functionality c p1 o2 o3 p4 o5 o6 in
    Corrected.running c' = false ∧
    (Corrected.orders_sent c ≤ Corrected.orders_sent c'
     ≤ Corrected.orders_sent c + 4)%nat ∧
    (Corrected.productions_sent c ≤ Corrected.productions_sent c'
     ≤ Corrected.productions_sent c + 2)%nat ∧
    (partitioned c →
     Corrected.orders_sent c' = classified_orders c' ∨
     Corrected.orders_sent c' = classified_orders c' + 1) ∧
    (Forall Corrected.answered (Corrected.script p1 o2 o3 p4 o5 o6) →
     (partitioned c → partitioned c') ∧
     (Forall (fun io => fst io = Returned tt) [p1; o2; o3; p4; o5; o6] →
      Corrected.orders_sent c' = Corrected.orders_sent c + 4 ∧
      Corrected.productions_sent c' = Corrected.productions_sent c + 2)).
Proof.
  intros c p1 o2 o3 p4 o5 o6 c'. subst c'.
  unfold Corrected.test_basic_functionality.
  set (ops := Corrected.script p1 o2 o3 p4 o5 o6).
  set (c0 := Corrected.set_running true c).
  assert (∀ x, Corrected.orders_sent (Corrected.set_running false x)
               = Corrected.orders_sent x) as Hso by done.
  assert (∀ x, Corrected.productions_sent (Corrected.set_running false x)
               = Corrected.productions_sent x) as Hsp by done.
  assert (∀ x, classified_orders (Corrected.set_running false x)
               = classified_orders x) as Hsc by done.
  assert (∀ x, partitioned x → partitioned (Corrected.set_running false x)) as Hrun
    by (intros x Hx; exact Hx).
  assert (partitioned c → partitioned c0) as Hc0 by (intros Hx; exact Hx).
  split; [reflexivity|]. rewrite Hso, Hsp, Hsc.
  pose proof (attempt_counts ops c0) as [Ho Hp].
  change (Corrected.orders_sent c0) with (Corrected.orders_sent c) in Ho.
  change (Corrected.productions_sent c0) with (Corrected.productions_sent c) in Hp.
  change (length (filter (fun o => is_order o = true) ops)) with 4 in Ho.
  change (length (filter (fun o => is_production o = true) ops)) with 2 in Hp.
  split; [exact Ho|]. split; [exact Hp|]. split.
  - intros Hc. by apply attempt_nearly_partitioned, Hc0.
  - intros Hans. split.
    + intros Hc. apply Hrun, attempt_partitioned; [|by apply Hc0].
      eapply Forall_impl; [exact Hans|]. apply answered_order_answered.
    + intros Hall.
      assert (Forall sent_returned ops) as Hsent.
      { apply Forall_cons in Hall as [H1 Hall]. apply Forall_cons in Hall as [H2 Hall].
        apply Forall_cons in Hall as [H3 Hall]. apply Forall_cons in Hall as [H4 Hall].
        apply Forall_cons in Hall as [H5 Hall]. apply Forall_cons in Hall as [H6 _].
        subst ops. unfold Corrected.script.
        repeat (apply Forall_cons; split; [done|]). apply Forall_nil. exact I. }
      pose proof (attempt_returns ops Hans Hsent c0) as [Ho' Hp'].
      change (Corrected.orders_sent c0) with (Corrected.orders_sent c) in Ho'.
      change (Corrected.productions_sent c0) with (Corrected.productions_sent c) in Hp'.
      change (length (filter (fun o => is_order o = true) ops)) with 4 in Ho'.
      change (length (filter (fun o => is_production o = true) ops)) with 2 in Hp'.
      by split.
Qed.

Lemma improved_send_order_cases c order_id sent inbox :
  ∃ c' r, Improved.send_order c order_id sent inbox = (c', r) ∧
    Improved.websocket c' = Improved.websocket c ∧
    Improved.running c' = Improved.running c ∧
    ((∃ b, r = Returned b) ∧ (Improved.websocket c = true → sent = Returned tt)
     ∨ (∃ e, r = Raised e ∧ sent = Raised e) ∧ Improved.websocket c = true
       ∧ c' = c).
Proof.
  unfold Improved.send_order.
  destruct (Improved.websocket c) eqn:Hws; [destruct sent as [[]|e]|].
  - destruct (str_in _ _); [|destruct (is_str _ _)]; eexists _, _;
      (split; [reflexivity|]); cbn; rewrite ?Hws; repeat split; left; eauto.
  - eexists _, _. split; [reflexivity|]. repeat split; try done.
    right. eauto 10.
  - eexists _, _. split; [reflexivity|]. rewrite Hws. repeat split.
    left. split; [eauto|done].
Qed.

Lemma improved_send_production_cases c sent inbox :
  ∃ c' r, Improved.send_production c sent inbox = (c', r) ∧
    Improved.websocket c' = Improved.websocket c ∧
    Improved.running c' = Improved.running c ∧
    ((∃ b, r = Returned b) ∧ (Improved.websocket c = true → sent = Returned tt)
     ∨ (∃ e, r = Raised e ∧ sent = Raised e) ∧ Improved.websocket c = true
       ∧ c' = c).
Proof.
  unfold Improved.send_production.
  destruct (Improved.websocket c) eqn:Hws; [destruct sent as [[]|e]|].
  - destruct (is_str _ _); [|destruct (is_str _ _)]; eexists _, _;
      (split; [reflexivity|]); cbn; rewrite ?Hws; repeat split; left; eauto.
  - eexists _, _. split; [reflexivity|]. repeat split; try done.
    right. eauto 10.
  - eexists _, _. split; [reflexivity|]. rewrite Hws. repeat split.
    left. split; [eauto|done].
Qed.

(** X8: [quick_functionality_test] leaves [running] cleared and reports
    [connection] exactly when none of its three sends raised; this is so for
    a client without a websocket too, which sends nothing.  When a send
    raises, the limit order, the tickers and the keepalive are reported as
    failed, and otherwise [ticker_received] tells whether the listener had
    counted a ticker. *)
Theorem quick_functionality_test_connection :
  ∀ c io,
    let c' := fst (Improved.quick_functionality_test c io) in
    let r := snd (Improved.quick_functionality_test c io) in
    Improved.running c' = false ∧
    (Improved.connection r = true ↔
     (Improved.websocket c = true →
      Improved.production_sent io = Returned tt ∧
      Improved.market_sent io = Returned tt ∧
      Improved.limit_sent io = Returned tt)) ∧
    (Improved.connection r = false →
     Improved.limit_order r = false ∧ Improved.ticker_received r = false ∧
     Improved.keepalive r = false) ∧
    (Improved.connection r = true →
     Improved.ticker_received r = bool_decide (0 < Improved.ticker_count io)).
Proof.
  intros c io c' r. subst c' r. unfold Improved.quick_functionality_test.
  assert (Improved.websocket (Improved.set_running true c) = Improved.websocket c)
    as Hws0 by done.
  destruct (improved_send_production_cases (Improved.set_running true c)
              (Improved.production_sent io) (Improved.production_inbox io))
    as (c1 & r1 & -> & Hws1 & _ & [[[b1 ->] Hs1]|([e1 [-> Hs1]] & Hw1 & _)]).
  2:{ cbn. rewrite Hws0 in Hw1. repeat split; try done.
      intros H. destruct (H Hw1) as [Hp _]. congruence. }
  destruct (improved_send_order_cases c1 (Improved.market_id io)
              (Improved.market_sent io) (Improved.market_inbox io))
    as (c2 & r2 & -> & Hws2 & _ & [[[b2 ->] Hs2]|([e2 [-> Hs2]] & Hw2 & _)]).
  2:{ cbn. rewrite Hws1, Hws0 in Hw2. repeat split; try done.
      intros H. destruct (H Hw2) as (_ & Hm & _). congruence. }
  destruct (improved_send_order_cases c2 (Improved.limit_id io)
              (Improved.limit_sent io) (Improved.limit_inbox io))
    as (c3 & r3 & -> & Hws3 & _ & [[[b3 ->] Hs3]|([e3 [-> Hs3]] & Hw3 & _)]).
  2:{ cbn. rewrite Hws2, Hws1, Hws0 in Hw3. repeat split; try done.
      intros H. destruct (H Hw3) as (_ & _ & Hl). congruence. }
  cbn. rewrite Hws0 in Hs1. rewrite Hws1, Hws0 in Hs2.
  rewrite Hws2, Hws1, Hws0 in Hs3. repeat split; auto; done.
Qed.

(** ** The verdict of the quick validation *)

Lemma passed_tests_bound all_results : (Improved.passed_tests all_results ≤ 6)%nat.
Proof.
  unfold Improved.passed_tests.
  etransitivity; [apply length_filter|]. destruct all_results; cbn; lia.
Qed.

(** X9: the quick validation passes exactly when there is a result and at
    least five of the six tests were passed by every client: the threshold
    of 0.8 lies between four and five tests out of six. *)
Theorem validation_passed_five_of_six :
  ∀ all_results,
    Improved.validation_passed all_results = true ↔
    all_results ≠ [] ∧ (5 ≤ Improved.passed_tests all_results)%nat.
Proof.
  intros all_results. pose proof (passed_tests_bound all_results) as Hb.
  unfold Improved.validation_passed.
  destruct all_results as [|r rs].
  - cbn. split; [discriminate|]. by intros [? _].
  - set (n := Improved.passed_tests (r :: rs)) in *.
    change (length Improved.test_names) with 6.
    rewrite bool_decide_eq_true_2 by lia.
    destruct n as [|[|[|[|[|[|[|n]]]]]]]; try lia;
      (split; [intros H; vm_compute in H;
                 first [discriminate H | split; [done|lia]]
              |intros [_ H]; first [lia | reflexivity]]).
Qed.

(** ** The demo client: pending orders *)

Lemma process_order_ack_pending c data id :
  is_Some (Demo.pending_orders c !! id) →
  is_Some (Demo.pending_orders (fst (Demo._process_order_ack c data)) !! id).
Proof.
  intros Hid. unfold Demo._process_order_ack.
  destruct (get data "clOrdID") as [| | | |id'| |]; try done.
  destruct (Demo.pending_orders c !! id') as [info|] eqn:Hid'; [|done].
  assert (is_Some (<[id':=Demo.set_status (get data "status") info]>
                     (Demo.pending_orders c) !! id)) as Hins.
  { rewrite lookup_insert. case_decide; [eauto|done]. }
  by destruct (is_str (get data "status") "PENDING").
Qed.

Lemma message_listener_body_pending c data id :
  is_Some (Demo.pending_orders c !! id) →
  is_Some (Demo.pending_orders (fst (Demo.message_listener_body c data)) !! id).
Proof.
  intros Hid. unfold Demo.message_listener_body.
  destruct (is_str _ "TICKER"); [by ticker_branch|].
  destruct (is_str _ "FILL").
  { destruct (Demo._process_fill _ data) as [s [[]|e]]; done. }
  destruct (is_str _ "OFFER"); [done|].
  destruct (is_str _ "ORDER_ACK").
  { pose proof (process_order_ack_pending c data id Hid) as Hp.
    destruct (Demo._process_order_ack c data) as [c' [[]|e]]; done. }
  destruct (is_str _ "INVENTORY_UPDATE"); [done|].
  destruct (is_str _ "ERROR"); done.
Qed.

Lemma send_order_pending c order_id side product quantity limit_price mode sent :
  Demo.pending_orders
    (fst (Demo.send_order c order_id side product quantity limit_price mode sent))
  = <[order_id :=
        {| Demo.side := side; Demo.product := product; Demo.qty := quantity;
           Demo.price := limit_price; Demo.mode := mode;
           Demo.status := VStr "SENT" |}]> (Demo.pending_orders c).
Proof.
  unfold Demo.send_order. cbn [Demo.set_pending_orders Demo.websocket].
  destruct (Demo.websocket c); [destruct sent|]; reflexivity.
Qed.

Lemma step_pending c o id :
  is_Some (Demo.pending_orders c !! id) →
  is_Some (Demo.pending_orders (Demo.step c o) !! id).
Proof.
  intros Hid. destruct o; cbn [Demo.step].
  - rewrite send_order_pending, lookup_insert. case_decide; [eauto|done].
  - unfold Demo.send_production.
    destruct (Demo.websocket c); [destruct sent|]; done.
  - by apply message_listener_body_pending.
Qed.

(** X10: the demo client keeps every order it was asked to send.
    [send_order] records the order under its id with the status SENT, whether
    or not there is a websocket and whether or not the send raises, and no
    later order, production or received frame removes an entry of
    [pending_orders]. *)
Theorem pending_orders_kept :
  (∀ c order_id side product quantity limit_price mode sent,
     Demo.pending_orders
       (fst (Demo.send_order c order_id side product quantity limit_price mode sent))
     !! order_id
     = Some {| Demo.side := side; Demo.product := product; Demo.qty := quantity;
               Demo.price := limit_price; Demo.mode := mode;
               Demo.status := VStr "SENT" |}) ∧
  (∀ c ops id,
     is_Some (Demo.pending_orders c !! id) →
     is_Some (Demo.pending_orders (Demo.run c ops) !! id)).
Proof.
  split.
  - intros. rewrite send_order_pending. apply lookup_insert_eq.
  - intros c ops. revert c. unfold Demo.run.
    induction ops as [|o ops IH]; intros c id Hid; [exact Hid|].
    cbn [foldl]. apply IH. by apply step_pending.
Qed.

Lemma pending_orders_kept_witness :
  is_Some
    (Demo.pending_orders
       (Demo.run Examples.demo_sent
          [Demo.Receive (Examples.ack "A"); Demo.Receive Examples.fill]) !! "A").
Proof.
  apply (proj2 pending_orders_kept Examples.demo_sent).
  vm_compute. eauto.
Defined.

(** ** The demo client: fills *)

Lemma step_fills c o :
  Demo.orders_filled (Demo.stats c) = Demo.fills_received (Demo.stats c) →
  Demo.orders_filled (Demo.stats (Demo.step c o))
  = Demo.fills_received (Demo.stats (Demo.step c o)).
Proof.
  intros Hc. destruct o; cbn [Demo.step].
  - unfold Demo.send_order. cbn [Demo.set_pending_orders Demo.websocket].
    destruct (Demo.websocket c); [destruct sent|]; exact Hc.
  - unfold Demo.send_production.
    destruct (Demo.websocket c); [destruct sent|]; exact Hc.
  - unfold Demo.message_listener_body.
    destruct (is_str _ "TICKER"); [ticker_branch; exact Hc|].
    destruct (is_str _ "FILL").
    { unfold Demo._process_fill.
      repeat case_match; simplify_eq; cbn; lia. }
    destruct (is_str _ "OFFER"); [exact Hc|].
    destruct (is_str _ "ORDER_ACK").
    { unfold Demo._process_order_ack. repeat case_match; simplify_eq; exact Hc. }
    destruct (is_str _ "INVENTORY_UPDATE"); [exact Hc|].
    destruct (is_str _ "ERROR"); exact Hc.
Qed.

(** X11: in the demo client [orders_filled] and [fills_received] are one
    count kept twice: after every sequence of operations of a new client they
    are equal, also when the handling of a FILL raised. *)
Theorem orders_filled_is_fills_received :
  ∀ websocket ops,
    let c := Demo.run (Demo.new_client websocket) ops in
    Demo.orders_filled (Demo.stats c) = Demo.fills_received (Demo.stats c).
Proof.
  intros websocket ops c. subst c.
  assert (∀ c, Demo.orders_filled (Demo.stats c) = Demo.fills_received (Demo.stats c) →
               Demo.orders_filled (Demo.stats (Demo.run c ops))
               = Demo.fills_received (Demo.stats (Demo.run c ops))) as Hrun.
  { unfold Demo.run. induction ops as [|o ops IH]; intros c Hc; [exact Hc|].
    cbn [foldl]. apply IH. by apply step_fills. }
  by apply Hrun.
Qed.

(** ** The demo client: acknowledgements *)

(** X12: an ORDER_ACK touches the order it names and nothing else.  For a
    pending order it stores the status of the message in that entry of
    [pending_orders], leaves every other entry as it is, and counts a success
    exactly when the status is PENDING; an ORDER_ACK that names no pending
    order (an unknown id, or no id at all) changes nothing. *)
Theorem order_ack_touches_its_order :
  (∀ c data id info,
     get data "clOrdID" = VStr id →
     Demo.pending_orders c !! id = Some info →
     let c' := fst (Demo._process_order_ack c data) in
     snd (Demo._process_order_ack c data) = Returned tt ∧
     Demo.pending_orders c' !! id
     = Some (Demo.set_status (get data "status") info) ∧
     (∀ id', id' ≠ id →
        Demo.pending_orders c' !! id' = Demo.pending_orders c !! id') ∧
     Demo.orders_successful (Demo.stats c')
     = Demo.orders_successful (Demo.stats c)
       + (if is_str (get data "status") "PENDING" then 1 else 0)) ∧
  (∀ c data,
     (∀ id, get data "clOrdID" = VStr id → Demo.pending_orders c !! id = None) →
     fst (Demo._process_order_ack c data) = c).
Proof.
  split.
  - intros c data id info Hid Hinfo c'. subst c'.
    unfold Demo._process_order_ack. rewrite Hid, Hinfo.
    destruct (is_str (get data "status") "PENDING"); cbn;
      (split; [done|]); (split; [apply lookup_insert_eq|]);
      (split; [|lia]); intros id' Hne; by rewrite lookup_insert_ne.
  - intros c data Hnone. unfold Demo._process_order_ack.
    destruct (get data "clOrdID") as [| | | |id| |] eqn:Hid; try done.
    by rewrite (Hnone id eq_refl).
Qed.

Lemma order_ack_touches_its_order_witness :
  Demo.pending_orders
    (fst (Demo._process_order_ack Examples.demo_sent (Examples.ack "A"))) !! "A"
  = Some {| Demo.side := "BUY"; Demo.product := "FOSFO"; Demo.qty := 1;
            Demo.price := None; Demo.mode := "MARKET";
            Demo.status := VStr "PENDING" |}.
Proof.
  refine (proj1 (proj2 (proj1 order_ack_touches_its_order
            Examples.demo_sent (Examples.ack "A") "A"
            {| Demo.side := "BUY"; Demo.product := "FOSFO"; Demo.qty := 1;
               Demo.price := None; Demo.mode := "MARKET";
               Demo.status := VStr "SENT" |} _ _))).
  - reflexivity.
  - reflexivity.
Defined.

(** ** The demo client: the listener *)

Lemma message_listener_body_flags c data :
  Demo.running (fst (Demo.message_listener_body c data)) = Demo.running c ∧
  Demo.websocket (fst (Demo.message_listener_body c data)) = Demo.websocket c.
Proof.
  unfold Demo.message_listener_body.
  destruct (is_str _ "TICKER"); [by ticker_branch|].
  destruct (is_str _ "FILL").
  { destruct (Demo._process_fill _ data) as [s [[]|e]]; done. }
  destruct (is_str _ "OFFER"); [done|].
  destruct (is_str _ "ORDER_ACK").
  { unfold Demo._process_order_ack. repeat case_match; simplify_eq; done. }
  destruct (is_str _ "INVENTORY_UPDATE"); [done|].
  destruct (is_str _ "ERROR"); done.
Qed.

Lemma message_listener_body_queue c data :
  match snd (Demo.message_listener_body c data) with
  | Returned _ =>
      Demo.message_queue (fst (Demo.message_listener_body c data))
      = Demo.message_queue c ++ [data]
  | Raised _ =>
      Demo.message_queue (fst (Demo.message_listener_body c data))
      = Demo.message_queue c
  end.
Proof.
  unfold Demo.message_listener_body.
  destruct (is_str _ "TICKER"); [by ticker_branch|].
  destruct (is_str _ "FILL").
  { destruct (Demo._process_fill _ data) as [s [[]|e]]; done. }
  destruct (is_str _ "OFFER"); [done|].
  destruct (is_str _ "ORDER_ACK").
  { unfold Demo._process_order_ack. repeat case_match; simplify_eq; done. }
  destruct (is_str _ "INVENTORY_UPDATE"); [done|].
  destruct (is_str _ "ERROR"); done.
Qed.

Lemma process_ticker_returns c data :
  match get data "product" with VList _ | VDict _ => False | _ => True end →
  snd (Demo._process_ticker c data) = Returned tt.
Proof. unfold Demo._process_ticker. repeat case_match; done. Qed.

Lemma process_fill_no_side s data :
  is_str (get data "side") "SELL" || is_str (get data "side") "BUY" = false →
  Demo._process_fill s data = (Demo.incr_orders_filled s, Returned tt).
Proof.
  intros [Hsell Hbuy]%orb_false_elim. unfold Demo._process_fill.
  by rewrite Hsell, Hbuy.
Qed.

Lemma handled_returns c data :
  handled data → snd (Demo.message_listener_body c data) = Returned tt.
Proof.
  intros (Hfill & Hack & Hticker). unfold Demo.message_listener_body.
  destruct (is_str _ "TICKER").
  { pose proof (process_ticker_returns
                  (Demo.set_stats (Demo.incr_tickers_received (Demo.stats c)) c)
                  data (Hticker eq_refl)) as Hr.
    destruct (Demo._process_ticker _ data) as [c' r]. cbn [snd] in Hr.
    by subst r. }
  destruct (is_str _ "FILL").
  { destruct (is_str (get data "side") "SELL" || is_str (get data "side") "BUY")
      eqn:Hside.
    - destruct (Hfill eq_refl eq_refl) as [amount Ha].
      by rewrite (process_fill_amount _ data amount Ha).
    - by rewrite (process_fill_no_side _ data Hside). }
  destruct (is_str _ "OFFER"); [done|].
  destruct (is_str _ "ORDER_ACK").
  { specialize (Hack eq_refl). unfold Demo._process_order_ack.
    repeat case_match; simplify_eq; done. }
  destruct (is_str _ "INVENTORY_UPDATE"); [done|].
  destruct (is_str _ "ERROR"); done.
Qed.

(** X13: the listener of the demo client queues the frames it receives in
    the order of their arrival: its queue is the old queue followed by the
    first [k] frames, where [k] is all of them when every frame is handled
    without an exception; a client that is not running or has no websocket
    reads no frame at all. *)
Theorem message_listener_queues_in_order :
  ∀ c frames,
    (Demo.running c && Demo.websocket c = false →
     Demo.message_listener c frames = c) ∧
    ∃ k, (k ≤ length frames)%nat ∧
         Demo.message_queue (Demo.message_listener c frames)
         = Demo.message_queue c ++ take k frames ∧
         (Demo.running c && Demo.websocket c = true →
          Forall handled frames → k = length frames).
Proof.
  intros c frames. split.
  - intros Hoff. destruct frames; cbn [Demo.message_listener]; [done|].
    by rewrite Hoff.
  - revert c. induction frames as [|data frames IH]; intros c.
    + exists 0. cbn. by rewrite app_nil_r.
    + cbn [Demo.message_listener].
      destruct (Demo.running c && Demo.websocket c) eqn:Hon.
      2:{ exists 0. cbn. rewrite app_nil_r. split; [lia|]. split; [done|].
          discriminate. }
      pose proof (message_listener_body_queue c data) as Hq.
      pose proof (message_listener_body_flags c data) as [Hr Hw].
      pose proof (handled_returns c data) as Hh.
      destruct (Demo.message_listener_body c data) as [c' [[]|e]];
        cbn [fst snd] in *.
      * destruct (IH c') as (k & Hk & Hqueue & Hall).
        exists (S k). split; [cbn; lia|]. split.
        -- rewrite Hqueue, Hq, <- app_assoc. done.
        -- intros _ Hframes. apply Forall_cons in Hframes as [_ Hframes].
           rewrite Hall; [done| by rewrite Hr, Hw |done].
      * exists 0. cbn. rewrite app_nil_r. split; [lia|]. split; [done|].
        intros _ Hframes. apply Forall_cons in Hframes as [Hd _].
        specialize (Hh Hd). discriminate Hh.
Qed.

(** ** The demo client: profit *)

Lemma is_str_other v a b : is_str v a = true → a ≠ b → is_str v b = false.
Proof.
  destruct v as [| | | |s| |]; try discriminate. cbn [is_str].
  intros ->%bool_decide_eq_true_1 Hne. by apply bool_decide_eq_false_2.
Qed.

Lemma message_listener_body_profit c data :
  handled data →
  Demo.total_profit (Demo.stats (fst (Demo.message_listener_body c data)))
  = profit_after_frame (Demo.total_profit (Demo.stats c)) data.
Proof.
  intros (Hfill & _ & Hticker). unfold Demo.message_listener_body, profit_after_frame.
  destruct (is_str (get_default data "type" (VStr "UNKNOWN")) "FILL") eqn:Hf.
  - rewrite (is_str_other _ "FILL" "TICKER" Hf) by done.
    destruct (is_str (get data "side") "SELL" || is_str (get data "side") "BUY")
      eqn:Hside.
    + destruct (Hfill eq_refl eq_refl) as [amount Ha].
      by rewrite (process_fill_amount _ data amount Ha), Ha.
    + rewrite (process_fill_no_side _ data Hside). cbn.
      apply orb_false_elim in Hside as [Hsell Hbuy].
      unfold profit_after. rewrite Hsell, Hbuy. by destruct (fill_amount data).
  - destruct (is_str _ "TICKER").
    { pose proof (process_ticker_returns
                    (Demo.set_stats (Demo.incr_tickers_received (Demo.stats c)) c)
                    data (Hticker eq_refl)) as Hr.
      pose proof (process_ticker_state
                    (Demo.set_stats (Demo.incr_tickers_received (Demo.stats c)) c)
                    data) as Hc.
      destruct (Demo._process_ticker _ data) as [c' r]. cbn [fst snd] in Hr, Hc.
      by subst. }
    destruct (is_str _ "OFFER"); [done|].
    destruct (is_str _ "ORDER_ACK").
    { unfold Demo._process_order_ack. repeat case_match; simplify_eq; done. }
    destruct (is_str _ "INVENTORY_UPDATE"); [done|].
    destruct (is_str _ "ERROR"); done.
Qed.

(** X14: the profit of a demo client follows the fills it read, one after
    the other: a running listener that handles every frame leaves
    [total_profit] at the value obtained from the old one by taking the
    frames in the order of their arrival, a SELL fill replacing the profit
    by the binary64 sum of the profit and the amount of the fill, a BUY fill
    by the binary64 difference; frames of other kinds and fills with another
    side do not move it. *)
Theorem total_profit_follows_fills :
  ∀ c frames,
    Demo.running c && Demo.websocket c = true →
    Forall handled frames →
    Demo.total_profit (Demo.stats (Demo.message_listener c frames))
    = foldl profit_after_frame (Demo.total_profit (Demo.stats c)) frames.
Proof.
  intros c frames. revert c.
  induction frames as [|data frames IH]; intros c Hon Hall; [done|].
  apply Forall_cons in Hall as [Hd Hall]. cbn [Demo.message_listener foldl].
  rewrite Hon.
  pose proof (message_listener_body_profit c data Hd) as Hp.
  pose proof (message_listener_body_flags c data) as [Hr Hw].
  pose proof (handled_returns c data Hd) as Hret.
  destruct (Demo.message_listener_body c data) as [c' [[]|e]];
    cbn [fst snd] in *; [|discriminate Hret].
  rewrite IH; [|by rewrite Hr, Hw|done]. by rewrite Hp.
Qed.

Lemma total_profit_follows_fills_witness :
  Demo.total_profit
    (Demo.stats
       (Demo.message_listener Examples.demo_listening
          [Examples.fill_buy; Examples.ticker; Examples.fill_sell_3_at_quarter]))
  = foldl profit_after_frame (Demo.total_profit (Demo.stats Examples.demo_listening))
      [Examples.fill_buy; Examples.ticker; Examples.fill_sell_3_at_quarter].
Proof.
  apply (total_profit_follows_fills Examples.demo_listening).
  - reflexivity.
  - repeat (apply Forall_cons; split;
              [split; [intros _ _; vm_compute; eauto
                      |split; intros H; vm_compute in H; try discriminate H; exact I]|]).
    apply Forall_nil. exact I.
Defined.

(** ** The demo client: the summary *)

Lemma of_nat_ratio_nonneg a b : (0 < b)%nat → (0 <= of_nat a / of_nat b)%Q.
Proof.
  intros Hb. apply Qle_shift_div_l; [by apply of_nat_pos|].
  rewrite Qmult_0_l. apply (of_nat_le 0 a). lia.
Qed.

Lemma sub_same_number v :
  is_number v = true → ∃ change, sub v v = Returned change.
Proof. destruct v; try discriminate; intros _; cbn; eauto. Qed.

Lemma connect_balances websocket auth_response :
  let c := fst (Demo.connect (Demo.new_client websocket) auth_response) in
  Demo.initial_balance c = Demo.balance c ∧
  (Demo.balance c = VFloat 0 ∨
   is_str (get auth_response "type") "LOGIN_OK" = true ∧
   Demo.balance c = get_default auth_response "currentBalance" (VFloat 0)).
Proof.
  unfold Demo.connect.
  destruct (is_str (get auth_response "type") "LOGIN_OK"); cbn; eauto.
Qed.

(** X15: [get_performance_summary] never divides by zero: for every state of
    the client it raises no [ZeroDivisionError], and when it returns, its
    three rates are not negative and a rate whose count of successes is zero
    is zero.  It returns exactly when the change of the balance can be
    computed.  After a login that gave a number as the balance, or none, it
    returns, whatever the client did since; after a login that gave the
    balance as a string it raises [TypeError]. *)
Theorem performance_summary_never_divides_by_zero :
  (∀ c, Demo.get_performance_summary c ≠ Raised ZeroDivisionError) ∧
  (∀ c s,
     Demo.get_performance_summary c = Returned s →
     (0 <= Demo.order_success_rate s)%Q ∧
     (0 <= Demo.fill_rate s)%Q ∧
     (0 <= Demo.production_success_rate s)%Q ∧
     (Demo.orders_successful (Demo.stats c) = 0 →
      (Demo.order_success_rate s == 0)%Q) ∧
     (Demo.orders_filled (Demo.stats c) = 0 → (Demo.fill_rate s == 0)%Q) ∧
     (Demo.productions_successful (Demo.stats c) = 0 →
      (Demo.production_success_rate s == 0)%Q)) ∧
  (∀ c,
     (∃ s, Demo.get_performance_summary c = Returned s) ↔
     (∃ change, sub (Demo.balance c) (Demo.initial_balance c) = Returned change)) ∧
  (∀ websocket auth_response ops,
     is_number (get_default auth_response "currentBalance" (VFloat 0)) = true →
     ∃ s, Demo.get_performance_summary
            (Demo.run (fst (Demo.connect (Demo.new_client websocket) auth_response))
               ops)
          = Returned s) ∧
  (∀ websocket auth_response ops text,
     is_str (get auth_response "type") "LOGIN_OK" = true →
     auth_response !! "currentBalance" = Some (VStr text) →
     Demo.get_performance_summary
       (Demo.run (fst (Demo.connect (Demo.new_client websocket) auth_response))
          ops)
     = Raised TypeError).
Proof.
  split; [apply get_performance_summary_no_zero_division|].
  split; [|split; [|split]].
  - intros c s. rewrite get_performance_summary_rates.
    destruct (sub _ _) as [change|e]; cbn; [|discriminate].
    intros [= <-]. cbn [Demo.order_success_rate Demo.fill_rate
                        Demo.production_success_rate].
    repeat split; try (apply of_nat_ratio_nonneg; lia);
      intros ->; reflexivity.
  - intros c. rewrite get_performance_summary_rates.
    destruct (sub _ _) as [change|e]; cbn; split; eauto;
      intros [x Hx]; discriminate Hx.
  - intros websocket auth_response ops Hnumber.
    set (c0 := fst (Demo.connect (Demo.new_client websocket) auth_response)).
    destruct (run_balances ops c0) as [Hb Hi].
    destruct (connect_balances websocket auth_response) as [Hsame Hbalance].
    fold c0 in Hsame, Hbalance.
    rewrite get_performance_summary_rates, Hb, Hi, Hsame.
    destruct (sub_same_number (Demo.balance c0)) as [change ->].
    + by destruct Hbalance as [->|[_ ->]].
    + cbn. eauto.
  - intros websocket auth_response ops text Hok Htext.
    set (c0 := fst (Demo.connect (Demo.new_client websocket) auth_response)).
    destruct (run_balances ops c0) as [Hb Hi].
    rewrite get_performance_summary_rates, Hb, Hi.
    subst c0. unfold Demo.connect, get_default. rewrite Hok, Htext. reflexivity.
Qed.

Lemma performance_summary_never_divides_by_zero_witness :
  ∃ s, Demo.get_performance_summary
         (Demo.run (fst (Demo.connect (Demo.new_client false) Examples.login_ok))
            [Examples.buy_A; Demo.Receive (Examples.ack "A")])
       = Returned s.
Proof.
  apply (proj1 (proj2 (proj2 (proj2 performance_summary_never_divides_by_zero)))
           false Examples.login_ok
           [Examples.buy_A; Demo.Receive (Examples.ack "A")]).
  reflexivity.
Defined.

(** The answer to the login gives the balance as the string "1000.00": the
    three rates are computed, the difference of the two strings raises. *)
Lemma summary_of_text_balance :
  Demo.connect (Demo.new_client false) Examples.login_ok_text
  = (Demo.set_balances (VStr "1000.00") (VStr "1000.00")
       (Demo.set_websocket true (Demo.new_client false)),
     true) ∧
  Demo.get_performance_summary
    (fst (Demo.connect (Demo.new_client false) Examples.login_ok_text))
  = Raised TypeError.
Proof. split; reflexivity. Qed.

(** ** The demo client: what the strategy sends *)

Lemma choice_elem {A : Type} (seq : list A) pick x :
  Demo.choice seq pick = Some x → x ∈ seq.
Proof. unfold Demo.choice. apply list_elem_of_lookup_2. Qed.

Lemma choice_nonempty {A : Type} (seq : list A) pick :
  seq ≠ [] → is_Some (Demo.choice seq pick).
Proof.
  intros Hne. unfold Demo.choice. apply lookup_lt_is_Some_2.
  apply Nat.mod_upper_bound. by destruct seq.
Qed.

Lemma randint_range a b pick :
  (a ≤ b)%nat → (a ≤ Demo.randint a b pick ≤ b)%nat.
Proof.
  intros Hab. unfold Demo.randint.
  pose proof (Nat.mod_upper_bound pick (b - a + 1)). lia.
Qed.

(** X16: [_execute_production] never draws from an empty list of products,
    and what it sends stays within the strategy: a quantity from 1 to 5; one
    of FOSFO, PITA, SEBO for a Producer and one of PALTA-OIL, NUCREM,
    CASCAR-ALLOY for a Refiner, whatever the team prefers; one of the
    preferred products for every other strategy, and for a Trader only when
    the draw is below 0.3.  A team with no preferred product produces
    nothing. *)
Theorem production_choice_within_strategy :
  ∀ config d,
    Demo.production_choice config d ≠ Demo.IndexError ∧
    (Demo.preferred_products config = [] →
     Demo.production_choice config d = Demo.Idle) ∧
    ∀ product quantity,
      Demo.production_choice config d = Demo.Act (product, quantity) →
      (1 ≤ quantity ≤ 5)%nat ∧
      (Demo.strategy config = "Producer" →
       product ∈ ["FOSFO"; "PITA"; "SEBO"]) ∧
      (Demo.strategy config = "Refiner" →
       product ∈ ["PALTA-OIL"; "NUCREM"; "CASCAR-ALLOY"]) ∧
      (Demo.strategy config ≠ "Producer" → Demo.strategy config ≠ "Refiner" →
       product ∈ Demo.preferred_products config) ∧
      (Demo.strategy config = "Trader" → (Demo.coin d < 3 # 10)%Q).
Proof.
  intros config d. unfold Demo.production_choice.
  destruct (bool_decide (Demo.preferred_products config = [])) eqn:Hpref.
  { split; [done|]. split; [done|]. intros ? ? [=]. }
  apply bool_decide_eq_false_1 in Hpref.
  assert (∀ products : list string,
            products ≠ [] →
            match Demo.choice products (Demo.pick_product d) with
            | Some product =>
                Demo.Act (product, Demo.randint 1 5 (Demo.pick_quantity d))
            | None => Demo.IndexError
            end ≠ Demo.IndexError) as Hno.
  { intros products Hne.
    by destruct (choice_nonempty products (Demo.pick_product d) Hne) as [x ->]. }
  assert (take 2 (Demo.preferred_products config) ≠ []) as Htake.
  { by destruct (Demo.preferred_products config). }
  pose proof (randint_range 1 5 (Demo.pick_quantity d)) as Hq.
  repeat case_bool_decide; try congruence.
  - split; [by apply Hno|]. split; [done|]. intros product quantity Hact.
    destruct (Demo.choice _ _) as [x|] eqn:Hx; [|done].
    injection Hact as -> <-. apply choice_elem in Hx.
    repeat split; try lia; try done; congruence.
  - split; [by apply Hno|]. split; [done|]. intros product quantity Hact.
    destruct (Demo.choice _ _) as [x|] eqn:Hx; [|done].
    injection Hact as -> <-. apply choice_elem in Hx.
    repeat split; try lia; try done; congruence.
  - destruct (Qlt_le_dec (Demo.coin d) (3 # 10)) as [Hlt|Hge].
    + split; [by apply Hno|]. split; [done|]. intros product quantity Hact.
      destruct (Demo.choice _ _) as [x|] eqn:Hx; [|done].
      injection Hact as -> <-. apply choice_elem in Hx.
      apply subseteq_take in Hx.
      repeat split; try lia; try done; congruence.
    + split; [done|]. split; [done|]. intros ? ? [=].
  - split; [by apply Hno|]. split; [done|]. intros product quantity Hact.
    destruct (Demo.choice _ _) as [x|] eqn:Hx; [|done].
    injection Hact as -> <-. apply choice_elem in Hx.
    repeat split; try lia; try done; congruence.
Qed.

Lemma uniform_range a b u :
  (a <= b)%Q → (0 <= u)%Q → (u <= 1)%Q →
  (a <= Demo.uniform a b u)%Q ∧ (Demo.uniform a b u <= b)%Q.
Proof.
  intros Hab Hu0 Hu1. unfold Demo.uniform.
  assert (0 <= b - a)%Q as Hba.
  { apply (Qplus_le_l _ _ a). ring_simplify. exact Hab. }
  split.
  - apply (Qle_trans _ (a + 0)%Q); [rewrite Qplus_0_r; apply Qle_refl|].
    apply Qplus_le_r. by apply Qmult_le_0_compat.
  - apply (Qle_trans _ (a + (b - a) * 1)%Q).
    + apply Qplus_le_r. rewrite !(Qmult_comm (b - a)).
      by apply Qmult_le_compat_r.
    + ring_simplify. apply Qle_refl.
Qed.

(** X17: [_execute_trading] never draws from an empty list, and a team with
    a preferred product records, under the generated id, an order for one of
    its preferred products, with side BUY or SELL and a quantity from 1 to
    3; the order of an Aggressive team is a MARKET order without price, the
    order of any other team a LIMIT order whose price lies between 5 and 50.
    A team with no preferred product trades nothing. *)
Theorem trading_order_within_strategy :
  ∀ config c d order_id sent,
    snd (Demo._execute_trading config c d order_id sent) ≠ Demo.IndexError ∧
    (Demo.preferred_products config = [] →
     Demo._execute_trading config c d order_id sent = (c, Demo.Idle)) ∧
    (Demo.preferred_products config ≠ [] →
     ∃ info,
       Demo.pending_orders (fst (Demo._execute_trading config c d order_id sent))
       !! order_id = Some info ∧
       Demo.status info = VStr "SENT" ∧
       Demo.side info ∈ ["BUY"; "SELL"] ∧
       Demo.product info ∈ Demo.preferred_products config ∧
       (1 ≤ Demo.qty info ≤ 3)%nat ∧
       (Demo.strategy config = "Aggressive" →
        Demo.mode info = "MARKET" ∧ Demo.price info = None) ∧
       (Demo.strategy config ≠ "Aggressive" →
        Demo.mode info = "LIMIT" ∧
        ∃ p, Demo.price info = Some p ∧
             ((0 <= Demo.unit_draw d)%Q → (Demo.unit_draw d <= 1)%Q →
              (5 <= p)%Q ∧ (p <= 50)%Q))).
Proof.
  intros config c d order_id sent. unfold Demo._execute_trading.
  destruct (bool_decide (Demo.preferred_products config = [])) eqn:Hpref.
  { apply bool_decide_eq_true_1 in Hpref. split; [done|]. split; [done|].
    by intros []. }
  apply bool_decide_eq_false_1 in Hpref.
  destruct (choice_nonempty _ (Demo.pick_product d) Hpref) as [product Hproduct].
  destruct (choice_nonempty ["BUY"; "SELL"] (Demo.pick_side d)) as [side Hside];
    [done|].
  rewrite Hproduct, Hside.
  apply choice_elem in Hproduct. apply choice_elem in Hside.
  pose proof (randint_range 1 3 (Demo.pick_quantity d)) as Hq.
  case_bool_decide as Hagg.
  - pose proof (send_order_pending c order_id side product
                  (Demo.randint 1 3 (Demo.pick_quantity d)) None "MARKET" sent) as Hp.
    destruct (Demo.send_order _ _ _ _ _ _ _ _) as [c' r]. cbn [fst snd] in *.
    split; [done|]. split; [done|]. intros _. eexists.
    split; [rewrite Hp; apply lookup_insert_eq|]. cbn.
    repeat split; try done; lia.
  - pose proof (send_order_pending c order_id side product
                  (Demo.randint 1 3 (Demo.pick_quantity d))
                  (Some (Demo.uniform 5 50 (Demo.unit_draw d))) "LIMIT" sent) as Hp.
    destruct (Demo.send_order _ _ _ _ _ _ _ _) as [c' r]. cbn [fst snd] in *.
    split; [done|]. split; [done|]. intros _. eexists.
    split; [rewrite Hp; apply lookup_insert_eq|]. cbn.
    repeat split; try done; try lia.
    eexists. split; [reflexivity|]. intros Hu0 Hu1.
    by apply uniform_range.
Qed.

(** ** The demo report: strategies *)

Lemma strategy_stats_lookup performances s :
  ∀ stats : gmap string Demo.strategy_entry,
    foldl
      (fun stats perf =>
         let entry := default Demo.no_team (stats !! Demo.perf_strategy perf) in
         <[Demo.perf_strategy perf := Demo.add_performance entry perf]> stats)
      stats performances !! s
    = foldl
        (fun entry perf =>
           Some (Demo.add_performance (default Demo.no_team entry) perf))
        (stats !! s)
        (filter (fun perf => Demo.perf_strategy perf = s) performances).
Proof.
  induction performances as [|perf performances IH]; intros stats; [done|].
  cbn [foldl]. rewrite IH. rewrite filter_cons.
  destruct (decide (Demo.perf_strategy perf = s)) as [<-|Hne].
  - cbn [foldl]. by rewrite lookup_insert_eq.
  - by rewrite lookup_insert_ne.
Qed.

Lemma add_performances_fields group :
  ∀ e,
    let e' := foldl
                (fun entry perf =>
                   Some (Demo.add_performance (default Demo.no_team entry) perf))
                (Some e) group in
    ∃ r, e' = Some r ∧
      Demo.teams r = Demo.teams e + length group ∧
      Demo.total_orders r
      = Demo.total_orders e + sum Demo.perf_orders_sent group ∧
      Demo.total_fills r
      = Demo.total_fills e + sum Demo.perf_orders_filled group ∧
      Demo.entry_total_profit r
      = foldl PrimFloat.add (Demo.entry_total_profit e)
          (Demo.perf_total_profit <$> group).
Proof.
  induction group as [|perf group IH]; intros e e'; subst e'.
  - eexists. split; [reflexivity|]. cbn. repeat split; lia.
  - cbn [foldl]. change (default Demo.no_team (Some e)) with e.
    destruct (IH (Demo.add_performance e perf)) as (r & -> & Ht & Ho & Hf & Hp).
    eexists. split; [reflexivity|]. cbn in *. unfold sum in *. cbn in *.
    repeat split; try lia. exact Hp.
Qed.

Lemma float_truediv_raises x b e :
  b ≠ 0%Z → float_truediv x b = Raised e → e = OverflowError.
Proof.
  intros Hb. unfold float_truediv. rewrite (proj2 (Z.eqb_neq b 0) Hb).
  destruct (float_of_int b) eqn:Hy; cbn; [discriminate|].
  intros [= <-]. by apply float_of_int_raises in Hy.
Qed.

Lemma strategy_averages_no_zero_division e :
  0 < Demo.teams e → Demo.strategy_averages e ≠ Raised ZeroDivisionError.
Proof.
  intros Hteams. unfold Demo.strategy_averages.
  assert (Z.of_nat (Demo.teams e) ≠ 0%Z) as Hne by lia.
  destruct (truediv (Z.of_nat (Demo.total_orders e)) _) as [avg_orders|x] eqn:Ho;
    cbn; [|apply truediv_raises in Ho; [by subst|done]].
  destruct (truediv (Z.of_nat (Demo.total_fills e)) _) as [avg_fills|x] eqn:Hf;
    cbn; [|apply truediv_raises in Hf; [by subst|done]].
  destruct (float_truediv _ _) as [avg_profit|x] eqn:Hp;
    cbn; [done|apply float_truediv_raises in Hp; [by subst|done]].
Qed.

(** X18: the strategy table of the final report groups the teams by
    strategy without losing any: a strategy has an entry exactly when some
    team follows it, and then the entry holds the number of those teams, the
    sums of their orders and of their fills, and the profit obtained by
    adding their profits to 0.0 one after the other, in the order of the
    list, each sum rounded as a binary64 float.  Its count of teams is never
    zero, so the averages of the report never divide by zero. *)
Theorem strategy_stats_groups_teams :
  ∀ performances s,
    let group := filter (fun perf => Demo.perf_strategy perf = s) performances in
    match Demo.strategy_stats performances !! s with
    | None => group = []
    | Some e =>
        group ≠ [] ∧
        Demo.teams e = length group ∧
        Demo.total_orders e = sum Demo.perf_orders_sent group ∧
        Demo.total_fills e = sum Demo.perf_orders_filled group ∧
        Demo.entry_total_profit e
        = foldl PrimFloat.add 0%float (Demo.perf_total_profit <$> group) ∧
        Demo.strategy_averages e ≠ Raised ZeroDivisionError
    end.
Proof.
  intros performances s group. unfold Demo.strategy_stats.
  rewrite strategy_stats_lookup, lookup_empty. fold group.
  destruct group as [|perf group']; [done|].
  cbn [foldl]. change (default Demo.no_team None) with Demo.no_team.
  destruct (add_performances_fields group' (Demo.add_performance Demo.no_team perf))
    as (r & -> & Ht & Ho & Hf & Hp).
  cbn in Ht, Ho, Hf, Hp. unfold sum in *. cbn [foldr fmap list_fmap length foldl].
  split; [done|]. split; [lia|]. split; [lia|]. split; [lia|]. split.
  - exact Hp.
  - apply strategy_averages_no_zero_division. lia.
Qed.

(** The sums of the strategy table are rounded in the order of the teams:
    three profits added in one order and in another give two floats. *)
Lemma strategy_profit_depends_on_order :
  foldl PrimFloat.add 0%float
    [0x1.999999999999ap-4; 0x1.999999999999ap-3; 0x1.3333333333333p-2]%float
  = 0x1.3333333333334p-1%float ∧
  foldl PrimFloat.add 0%float
    [0x1.3333333333333p-2; 0x1.999999999999ap-3; 0x1.999999999999ap-4]%float
  = 0x1.3333333333333p-1%float.
Proof. split; reflexivity. Qed.

(** ** The demo report: rankings *)

Section Sorting.
Context {A : Type} (lt : A → A → bool) (comparable : A → Prop).
Hypothesis lt_asym :
  ∀ x y, comparable x → comparable y → lt x y = true → lt y x = false.
Hypothesis ge_trans :
  ∀ x y z, comparable x → comparable y → comparable z →
           lt x y = false → lt y z = false → lt x z = false.

Lemma insert_descending_perm x l : Demo.insert_descending lt x l ≡ₚ x :: l.
Proof.
  induction l as [|y l IH]; cbn [Demo.insert_descending]; [done|].
  destruct (lt x y); [|done]. rewrite IH. apply Permutation_swap.
Qed.

Lemma insert_descending_sorted x l :
  comparable x → Forall comparable l →
  StronglySorted (fun a b => lt a b = false) l →
  StronglySorted (fun a b => lt a b = false) (Demo.insert_descending lt x l).
Proof.
  intros Hx Hl Hs. induction Hs as [|y l Hs IH Hy]; cbn [Demo.insert_descending].
  - repeat constructor.
  - apply Forall_cons in Hl as [Hoy Hl]. destruct (lt x y) eqn:Hxy.
    + constructor; [by apply IH|].
      rewrite insert_descending_perm. constructor; [by apply lt_asym|exact Hy].
    + constructor; [by constructor|]. constructor; [exact Hxy|].
      apply Forall_forall. intros z Hz.
      apply (ge_trans x y z); [done|done| |done|].
      * by eapply Forall_forall in Hl.
      * by eapply Forall_forall in Hy.
Qed.

Lemma sorted_descending_perm l : Demo.sorted_descending lt l ≡ₚ l.
Proof.
  induction l as [|x l IH]; [done|]. unfold Demo.sorted_descending in *.
  cbn [foldr]. by rewrite insert_descending_perm, IH.
Qed.

Lemma sorted_descending_sorted l :
  Forall comparable l →
  StronglySorted (fun a b => lt a b = false) (Demo.sorted_descending lt l).
Proof.
  induction 1 as [|x l Hx Hl IH]; [constructor|].
  unfold Demo.sorted_descending in *. cbn [foldr].
  apply insert_descending_sorted; [done| |done].
  fold (Demo.sorted_descending lt l). by rewrite sorted_descending_perm.
Qed.

Lemma strongly_sorted_app (l1 l2 : list A) :
  StronglySorted (fun a b => lt a b = false) (l1 ++ l2) →
  StronglySorted (fun a b => lt a b = false) l1 ∧
  ∀ x y, x ∈ l1 → y ∈ l2 → lt x y = false.
Proof.
  induction l1 as [|a l1 IH]; cbn [app]; intros Hs.
  - split; [constructor|]. intros x y Hx. inversion Hx.
  - apply StronglySorted_inv in Hs as [Hs Ha].
    destruct (IH Hs) as [Hs1 Hcross]. apply Forall_app in Ha as [Ha1 Ha2].
    split; [by constructor|].
    intros x y [->|Hx]%elem_of_cons Hy; [|by apply Hcross].
    by eapply Forall_forall in Ha2.
Qed.

Lemma take_three_ranks (no_more : A → A → Prop) l :
  Forall comparable l →
  (∀ x y, comparable x → comparable y → lt x y = false → no_more y x) →
  ranks_first no_more (take 3 (Demo.sorted_descending lt l)) l.
Proof.
  intros Hl Hno. unfold ranks_first. split.
  - rewrite length_take. by rewrite (Permutation_length (sorted_descending_perm l)).
  - exists (drop 3 (Demo.sorted_descending lt l)).
    rewrite take_drop. split; [apply sorted_descending_perm|].
    pose proof (sorted_descending_sorted l Hl) as Hs.
    assert (Forall comparable (Demo.sorted_descending lt l)) as Hall
      by (by rewrite sorted_descending_perm).
    rewrite <- (take_drop 3 (Demo.sorted_descending lt l)) in Hs, Hall.
    apply Forall_app in Hall as [Htop Hrest].
    apply strongly_sorted_app in Hs as [Hs Hcross]. split.
    + clear Hcross.
      induction Hs as [|a l' Hl' IH Ha]; constructor.
      * apply IH. by apply Forall_cons in Htop as [_ ?].
      * apply Forall_cons in Htop as [Hoa Htop].
        apply Forall_forall. intros z Hz. apply Hno.
        -- done.
        -- by eapply Forall_forall in Htop.
        -- by eapply Forall_forall in Ha.
    + intros x y Hx Hy. apply Hno.
      * by eapply Forall_forall in Htop.
      * by eapply Forall_forall in Hrest.
      * by apply Hcross.
Qed.
End Sorting.

(** *** The order of the floats *)

Ltac order_cases :=
  intros; fold Pos.compare in *;
  repeat match goal with
  | b : bool |- _ => destruct b
  | |- context [Z.compare ?a ?b] => destruct (Z.compare_spec a b)
  | H : context [Z.compare ?a ?b] |- _ => destruct (Z.compare_spec a b)
  | |- context [Pos.compare ?a ?b] => destruct (Pos.compare_spec a b)
  | H : context [Pos.compare ?a ?b] |- _ => destruct (Pos.compare_spec a b)
  end; cbn in *; try done; try lia.

Lemma SFltb_asym x y : SFltb x y = true → SFltb y x = false.
Proof.
  unfold SFltb, SFcompare.
  destruct x as [sx|sx| |sx mx ex], y as [sy|sy| |sy my ey];
    cbn; try done; order_cases.
Qed.

Lemma SFltb_ge_trans x y z :
  not_nan x → not_nan y → not_nan z →
  SFltb x y = false → SFltb y z = false → SFltb x z = false.
Proof.
  unfold SFltb, SFcompare.
  destruct x as [sx|sx| |sx mx ex], y as [sy|sy| |sy my ey], z as [sz|sz| |sz mz ez];
    cbn; try done; order_cases.
Qed.

Lemma SFltb_false_leb x y :
  not_nan x → not_nan y → SFltb x y = false → SFleb y x = true.
Proof.
  unfold SFltb, SFleb, SFcompare.
  destruct x as [sx|sx| |sx mx ex], y as [sy|sy| |sy my ey];
    cbn; try done; order_cases.
Qed.

Lemma is_nan_not_nan f : is_nan f = false → not_nan (Prim2SF f).
Proof.
  unfold is_nan. rewrite FloatAxioms.eqb_spec. unfold SFeqb, SFcompare.
  destruct (Prim2SF f); cbn; done.
Qed.

(** X19: the three rankings of the final report.  "Most orders", "most
    fills" and "most profit" each list three teams, or all of them when
    there are fewer, in descending order of the count, and no team left out
    of a ranking counts more than a team listed in it.  The profits are
    floats, compared as floats; the ranking by profit is stated for profits
    that are numbers, none of them a NaN, which compares with nothing. *)
Theorem top_three_rankings :
  ∀ performances,
    ranks_first (fun y x => (Demo.perf_orders_sent y ≤ Demo.perf_orders_sent x)%nat)
      (Demo.top_orders performances) performances ∧
    ranks_first (fun y x => (Demo.perf_orders_filled y ≤ Demo.perf_orders_filled x)%nat)
      (Demo.top_fills performances) performances ∧
    (Forall (fun p => is_nan (Demo.perf_total_profit p) = false) performances →
     ranks_first no_more_profit (Demo.top_profit performances) performances).
Proof.
  intros performances.
  assert (Forall (fun _ : Demo.performance => True) performances) as Hall
    by (by apply Forall_forall).
  split; [|split].
  - apply (take_three_ranks _ (fun _ => True)); [| |done|].
    + intros x y _ _ ?%bool_decide_eq_true_1. apply bool_decide_eq_false_2. lia.
    + intros x y z _ _ _ ?%bool_decide_eq_false_1 ?%bool_decide_eq_false_1.
      apply bool_decide_eq_false_2. lia.
    + intros x y _ _ ?%bool_decide_eq_false_1. lia.
  - apply (take_three_ranks _ (fun _ => True)); [| |done|].
    + intros x y _ _ ?%bool_decide_eq_true_1. apply bool_decide_eq_false_2. lia.
    + intros x y z _ _ _ ?%bool_decide_eq_false_1 ?%bool_decide_eq_false_1.
      apply bool_decide_eq_false_2. lia.
    + intros x y _ _ ?%bool_decide_eq_false_1. lia.
  - intros Hnumbers.
    apply (take_three_ranks _
             (fun p => is_nan (Demo.perf_total_profit p) = false)); [| |done|].
    + intros x y _ _. rewrite !FloatAxioms.ltb_spec. apply SFltb_asym.
    + intros x y z Hx Hy Hz. rewrite !FloatAxioms.ltb_spec.
      apply SFltb_ge_trans; by apply is_nan_not_nan.
    + intros x y Hx Hy. unfold no_more_profit.
      rewrite FloatAxioms.ltb_spec, FloatAxioms.leb_spec.
      apply SFltb_false_leb; by apply is_nan_not_nan.
Qed.

Lemma top_three_rankings_witness :
  ranks_first no_more_profit
    (Demo.top_profit
       [{| Demo.perf_team_name := "Avocultores"; Demo.perf_strategy := "Trader";
           Demo.perf_orders_sent := 3; Demo.perf_orders_filled := 1;
           Demo.perf_total_profit := (-10)%float |};
        {| Demo.perf_team_name := "Monjes"; Demo.perf_strategy := "Producer";
           Demo.perf_orders_sent := 5; Demo.perf_orders_filled := 2;
           Demo.perf_total_profit := 0.75%float |}])
    [{| Demo.perf_team_name := "Avocultores"; Demo.perf_strategy := "Trader";
        Demo.perf_orders_sent := 3; Demo.perf_orders_filled := 1;
        Demo.perf_total_profit := (-10)%float |};
     {| Demo.perf_team_name := "Monjes"; Demo.perf_strategy := "Producer";
        Demo.perf_orders_sent := 5; Demo.perf_orders_filled := 2;
        Demo.perf_total_profit := 0.75%float |}].
Proof.
  apply (proj2 (proj2 (top_three_rankings _))).
  repeat (apply Forall_cons; split; [reflexivity|]). apply Forall_nil. exact I.
Defined.

(** X20: the rankings break ties by the order of the input: in the list
    sorted by the count of orders (or of fills), the teams with one and the
    same count come in the order they had before the sort. *)
Theorem rankings_keep_order_of_ties :
  ∀ (key : Demo.performance → nat) performances k,
    filter (fun p => key p = k)
      (Demo.sorted_descending (fun x y => bool_decide (key x < key y)) performances)
    = filter (fun p => key p = k) performances.
Proof.
  intros key performances k.
  assert (∀ x l,
            filter (fun p => key p = k)
              (Demo.insert_descending (fun x y => bool_decide (key x < key y)) x l)
            = filter (fun p => key p = k) (x :: l)) as Hins.
  { intros x l. induction l as [|y l IH]; cbn [Demo.insert_descending]; [done|].
    case_bool_decide as Hxy; [|done].
    rewrite (filter_cons _ y), IH, !filter_cons.
    repeat case_decide; try done; lia. }
  induction performances as [|x l IH]; [done|].
  unfold Demo.sorted_descending in *. cbn [foldr].
  rewrite Hins, !filter_cons, IH. done.
Qed.

(** ** The simulation: orders, productions and the report *)

Lemma place_order_counts c io :
  let c' := fst (Simulation.place_order c io) in
  let s := Simulation.stats (Simulation.state c) in
  let s' := Simulation.stats (Simulation.state c') in
  Simulation.total_orders s' = Simulation.total_orders s + 1 ∧
  Simulation.websocket c' = Simulation.websocket c ∧
  Simulation.successful_orders s' + Simulation.failed_orders s'
  + (if Simulation.websocket c && unreadable io then 1 else 0)
  = Simulation.successful_orders s + Simulation.failed_orders s + 1 ∧
  Simulation.orders_placed (Simulation.state c') + Simulation.successful_orders s
  = Simulation.orders_placed (Simulation.state c) + Simulation.successful_orders s' ∧
  (Simulation.websocket c = false →
   Simulation.successful_orders s' = Simulation.successful_orders s).
Proof.
  unfold Simulation.place_order, Simulation.send_message, Simulation.response_is,
    unreadable.
  destruct (Simulation.websocket c) eqn:Hws; [destruct io as [[response t]|]|];
    [destruct response| |];
    repeat case_match; simplify_eq; cbn; rewrite ?Hws;
    repeat split; try done; lia.
Qed.

(** X21: [place_order] counts every order once, before it reads the answer:
    after any number of orders of a new client, [total_orders] is the number
    of orders.  An order is then counted as successful or as failed, a
    timeout or a missing connection counting as a failure, unless the answer
    is a JSON value that is true and is not an object, on which reading its
    type raises: [total_orders] is [successful_orders] plus [failed_orders]
    plus the number of such answers.  [orders_placed] repeats
    [successful_orders], and a client without a websocket has only failed
    orders. *)
Theorem place_orders_accounting :
  ∀ connected ios,
    let c := Simulation.place_orders (Simulation.new_client connected) ios in
    let s := Simulation.stats (Simulation.state c) in
    Simulation.total_orders s = length ios ∧
    Simulation.total_orders s
    = Simulation.successful_orders s + Simulation.failed_orders s
      + (if connected then unreadable_among ios else 0) ∧
    Simulation.orders_placed (Simulation.state c) = Simulation.successful_orders s ∧
    (connected = false →
     Simulation.successful_orders s = 0 ∧
     Simulation.failed_orders s = length ios).
Proof.
  intros connected ios c s. subst c s. unfold Simulation.place_orders.
  assert (∀ c,
            let c' := foldl (fun c io => fst (Simulation.place_order c io)) c ios in
            let s := Simulation.stats (Simulation.state c) in
            let s' := Simulation.stats (Simulation.state c') in
            Simulation.total_orders s' = Simulation.total_orders s + length ios ∧
            Simulation.successful_orders s' + Simulation.failed_orders s'
            + (if Simulation.websocket c then unreadable_among ios else 0)
            = Simulation.successful_orders s + Simulation.failed_orders s
              + length ios ∧
            Simulation.orders_placed (Simulation.state c')
            + Simulation.successful_orders s
            = Simulation.orders_placed (Simulation.state c)
              + Simulation.successful_orders s' ∧
            (Simulation.websocket c = false →
             Simulation.successful_orders s' = Simulation.successful_orders s))
    as Hrun.
  { induction ios as [|io ios IH]; intros c; cbn [foldl length].
    - unfold unreadable_among. cbn. repeat split; try done; try lia.
      destruct (Simulation.websocket c); lia.
    - destruct (place_order_counts c io) as (Ht & Hw & Hc & Hp & Hs).
      destruct (IH (fst (Simulation.place_order c io))) as (Ht' & Hc' & Hp' & Hs').
      cbn zeta in *. rewrite Hw in Hc', Hs'.
      unfold unreadable_among in *. rewrite filter_cons.
      repeat split.
      + lia.
      + destruct (Simulation.websocket c), (unreadable io);
          repeat case_decide; try done; cbn [andb length] in *; lia.
      + lia.
      + intros Hoff. rewrite Hs', Hs; done. }
  destruct (Hrun (Simulation.new_client connected)) as (Ht & Hc & Hp & Hs).
  cbn in Ht, Hc, Hp, Hs. split; [lia|]. split; [lia|]. split; [lia|].
  intros ->. specialize (Hs eq_refl). lia.
Qed.

(** An answer that is a number: the order is counted and is neither
    successful nor failed. *)
Lemma place_order_unreadable_answer :
  Simulation.place_order Examples.simulation_running (Some (VInt 1, 0.25%float))
  = (Simulation.set_state
       (Simulation.set_stats
          (Simulation.incr_total_orders
             (Simulation.order_times_append 0.25%float
                (Simulation.stats (Simulation.state Examples.simulation_running))))
          (Simulation.state Examples.simulation_running))
       Examples.simulation_running,
     Raised AttributeError).
Proof. reflexivity. Qed.

(** X22: a production that succeeded adds its quantity to the stock of its
    product, a product not yet in the inventory starting from nothing,
    leaves every other product as it is and counts one production; a
    production that did not succeed (another answer, a timeout, no
    websocket, or an answer that is not an object and cannot be read)
    changes neither the inventory nor the count. *)
Theorem simulate_production_inventory :
  ∀ c inventory product quantity io,
    let c' := fst (fst (Simulation.simulate_production c inventory product quantity io)) in
    let inventory' := snd (fst (Simulation.simulate_production c inventory product quantity io)) in
    let ok := snd (Simulation.simulate_production c inventory product quantity io) in
    (ok = Returned true →
     inventory' !! product = Some (default 0 (inventory !! product) + quantity) ∧
     (∀ other, other ≠ product → inventory' !! other = inventory !! other) ∧
     Simulation.production_count (Simulation.state c')
     = Simulation.production_count (Simulation.state c) + 1 ∧
     Simulation.websocket c = true) ∧
    (ok ≠ Returned true →
     inventory' = inventory ∧
     Simulation.production_count (Simulation.state c')
     = Simulation.production_count (Simulation.state c)).
Proof.
  intros c inventory product quantity io.
  unfold Simulation.simulate_production.
  destruct (Simulation.send_message c io) as [c1 response] eqn:Hsend.
  assert (Simulation.production_count (Simulation.state c1)
          = Simulation.production_count (Simulation.state c)) as Hcount.
  { revert Hsend. unfold Simulation.send_message.
    destruct (Simulation.websocket c); [destruct io as [[r t]|]|];
      by intros [= <- _]. }
  assert (Simulation.websocket c = false → response = VNone) as Hoff.
  { revert Hsend. unfold Simulation.send_message. intros H Hws.
    rewrite Hws in H. by injection H as _ <-. }
  destruct (Simulation.response_is response "PRODUCTION_SUCCESS")
    as [[]|e] eqn:Hok; cbn [fst snd].
  - split; [intros _|done]. split; [|split; [|split; [by rewrite <- Hcount|]]].
    + destruct (inventory !! product) as [n|] eqn:Hn; cbn;
        by rewrite lookup_insert_eq.
    + intros other Hne.
      destruct (inventory !! product) as [n|]; by rewrite lookup_insert_ne.
    + destruct (Simulation.websocket c); [done|].
      rewrite (Hoff eq_refl) in Hok. discriminate Hok.
  - split; [discriminate|done].
  - split; [discriminate|done].
Qed.

(** ** The simulation: the tokens of the command line *)

Lemma comma_eqb a :
  String.eqb (String a EmptyString) "," = true → String a EmptyString = ",".
Proof. apply String.eqb_eq. Qed.

Lemma split_commas_nonempty s : Simulation.split_commas s ≠ [].
Proof.
  destruct s as [|a s]; cbn [Simulation.split_commas]; [done|].
  destruct (String.eqb _ ","); [done|]. by destruct (Simulation.split_commas s).
Qed.

Lemma join_commas_cons a piece pieces :
  Simulation.join_commas (String a piece :: pieces)
  = String a (Simulation.join_commas (piece :: pieces)).
Proof. by destruct pieces. Qed.

(** Splitting at the commas loses nothing: joining the pieces of
    [s.split(',')] with commas gives [s] back, and there is always at least
    one piece. *)
Theorem split_join_round_trip :
  ∀ s,
    Simulation.join_commas (Simulation.split_commas s) = s ∧
    Simulation.split_commas s ≠ [].
Proof.
  intros s. split; [|apply split_commas_nonempty].
  induction s as [|a s IH]; [done|]. cbn [Simulation.split_commas].
  destruct (String.eqb (String a EmptyString) ",") eqn:Ha.
  - apply comma_eqb in Ha. injection Ha as ->.
    pose proof (split_commas_nonempty s) as Hne.
    destruct (Simulation.split_commas s) as [|piece pieces] eqn:Hs; [done|].
    cbn [Simulation.join_commas] in *. by rewrite IH.
  - pose proof (split_commas_nonempty s) as Hne.
    destruct (Simulation.split_commas s) as [|piece pieces] eqn:Hs; [done|].
    by rewrite join_commas_cons, IH.
Qed.

Lemma append_cons c a b : String c a +:+ b = String c (a +:+ b).
Proof. reflexivity. Qed.

Lemma split_commas_comma b :
  Simulation.split_commas ("," +:+ b) = "" :: Simulation.split_commas b.
Proof. reflexivity. Qed.

Lemma split_commas_two s :
  (2 ≤ length (Simulation.split_commas s))%nat ↔ ∃ a b, s = a +:+ "," +:+ b.
Proof.
  split.
  - induction s as [|c s IH]; cbn [Simulation.split_commas]; [cbn; lia|].
    destruct (String.eqb (String c EmptyString) ",") eqn:Hc.
    + intros _. apply comma_eqb in Hc. injection Hc as ->. by exists "", s.
    + pose proof (split_commas_nonempty s) as Hne.
      destruct (Simulation.split_commas s) as [|piece pieces] eqn:Hs; [done|].
      cbn [length] in *. intros Hlen. destruct (IH Hlen) as (a & b & ->).
      by exists (String c a), b.
  - intros (a & b & ->). induction a as [|c a IH].
    + change ("" +:+ "," +:+ b) with ("," +:+ b). rewrite split_commas_comma.
      pose proof (split_commas_nonempty b) as Hne.
      destruct (Simulation.split_commas b); [done|]. cbn. lia.
    + rewrite append_cons. cbn [Simulation.split_commas].
      pose proof (split_commas_nonempty (a +:+ "," +:+ b)) as Hne.
      destruct (String.eqb (String c EmptyString) ",").
      * destruct (Simulation.split_commas (a +:+ "," +:+ b)); [done|]. cbn. lia.
      * destruct (Simulation.split_commas (a +:+ "," +:+ b)); [done|]. exact IH.
Qed.

(** X24: [main] goes on to connect exactly when its token argument holds a
    comma, whatever [strip] removes: one token alone is refused, and an
    argument that ends in a comma is let through with an empty last
    token. *)
Theorem main_needs_a_comma :
  ∀ (strip : string → string) arg,
    length (Simulation.parse_tokens strip arg)
    = length (Simulation.split_commas arg) ∧
    (Simulation.enough_tokens strip arg = true ↔
     ∃ a b, arg = a +:+ "," +:+ b) ∧
    (∀ a, Simulation.enough_tokens strip (a +:+ ",") = true ∧
          last (Simulation.split_commas (a +:+ ",")) = Some "").
Proof.
  intros strip arg.
  assert (∀ s, Simulation.enough_tokens strip s = true ↔ ∃ a b, s = a +:+ "," +:+ b)
    as Henough.
  { intros s. unfold Simulation.enough_tokens, Simulation.parse_tokens.
    rewrite length_fmap, <- split_commas_two, negb_true_iff.
    rewrite bool_decide_eq_false. lia. }
  split; [apply length_fmap|]. split; [apply Henough|].
  intros a. split.
  - apply Henough. by exists a, "".
  - induction a as [|c a IH]; [done|].
    rewrite append_cons. cbn [Simulation.split_commas].
    pose proof (split_commas_nonempty (a +:+ ",")) as Hne.
    destruct (String.eqb (String c EmptyString) ",").
    + destruct (Simulation.split_commas (a +:+ ",")); [done|]. exact IH.
    + assert (2 ≤ length (Simulation.split_commas (a +:+ ",")))%nat as Hlen.
      { apply split_commas_two. by exists a, "". }
      destruct (Simulation.split_commas (a +:+ ",")) as [|p [|q ps]];
        [done|cbn in Hlen; lia|exact IH].
Qed.

(** ** The improved client: whose order a success is *)

(** X25: [send_order] of the improved client credits a success only to its
    own order: when it returns [True] for a non-empty generated id, a message
    of kind ORDER_ACK or FILL that bears this id was popped within the five
    seconds of the wait, and the success and the order were counted once. *)
Theorem improved_success_is_own_order :
  ∀ c (order_id : string) sent inbox,
    order_id ≠ "" →
    snd (Improved.send_order c order_id sent inbox) = Returned true →
    (∃ m, m ∈ popped 5000 0 inbox ∧
          str_in (get m "type") ["ORDER_ACK"; "FILL"] = true ∧
          get m "clOrdID" = VStr order_id) ∧
    Improved.orders_success (fst (Improved.send_order c order_id sent inbox))
    = Improved.orders_success c + 1 ∧
    Improved.orders_sent (fst (Improved.send_order c order_id sent inbox))
    = Improved.orders_sent c + 1.
Proof.
  intros c order_id sent inbox Hne. unfold Improved.send_order.
  destruct (Improved.websocket c); [|discriminate].
  destruct sent as [[]|e]; [|discriminate].
  unfold Improved.wait_for_response.
  destruct (improved_wait_loop_cases
              ["ORDER_ACK"; "FILL"; "ERROR"] (Some order_id) 5000%Z inbox 0%Z [])
    as [[Hr _]|[Hin Hq]].
  { rewrite Hr. cbn. discriminate. }
  set (r := Improved.wait_loop _ _ _ _ _ _) in *.
  destruct (str_in (get r "type") ["ORDER_ACK"; "FILL"]) eqn:Hkind.
  2:{ destruct (is_str (get r "type") "ERROR"); discriminate. }
  intros _. split; [|done]. exists r. split; [done|]. split; [done|].
  unfold Improved.qualifies in Hq.
  assert (str_in (get r "type") ["ORDER_ACK"; "FILL"; "ERROR"] = true) as Hexp.
  { destruct (get r "type") as [| | | |s| |]; try discriminate Hkind.
    cbn [str_in] in *. apply bool_decide_eq_true_1 in Hkind.
    apply bool_decide_eq_true_2.
    apply elem_of_cons in Hkind as [->|Hkind]; [apply list_elem_of_here|].
    apply list_elem_of_singleton in Hkind as ->.
    apply list_elem_of_further, list_elem_of_here. }
  rewrite Hexp in Hq. cbn [truthy] in Hq.
  rewrite bool_decide_eq_true_2 in Hq by done. cbn [eq_opt_str] in Hq.
  destruct (get r "clOrdID") as [| | | |s| |]; try discriminate Hq.
  cbn [is_str] in Hq. by apply bool_decide_eq_true_1 in Hq as ->.
Qed.

Lemma improved_success_is_own_order_witness :
  ∃ m, m ∈ popped 5000 0 [Got (Examples.ack "B") 10; Got (Examples.ack "A") 10] ∧
       str_in (get m "type") ["ORDER_ACK"; "FILL"] = true ∧
       get m "clOrdID" = VStr "A".
Proof.
  refine (proj1 (improved_success_is_own_order (Improved.new_client true) "A"
                   (Returned tt)
                   [Got (Examples.ack "B") 10%Z; Got (Examples.ack "A") 10%Z] _ _)).
  - discriminate.
  - reflexivity.
Defined.

(** ** The simulation: the listener *)

Lemma listen_step_counts c data :
  is_str (get data "type") "FILL" = true →
  let c' :=
    Simulation.set_state
      (Simulation.set_stats
         (Simulation.incr_first_fills
            (Simulation.stats
               (Simulation.state
                  (Simulation.set_state
                     (Simulation.incr_orders_filled (Simulation.state c)) c))))
         (Simulation.state
            (Simulation.set_state
               (Simulation.incr_orders_filled (Simulation.state c)) c)))
      (Simulation.set_state (Simulation.incr_orders_filled (Simulation.state c)) c) in
  Simulation.running c' = Simulation.running c ∧
  Simulation.websocket c' = Simulation.websocket c.
Proof. done. Qed.

(** X26: [listen_for_messages] counts the fills, and counts them twice: a
    running client with a websocket adds the number of FILL messages among
    its frames to [orders_filled] and to [first_fills] alike, a timeout or a
    frame of another kind counting for nothing; a client that is not running
    or has no websocket reads no frame. *)
Theorem listen_for_messages_counts_fills :
  ∀ c frames,
    let c' := Simulation.listen_for_messages c frames in
    (Simulation.running c && Simulation.websocket c = true →
     Simulation.orders_filled (Simulation.state c')
     = Simulation.orders_filled (Simulation.state c) + fills_among frames ∧
     Simulation.first_fills (Simulation.stats (Simulation.state c'))
     = Simulation.first_fills (Simulation.stats (Simulation.state c))
       + fills_among frames) ∧
    (Simulation.running c && Simulation.websocket c = false → c' = c).
Proof.
  intros c frames c'. subst c'. split.
  - revert c. induction frames as [|frame frames IH]; intros c Hon.
    + cbn. lia.
    + cbn [Simulation.listen_for_messages]. rewrite Hon.
      unfold fills_among in *. rewrite filter_cons.
      destruct frame as [data|].
      * cbn [is_fill_frame].
        destruct (is_str (get data "type") "FILL") eqn:Hfill.
        -- rewrite decide_True by done.
           destruct (IH (Simulation.set_state
                           (Simulation.set_stats
                              (Simulation.incr_first_fills
                                 (Simulation.stats
                                    (Simulation.state
                                       (Simulation.set_state
                                          (Simulation.incr_orders_filled
                                             (Simulation.state c)) c))))
                              (Simulation.state
                                 (Simulation.set_state
                                    (Simulation.incr_orders_filled
                                       (Simulation.state c)) c)))
                           (Simulation.set_state
                              (Simulation.incr_orders_filled (Simulation.state c)) c)))
             as [Ho Hf]; [exact Hon|].
           rewrite Ho, Hf. cbn. lia.
        -- rewrite decide_False by done. by apply IH.
      * rewrite decide_False by done. by apply IH.
  - intros Hoff. destruct frames; cbn [Simulation.listen_for_messages]; [done|].
    by rewrite Hoff.
Qed.

Lemma listen_for_messages_counts_fills_witness :
  Simulation.orders_filled
    (Simulation.state
       (Simulation.listen_for_messages Examples.simulation_running
          [Some Examples.fill; None; Some Examples.ticker; Some Examples.fill_buy]))
  = Simulation.orders_filled (Simulation.state Examples.simulation_running)
    + fills_among [Some Examples.fill; None; Some Examples.ticker; Some Examples.fill_buy].
Proof.
  refine (proj1 (proj1 (listen_for_messages_counts_fills
                          Examples.simulation_running
                          [Some Examples.fill; None; Some Examples.ticker;
                           Some Examples.fill_buy]) _)).
  reflexivity.
Defined.
